(** * GitHub Events Tracker: a shallow embedding of [app.py]

    The development follows the layout of the program:
    - the Python run-time notions the program relies on (exceptions,
      JSON-decoded values, [datetime] arithmetic),
    - the [events] table of the SQLite store,
    - the functions of [app.py], written in a state-and-exception monad
      over the process environment,
    - the properties of the event store, the window selector, the
      interval aggregator, the feed fetcher and the configuration
      loader,
    - further properties of the same functions in any state of the
      store and of the feeds: invariants of the table, error paths,
      what the reads return and what they leave alone. *)

From Stdlib Require Import ZArith QArith String Ascii List Lia Bool.
From Stdlib Require Import Floats.SpecFloat.
From stdpp Require Import base option list gmap strings sorting.

Local Open Scope string_scope.
Local Open Scope list_scope.
Local Open Scope Z_scope.

(** ** Python exceptions *)

(** The exception classes the program can meet.  Each constructor is the
    most specific class of the raised object. *)
Inductive exn : Type :=
  | OSError
  | FileNotFoundError        (* an OSError *)
  | PermissionError          (* an OSError *)
  | IsADirectoryError        (* an OSError *)
  | JSONDecodeError          (* json.JSONDecodeError, a ValueError *)
  | UnicodeDecodeError       (* a ValueError, through UnicodeError *)
  | ValueError
  | TypeError
  | AttributeError
  | IndexError
  | OverflowError
  | IntegrityError           (* sqlite3.IntegrityError *)
  | OperationalError         (* sqlite3.OperationalError *)
  | ProgrammingError         (* sqlite3.ProgrammingError *)
  | DatabaseError            (* sqlite3.DatabaseError *)
  | InterfaceError           (* sqlite3.InterfaceError: an Error, not a DatabaseError *)
  | Timeout                  (* requests.exceptions.Timeout *)
  | ConnectionError          (* requests.exceptions.ConnectionError *)
  | HTTPError                (* requests.exceptions.HTTPError *)
  | RequestException.        (* requests.exceptions.RequestException *)

#[global] Instance exn_eq_dec : EqDecision exn.
Proof. solve_decision. Defined.

(** The base class, among the classes listed, below [Exception]. *)
Definition base_class (e : exn) : option exn :=
  match e with
  | FileNotFoundError | PermissionError | IsADirectoryError => Some OSError
  | JSONDecodeError | UnicodeDecodeError => Some ValueError
  | IntegrityError | OperationalError | ProgrammingError => Some DatabaseError
  | Timeout | ConnectionError | HTTPError => Some RequestException
  | _ => None
  end.

(** [isinstance e cls]: would [except cls] catch [e]? *)
Definition isinstance (e cls : exn) : bool :=
  bool_decide (e = cls) || bool_decide (base_class e = Some cls).

(** ** The state-and-exception monad *)

Inductive result (A : Type) : Type :=
  | Ok (a : A)
  | Raise (e : exn).
Arguments Ok {A} a.
Arguments Raise {A} e.

#[global] Instance result_ret : MRet result := @Ok.
#[global] Instance result_bind : MBind result :=
  λ A B f r, match r with Ok a => f a | Raise e => Raise e end.

Section Monad.
Context {W : Type}.

Definition M (A : Type) : Type := W → result A * W.

Definition ret {A} (a : A) : M A := λ w, (Ok a, w).

Definition bind {A B} (m : M A) (k : A → M B) : M B :=
  λ w, match m w with
       | (Ok a, w') => k a w'
       | (Raise e, w') => (Raise e, w')
       end.

Definition raise {A} (e : exn) : M A := λ w, (Raise e, w).

(** Lift a pure computation that may raise. *)
Definition lift {A} (r : result A) : M A := λ w, (r, w).

Definition gets {A} (f : W → A) : M A := λ w, (Ok (f w), w).

Definition modify (f : W → W) : M unit := λ w, (Ok tt, f w).

(** [try: body except: handler].  [handler e = None] when no [except]
    clause matches [e], which then propagates. *)
Definition try_except {A} (body : M A) (handler : exn → option (M A)) : M A :=
  λ w, match body w with
       | (Ok a, w') => (Ok a, w')
       | (Raise e, w') =>
           match handler e with
           | Some h => h w'
           | None => (Raise e, w')
           end
       end.

(** [try: body finally: cleanup]. *)
Definition try_finally {A} (body : M A) (cleanup : M unit) : M A :=
  λ w, match body w with
       | (r, w') =>
           match cleanup w' with
           | (Ok _, w'') => (r, w'')
           | (Raise e, w'') => (Raise e, w'')
           end
       end.

(** [for x in xs: body x] *)
Fixpoint for_each {A} (xs : list A) (body : A → M unit) : M unit :=
  match xs with
  | [] => ret tt
  | x :: xs' => bind (body x) (λ _, for_each xs' body)
  end.

(** A [for] loop whose body updates a local variable [s]. *)
Fixpoint for_fold {A S} (xs : list A) (s : S) (body : S → A → M S) : M S :=
  match xs with
  | [] => ret s
  | x :: xs' => bind (body s x) (λ s', for_fold xs' s' body)
  end.

(** [[f x for x in xs]] for a pure [f] that may raise. *)
Fixpoint comprehension {A B} (f : A → result B) (xs : list A) : result (list B) :=
  match xs with
  | [] => Ok []
  | x :: xs' =>
      match f x with
      | Ok b => match comprehension f xs' with
                | Ok bs => Ok (b :: bs)
                | Raise e => Raise e
                end
      | Raise e => Raise e
      end
  end.
End Monad.
Arguments M : clear implicits.

Declare Scope py_scope.
Delimit Scope py_scope with py.
Notation "x <- m ;; k" := (bind m (λ x, k))
  (at level 100, m at next level, right associativity) : py_scope.
Notation "m ;; k" := (bind m (λ _, k))
  (at level 100, right associativity) : py_scope.
Local Open Scope py_scope.

(** [l[0]] and [l[-1]] *)
Definition item_first {A} (l : list A) : result A :=
  match head l with Some x => Ok x | None => Raise IndexError end.

Definition item_last {A} (l : list A) : result A :=
  match last l with Some x => Ok x | None => Raise IndexError end.

(** ** JSON-decoded Python values *)

(** What [json.load] and [response.json()] produce.  Floating-point
    numbers do not occur in the fields the program reads and are left
    out. *)
#[warnings="-register-all"]
Inductive pyval : Type :=
  | PNone
  | PBool (b : bool)
  | PInt (z : Z)
  | PStr (s : string)
  | PList (l : list pyval)
  | PDict (d : gmap string pyval).

(** [len(v)] *)
Definition py_len (v : pyval) : result nat :=
  match v with
  | PStr s => Ok (String.length s)
  | PList l => Ok (length l)
  | PDict d => Ok (size d)
  | _ => Raise TypeError
  end.

(** The elements [for x in v] goes through. *)
Definition py_iter (v : pyval) : result (list pyval) :=
  match v with
  | PStr s => Ok ((λ c, PStr (String c EmptyString)) <$> list_ascii_of_string s)
  | PList l => Ok l
  | PDict d => Ok ((λ kv, PStr kv.1) <$> map_to_list d)
  | _ => Raise TypeError
  end.

(** [v.get(key)]: only dictionaries have the method; a missing key gives
    [None]. *)
Definition py_get (v : pyval) (key : string) : result pyval :=
  match v with
  | PDict d => Ok (default PNone (d !! key))
  | _ => Raise AttributeError
  end.

(** ** [datetime] *)

(** A [datetime.datetime] object: the calendar fields, and the UTC offset
    of its [tzinfo] in microseconds ([None] for a naive object).  A
    [timedelta] is kept as its total number of microseconds. *)
Record datetime : Type := mk_datetime {
  year : Z; month : Z; day : Z;
  hour : Z; minute : Z; second : Z; microsecond : Z;
  utcoffset : option Z
}.

#[global] Instance datetime_eq_dec : EqDecision datetime.
Proof. solve_decision. Defined.

Definition US_PER_SECOND : Z := 1000000.
Definition US_PER_DAY : Z := 86400 * US_PER_SECOND.
Definition MAXORDINAL : Z := 3652059.

(** [timedelta(days=n)] *)
Definition timedelta_days (n : Z) : Z := n * US_PER_DAY.

(** The proleptic Gregorian calendar, as in the [datetime] module. *)
Definition is_leap (y : Z) : bool :=
  (y mod 4 =? 0) && (negb (y mod 100 =? 0) || (y mod 400 =? 0)).

Definition days_before_year (y : Z) : Z :=
  let y := y - 1 in y * 365 + y / 4 - y / 100 + y / 400.

Definition DAYS_IN_MONTH : list Z :=
  [-1; 31; 28; 31; 30; 31; 30; 31; 31; 30; 31; 30; 31].

Definition DAYS_BEFORE_MONTH : list Z :=
  [-1; 0; 31; 59; 90; 120; 151; 181; 212; 243; 273; 304; 334].

Definition days_in_month (y m : Z) : Z :=
  if (m =? 2) && is_leap y then 29 else nth (Z.to_nat m) DAYS_IN_MONTH 0.

Definition days_before_month (y m : Z) : Z :=
  nth (Z.to_nat m) DAYS_BEFORE_MONTH 0 + (if (2 <? m) && is_leap y then 1 else 0).

Definition ymd2ord (y m d : Z) : Z :=
  days_before_year y + days_before_month y m + d.

Definition DI400Y : Z := days_before_year 401.
Definition DI100Y : Z := days_before_year 101.
Definition DI4Y : Z := days_before_year 5.

Definition ord2ymd (n : Z) : Z * Z * Z :=
  let n := n - 1 in
  let n400 := n / DI400Y in let n := n mod DI400Y in
  let y := n400 * 400 + 1 in
  let n100 := n / DI100Y in let n := n mod DI100Y in
  let n4 := n / DI4Y in let n := n mod DI4Y in
  let n1 := n / 365 in let n := n mod 365 in
  let y := y + n100 * 100 + n4 * 4 + n1 in
  if (n1 =? 4) || (n100 =? 4) then (y - 1, 12, 31)
  else
    let leapyear := (n1 =? 3) && (negb (n4 =? 24) || (n100 =? 3)) in
    let m := Z.shiftr (n + 50) 5 in
    let preceding :=
      nth (Z.to_nat m) DAYS_BEFORE_MONTH 0 + (if (2 <? m) && leapyear then 1 else 0) in
    if n <? preceding then
      let m := m - 1 in
      let preceding :=
        preceding - (nth (Z.to_nat m) DAYS_IN_MONTH 0
                     + (if (m =? 2) && leapyear then 1 else 0)) in
      (y, m, n - preceding + 1)
    else (y, m, n - preceding + 1).

Definition toordinal (dt : datetime) : Z := ymd2ord (year dt) (month dt) (day dt).

(** Microseconds since midnight. *)
Definition time_of_day (dt : datetime) : Z :=
  (hour dt * 3600 + minute dt * 60 + second dt) * US_PER_SECOND + microsecond dt.

(** [dt + delta] *)
Definition datetime_add (dt : datetime) (delta : Z) : result datetime :=
  let total := toordinal dt * US_PER_DAY + time_of_day dt + delta in
  let days := total / US_PER_DAY in
  let rest := total mod US_PER_DAY in
  if (0 <? days) && (days <=? MAXORDINAL) then
    let '(y, m, d) := ord2ymd days in
    let secs := rest / US_PER_SECOND in
    Ok {| year := y; month := m; day := d;
          hour := secs / 3600; minute := (secs mod 3600) / 60; second := secs mod 60;
          microsecond := rest mod US_PER_SECOND;
          utcoffset := utcoffset dt |}
  else Raise OverflowError.

(** [a - b] for two datetimes. *)
Definition datetime_sub (a b : datetime) : result Z :=
  let base := (toordinal a - toordinal b) * US_PER_DAY + (time_of_day a - time_of_day b) in
  match utcoffset a, utcoffset b with
  | None, None => Ok base
  | Some oa, Some ob => Ok (base + ob - oa)
  | _, _ => Raise TypeError
  end.

(** ** Python floats

    A [float] is an IEEE 754 binary64 number, taken from the
    specification of floating-point arithmetic of the Standard Library
    ([prec = 53], [emax = 1024]); its operations round to nearest, ties
    to even. *)
Definition float : Type := spec_float.

Definition prec : Z := 53.
Definition emax : Z := 1024.

(** An integer as the operand of a division that rounds once: the
    mantissa is the integer itself. *)
Definition exact_int (z : Z) : float :=
  match z with
  | Z0 => S754_zero false
  | Zpos p => S754_finite false p 0
  | Zneg p => S754_finite true p 0
  end.

(** [a / b] for two [int]: the float nearest to the quotient. *)
Definition int_true_divide (a b : Z) : float :=
  SFdiv prec emax (exact_int a) (exact_int b).

(** [float(n)] *)
Definition float_of_int (n : Z) : float := binary_normalize prec emax n 0 false.

(** [x / y] for two [float]. *)
Definition float_truediv (x y : float) : float := SFdiv prec emax x y.

(** [x + y] for two [float]. *)
Definition float_add (x y : float) : float := SFadd prec emax x y.

(** The rational number a finite float denotes. *)
Definition float_value (x : float) : option Q :=
  match x with
  | S754_zero _ => Some 0%Q
  | S754_finite s m e =>
      Some (inject_Z (if s then Zneg m else Zpos m) * Qpower 2 e)%Q
  | _ => None
  end.

(** A float that is zero, a positive number or the positive infinity:
    the floats [x] with [0.0 <= x]. *)
Definition not_negative (x : float) : bool :=
  match x with
  | S754_zero _ => true
  | S754_finite s _ _ | S754_infinity s => negb s
  | S754_nan => false
  end.

Definition positive_finite (x : float) : bool :=
  match x with S754_finite false _ _ => true | _ => false end.

(** [delta.total_seconds()]: the microseconds of the [timedelta]
    divided by [10**6], as one division of integers. *)
Definition total_seconds (delta : Z) : float := int_true_divide delta 1000000.

(** Decimal notation of an integer, as [str(n)] and ["%d" % n] give
    it. *)
Definition digit_char (d : Z) : ascii := ascii_of_N (Z.to_N (48 + d)).

Fixpoint decimal_digits (fuel : nat) (n : Z) (acc : string) : string :=
  match fuel with
  | O => acc
  | S fuel' =>
      let acc := String (digit_char (n mod 10)) acc in
      if n <? 10 then acc else decimal_digits fuel' (n / 10) acc
  end.

Definition decimal (n : Z) : string :=
  let digits := decimal_digits (S (Z.to_nat (Z.log2 (Z.abs n)))) (Z.abs n) "" in
  if n <? 0 then "-" +:+ digits else digits.

(** ["%0<w>d" % n] for a non-negative [n]. *)
Definition zfill (w : nat) (n : Z) : string :=
  let s := decimal n in
  String.concat "" (replicate (w - String.length s) "0") +:+ s.

Definition format_offset (off : option Z) : string :=
  match off with
  | None => ""
  | Some o =>
      let sign := if o <? 0 then "-" else "+" in
      let o := Z.abs o in
      let hh := o / (3600 * US_PER_SECOND) in
      let r := o mod (3600 * US_PER_SECOND) in
      let mm := r / (60 * US_PER_SECOND) in
      let ss := r mod (60 * US_PER_SECOND) in
      sign +:+ zfill 2 hh +:+ ":" +:+ zfill 2 mm +:+
      (if ss =? 0 then ""
       else ":" +:+ zfill 2 (ss / US_PER_SECOND) +:+
            (if ss mod US_PER_SECOND =? 0 then ""
             else "." +:+ zfill 6 (ss mod US_PER_SECOND)))
  end.

(** [dt.isoformat()] *)
Definition isoformat (dt : datetime) : string :=
  zfill 4 (year dt) +:+ "-" +:+ zfill 2 (month dt) +:+ "-" +:+ zfill 2 (day dt) +:+ "T" +:+
  zfill 2 (hour dt) +:+ ":" +:+ zfill 2 (minute dt) +:+ ":" +:+ zfill 2 (second dt) +:+
  (if microsecond dt =? 0 then "" else "." +:+ zfill 6 (microsecond dt)) +:+
  format_offset (utcoffset dt).

(** [s.replace("Z", "")] *)
Definition remove_Z (s : string) : string :=
  string_of_list_ascii (filter (λ c, c ≠ "Z"%char) (list_ascii_of_string s)).

(** ** Library functions taken as an interface

    Three functions of the run-time libraries are used by the program
    but are not part of it.  The program is modelled over any
    implementation of them. *)
Class Library : Type := {
  (** SQLite's [datetime(X)]: the text ["YYYY-MM-DD HH:MM:SS"], or NULL
      when [X] is not a time value. *)
  sqlite_datetime : string → option string;
  (** [datetime.datetime.fromisoformat] *)
  fromisoformat : string → result datetime;
  (** [json.dumps] *)
  json_dumps : pyval → string
}.

(** ** The [events] table *)

(** SQL values of the TEXT columns: [None] is NULL. *)
Abbreviation sql_text := (option string).

(** One record of
    [events (id TEXT PRIMARY KEY, repo TEXT, event_type TEXT,
             created_at TEXT, raw_json TEXT)]. *)
Record row : Type := mk_row {
  id : sql_text;
  repo : string;
  event_type : sql_text;
  created_at : sql_text;
  raw_json : string
}.

#[global] Instance row_eq_dec : EqDecision row.
Proof. solve_decision. Defined.

(** BINARY collation: bytewise comparison of two texts. *)
Definition text_le (a b : string) : bool :=
  match String.compare a b with Gt => false | _ => true end.

(** SQL [a = b] and [a >= b] in a WHERE clause: a comparison with NULL
    is not true. *)
Definition sql_eq (a b : sql_text) : bool :=
  match a, b with
  | Some x, Some y => bool_decide (x = y)
  | _, _ => false
  end.

Definition sql_ge (a b : sql_text) : bool :=
  match a, b with
  | Some x, Some y => text_le y x
  | _, _ => false
  end.

(** Binding a Python value to a parameter stored in a TEXT column:
    integers are kept as their decimal text, [None] is NULL, lists and
    dictionaries are refused. *)
Definition bind_text (v : pyval) : result sql_text :=
  match v with
  | PNone => Ok None
  | PBool b => Ok (Some (if b then "1" else "0"))
  | PInt z =>
      if (- 2 ^ 63 <=? z) && (z <? 2 ^ 63) then Ok (Some (decimal z))
      else Raise OverflowError
  | PStr s => Ok (Some s)
  | PList _ | PDict _ => Raise ProgrammingError
  end.

(** [INSERT OR IGNORE]: the row is appended unless a stored row has the
    same (non-NULL) primary key.  NULL keys never conflict. *)
Definition insert_or_ignore (r : row) (t : list row) : list row :=
  if existsb (λ r', sql_eq (id r') (id r)) t then t else t ++ [r].

(** At most one stored record per (non-NULL) id. *)
Definition unique_ids (t : list row) : Prop := NoDup (omap id t).

(** The first of [rs] that carries the id [k]. *)
Definition first_with_id (k : string) (rs : list row) : option row :=
  head (filter (λ r, id r = Some k) rs).

(** First occurrences, in order. *)
Definition distinct {A} `{EqDecision A} (l : list A) : list A :=
  reverse (remove_dups (reverse l)).

(** [SELECT DISTINCT repo, event_type FROM events WHERE created_at >= ?] *)
Definition select_distinct_pairs (t : list row) (cutoff : string)
  : list (string * sql_text) :=
  distinct ((λ r, (repo r, event_type r))
              <$> filter (λ r, sql_ge (created_at r) (Some cutoff) = true) t).

(** NULL sorts before every text in ascending order. *)
Definition key_le (a b : sql_text) : Prop :=
  match a, b with
  | None, _ => True
  | Some _, None => False
  | Some x, Some y => text_le x y = true
  end.

#[global] Instance key_le_dec a b : Decision (key_le a b).
Proof. destruct a, b; simpl; apply _. Defined.

(** A stable sort: elements that compare equal stay in their order. *)
Section StableSort.
Context {A : Type} (R : relation A) `{∀ x y, Decision (R x y)}.

Fixpoint sorted_insert (x : A) (l : list A) : list A :=
  match l with
  | [] => [x]
  | y :: l' => if decide (R x y) then x :: l else y :: sorted_insert x l'
  end.

Definition stable_sort (l : list A) : list A := foldr sorted_insert [] l.
End StableSort.

Section Store.
Context `{Library}.

(** The ORDER BY term [datetime(created_at)]. *)
Definition order_key (r : row) : sql_text := created_at r ≫= sqlite_datetime.

Definition order_le (r1 r2 : row) : Prop := key_le (order_key r1) (order_key r2).

#[global] Instance order_le_dec r1 r2 : Decision (order_le r1 r2).
Proof. unfold order_le. apply _. Defined.

(** The WHERE clause
    [repo = ? AND event_type = ? AND created_at >= ?]. *)
Definition in_window (r0 : string) (t0 : sql_text) (cutoff : string) (r : row) : bool :=
  bool_decide (repo r = r0) && sql_eq (event_type r) t0
  && sql_ge (created_at r) (Some cutoff).

(** The rows of
    [SELECT created_at FROM events
     WHERE repo = ? AND event_type = ? AND created_at >= ?
     ORDER BY datetime(created_at) ASC],
    rows with equal keys staying in insertion order. *)
Definition select_window_rows (t : list row) (r0 : string) (t0 : sql_text)
    (cutoff : string) : list row :=
  stable_sort order_le (filter (λ r, in_window r0 t0 cutoff r = true) t).

(** The selected column.  No selected row has a NULL [created_at]. *)
Definition select_created_at (t : list row) (r0 : string) (t0 : sql_text)
    (cutoff : string) : list string :=
  omap created_at (select_window_rows t r0 t0 cutoff).
End Store.

(** ** The process environment *)

(** What [requests.get] does for a repository: it raises, or returns a
    response with a status code and a body ([None] when the body is not
    JSON). *)
Inductive feed_response : Type :=
  | NetworkFailure (e : exn)
  | HttpResponse (status_code : Z) (body : option pyval).

(** The file [config.json], by what [open(CONFIG_FILE, "r",
    encoding="utf-8")] and [json.load(f)] do with it:
    - there is no such file: [open] raises [FileNotFoundError];
    - the file cannot be opened or read as UTF-8 text: [open] or the
      decoding raises [e], a [PermissionError], an [IsADirectoryError],
      another [OSError], a [UnicodeDecodeError];
    - the file holds text that is not a JSON document: [json.load]
      raises [json.JSONDecodeError];
    - the file holds a JSON object whose members are lists of
      repository names, as the docstring of [load_config] asks.
    JSON documents of another shape (an array, an object whose
    ["repositories"] is not a list of strings) are not represented. *)
Inductive config : Type :=
  | ConfigMissing
  | ConfigUnreadable (e : exn)
  | ConfigInvalid
  | ConfigObject (members : gmap string (list string)).

Inductive log_record : Type :=
  | INFO (msg : string)
  | ERROR (msg : string).

Record world : Type := mk_world {
  (** contents of [CONFIG_FILE] *)
  config_file : config;
  (** the module-level list [REPOSITORIES] *)
  REPOSITORIES : list string;
  (** committed rows of [events] in [DB_FILE], in insertion order *)
  events : list row;
  (** rows as the open connection sees them, while a write is not yet
      committed *)
  uncommitted : option (list row);
  (** what the storage layer does at its next operations: [Some e]
      makes the operation raise [e]; an exhausted script means no
      failure *)
  storage_faults : list (option exn);
  (** the value of [datetime.datetime.now(datetime.UTC)]; a call of the
      program is taken as one step, under which the clock stands
      still *)
  utcnow : datetime;
  (** the remote feed, by repository *)
  github : string → feed_response;
  (** what went to the logger, most recent first *)
  log : list log_record
}.

Definition set_events (t : list row) (w : world) : world :=
  mk_world (config_file w) (REPOSITORIES w) t (uncommitted w)
           (storage_faults w) (utcnow w) (github w) (log w).

Definition set_uncommitted (u : option (list row)) (w : world) : world :=
  mk_world (config_file w) (REPOSITORIES w) (events w) u
           (storage_faults w) (utcnow w) (github w) (log w).

Definition set_storage_faults (fs : list (option exn)) (w : world) : world :=
  mk_world (config_file w) (REPOSITORIES w) (events w) (uncommitted w)
           fs (utcnow w) (github w) (log w).

Definition add_log (r : log_record) (w : world) : world :=
  mk_world (config_file w) (REPOSITORIES w) (events w) (uncommitted w)
           (storage_faults w) (utcnow w) (github w) (r :: log w).

Definition set_REPOSITORIES (rs : list string) (w : world) : world :=
  mk_world (config_file w) rs (events w) (uncommitted w)
           (storage_faults w) (utcnow w) (github w) (log w).

(** The state a completed write leaves: the table [t], no open
    transaction. *)
Definition committed (t : list row) (w : world) : world :=
  set_uncommitted None (set_events t w).

Abbreviation Py := (M world).

(** *** Logging *)

Definition logger_info (msg : string) : Py unit := modify (add_log (INFO msg)).
Definition logger_error (msg : string) : Py unit := modify (add_log (ERROR msg)).

(** *** sqlite3 *)

(** Every operation of the storage layer first consults the script of
    failures. *)
Definition storage_operation : Py unit :=
  λ w, match storage_faults w with
       | [] => (Ok tt, w)
       | None :: fs => (Ok tt, set_storage_faults fs w)
       | Some e :: fs => (Raise e, set_storage_faults fs w)
       end.

(** [sqlite3.connect(DB_FILE)] *)
Definition sqlite3_connect : Py unit := storage_operation.

(** [conn.commit()]: the pending write becomes durable. *)
Definition conn_commit : Py unit :=
  storage_operation ;;
  modify (λ w, match uncommitted w with
               | Some t => set_uncommitted None (set_events t w)
               | None => w
               end).

(** [conn.close()]: a write that was not committed is rolled back. *)
Definition conn_close : Py unit := modify (set_uncommitted None).

(** [c.fetchall()] on the rows a SELECT produced. *)
Definition fetchall {A} (rows : list A) : Py (list A) :=
  storage_operation ;; ret rows.

(** [c.execute("SELECT ...")]: the statement is evaluated on the
    committed rows. *)
Definition execute_select {A} (q : list row → list A) : Py (list A) :=
  storage_operation ;; gets (λ w, q (events w)).

(** [c.execute("INSERT OR IGNORE INTO events (id, repo, event_type,
    created_at, raw_json) VALUES (?, ?, ?, ?, ?)", params)] *)
Definition execute_insert_or_ignore
    (p_id : pyval) (p_repo : string) (p_type p_created : pyval) (p_raw : string)
  : Py unit :=
  i <- lift (bind_text p_id) ;;
  t <- lift (bind_text p_type) ;;
  c <- lift (bind_text p_created) ;;
  storage_operation ;;
  modify (λ w, set_uncommitted
                 (Some (insert_or_ignore (mk_row i p_repo t c p_raw) (events w))) w).

(** *** datetime, requests, the configuration file *)

Definition datetime_now_utc : Py datetime := gets utcnow.

Definition requests_get (repo : string) : Py (Z * option pyval) :=
  λ w, match github w repo with
       | NetworkFailure e => (Raise e, w)
       | HttpResponse s b => (Ok (s, b), w)
       end.

(** [response.json()] *)
Definition response_json (body : option pyval) : result pyval :=
  match body with
  | Some v => Ok v
  | None => Raise JSONDecodeError
  end.

(** [with open(CONFIG_FILE) as f: config = json.load(f)] *)
Definition open_and_load : Py (gmap string (list string)) :=
  λ w, match config_file w with
       | ConfigMissing => (Raise FileNotFoundError, w)
       | ConfigUnreadable e => (Raise e, w)
       | ConfigInvalid => (Raise JSONDecodeError, w)
       | ConfigObject d => (Ok d, w)
       end.

(** ** The program *)

Definition POLL_INTERVAL_SECONDS : Z := 60.
Definition MAX_REPOS : nat := 5.
Definition MAX_EVENTS : nat := 500.
Definition MAX_DAYS : Z := 7.

(** The [/stats] payload: repository, then event type, then seconds. *)
Abbreviation stats := (gmap string (gmap sql_text float)).

Section App.
Context `{Library}.

Definition load_config : Py (list string) :=
  try_except
    (config <- open_and_load ;;
     let repos := default [] (config !! "repositories") in
     let repos :=
       if (MAX_REPOS <? length repos)%nat then take MAX_REPOS repos else repos in
     logger_info "Configured repositories: %s" ;;
     ret repos)
    (λ e,
       if isinstance e FileNotFoundError then
         Some (logger_error "Config file not found: %s" ;; ret [])
       else if isinstance e JSONDecodeError then
         Some (logger_error "Failed to parse config file. Ensure it is valid JSON." ;;
               ret [])
       else None).

(** [REPOSITORIES = load_config()] *)
Definition module_init : Py unit :=
  repos <- load_config ;;
  modify (set_REPOSITORIES repos).

(** [CREATE TABLE IF NOT EXISTS events (id TEXT PRIMARY KEY, ...)]: the
    stored rows are kept.  The key constraint of the schema is what
    [insert_or_ignore] checks. *)
Definition init_db : Py unit :=
  sqlite3_connect ;;
  storage_operation ;;
  conn_commit ;;
  conn_close.

Definition insert_event (event : pyval) (repo : string) : Py unit :=
  sqlite3_connect ;;
  try_finally
    (try_except
       (p_id <- lift (py_get event "id") ;;
        p_type <- lift (py_get event "type") ;;
        p_created <- lift (py_get event "created_at") ;;
        execute_insert_or_ignore p_id repo p_type p_created (json_dumps event) ;;
        conn_commit)
       (λ e,
          if isinstance e IntegrityError then
            Some (_ <- lift (py_get event "id") ;;
                  logger_error "Integrity error while inserting event %s: %s")
          else if isinstance e OperationalError then
            Some (logger_error
                    "Operational error: Possible database lock or missing table: %s")
          else if isinstance e DatabaseError then
            Some (logger_error "General database error: %s")
          else if isinstance e JSONDecodeError then
            Some (logger_error "Failed to serialize event JSON: %s")
          else None))
    conn_close.

(** The text the two queries compare [created_at] with. *)
Definition cutoff_text (now : datetime) : result string :=
  match datetime_add now (- timedelta_days MAX_DAYS) with
  | Ok d => Ok (isoformat d +:+ "Z")
  | Raise e => Raise e
  end.

Definition get_recent_events (repo : string) (event_type : sql_text)
  : Py (list datetime) :=
  sqlite3_connect ;;
  now <- datetime_now_utc ;;
  cutoff <- lift (cutoff_text now) ;;
  cursor <- execute_select (λ t, select_created_at t repo event_type cutoff) ;;
  rows <- fetchall cursor ;;
  conn_close ;;
  events <- lift (comprehension (λ s, fromisoformat (remove_Z s)) rows) ;;
  let events :=
    if (MAX_EVENTS <? length events)%nat
    then drop (length events - MAX_EVENTS) events
    else events in
  ret events.

Definition fetch_repo_events (repo : string) : Py unit :=
  try_except
    (response <- requests_get repo ;;
     if response.1 =? 200 then
       events <- lift (response_json response.2) ;;
       _ <- lift (py_len events) ;;
       logger_info "Fetched %d events for %s" ;;
       items <- lift (py_iter events) ;;
       for_each items (λ event, insert_event event repo)
     else
       logger_error "Failed to fetch events for %s: %s")
    (λ e,
       if isinstance e Timeout then
         Some (logger_error "Request timed out while fetching events for %s")
       else if isinstance e ConnectionError then
         Some (logger_error "Network error: Unable to connect to GitHub API for %s")
       else if isinstance e HTTPError then
         Some (logger_error "HTTP error fetching events for %s: %s")
       else if isinstance e RequestException then
         Some (logger_error "Request error fetching events for %s: %s")
       else if isinstance e ValueError then
         Some (logger_error "Failed to decode JSON response for %s")
       else None).

Definition poll_github_events : Py unit :=
  logger_info "Polling GitHub events..." ;;
  repos <- gets REPOSITORIES ;;
  for_each repos fetch_repo_events.

(** [total_diff / (len(event_times) - 1)]: the divisor, an [int], is
    converted to a float and the two floats are divided.  The loop
    comes here with at least two timestamps, so that the divisor is not
    zero. *)
Definition average (total_diff : float) (gaps : nat) : float :=
  float_truediv total_diff (float_of_int (Z.of_nat gaps)).

(** [if repo not in results: results[repo] = {}] followed by
    [results[repo][event_type] = avg_interval]. *)
Definition set_interval (results : stats) (repo : string) (event_type : sql_text)
    (avg_interval : float) : stats :=
  let results :=
    if bool_decide (results !! repo = None) then <[repo := ∅]> results else results in
  <[repo := <[event_type := avg_interval]> (results !!! repo)]> results.

(** One turn of the loop of [get_stats]. *)
Definition stats_step (results : stats) (pair : string * sql_text) : Py stats :=
  let '(repo, event_type) := pair in
  event_times <- get_recent_events repo event_type ;;
  if (length event_times <? 2)%nat then ret results
  else
    t_last <- lift (item_last event_times) ;;
    t_first <- lift (item_first event_times) ;;
    delta <- lift (datetime_sub t_last t_first) ;;
    let total_diff := total_seconds delta in
    let avg_interval := average total_diff (length event_times - 1) in
    ret (set_interval results repo event_type avg_interval).

Definition get_stats : Py stats :=
  sqlite3_connect ;;
  now <- datetime_now_utc ;;
  cutoff <- lift (cutoff_text now) ;;
  cursor <- execute_select (λ t, select_distinct_pairs t cutoff) ;;
  pairs <- fetchall cursor ;;
  conn_close ;;
  for_fold pairs ∅ stats_step.
End App.

(** ** Notions used to state the store properties *)

Section StoreNotions.
Context `{Library}.

(** The record [insert_event] hands to the store: the three fields
    it reads, bound as SQL parameters, and the serialised event. *)
Definition row_of (event : pyval) (repo : string) : result row :=
  p_id ← py_get event "id";
  p_type ← py_get event "type";
  p_created ← py_get event "created_at";
  i ← bind_text p_id;
  t ← bind_text p_type;
  c ← bind_text p_created;
  Ok (mk_row i repo t c (json_dumps event)).
End StoreNotions.

(** ** Notions used to state the window properties *)

Section WindowNotions.
Context `{Library}.

(** What [get_recent_events] computes from the table and the clock when
    the storage layer does not fail. *)
Definition window_of (t : list row) (now : datetime) (repo : string)
    (event_type : sql_text) : result (list datetime) :=
  cutoff ← cutoff_text now;
  events ← comprehension (λ s, fromisoformat (remove_Z s))
             (select_created_at t repo event_type cutoff);
  Ok (if (MAX_EVENTS <? length events)%nat
      then drop (length events - MAX_EVENTS) events
      else events).


(** The rows behind the window [get_recent_events] returns: the
    selection, cut to its last [MAX_EVENTS] rows. *)
Definition window_rows (t : list row) (now : datetime) (repo : string)
    (event_type : sql_text) : list row :=
  match cutoff_text now with
  | Ok cutoff =>
      let selected := select_window_rows t repo event_type cutoff in
      if (MAX_EVENTS <? length selected)%nat
      then drop (length selected - MAX_EVENTS) selected
      else selected
  | Raise _ => []
  end.

(** The instant a stored text denotes once its [Z] is removed: a naive
    result is a UTC time. *)
Definition assume_utc (t : datetime) : datetime :=
  match utcoffset t with
  | None => mk_datetime (year t) (month t) (day t) (hour t) (minute t) (second t)
                        (microsecond t) (Some 0)
  | Some _ => t
  end.

(** How long before [now] the stored text [s] lies, in microseconds. *)
Definition age_of (now : datetime) (s : string) : result Z :=
  t ← fromisoformat (remove_Z s);
  datetime_sub now (assume_utc t).
End WindowNotions.

(** ** Notions used to state the statistics properties *)

(** The storage script after [n] operations, or the exception the first
    failing one of them raises. *)
Fixpoint consume (n : nat) (fs : list (option exn)) : exn + list (option exn) :=
  match n, fs with
  | O, _ => inr fs
  | S _, [] => inr []
  | S n', None :: fs' => consume n' fs'
  | S _, Some e :: _ => inl e
  end.

(** The entry of a pair in the [/stats] payload. *)
Definition stats_lookup (results : stats) (repo : string) (event_type : sql_text)
  : option float :=
  results !! repo ≫= (λ per_type, per_type !! event_type).

(** What the loop of [get_stats] derives from one window: nothing when
    it has fewer than two timestamps, otherwise the span divided by the
    number of gaps. *)
Definition average_interval (window : list datetime) : result (option float) :=
  if (length window <? 2)%nat then Ok None
  else
    t_last ← item_last window;
    t_first ← item_first window;
    delta ← datetime_sub t_last t_first;
    Ok (Some (average (total_seconds delta) (length window - 1))).

(** The position of a naive datetime on the time line, in
    microseconds. *)
Definition instant (d : datetime) : Z := toordinal d * US_PER_DAY + time_of_day d.

(** The differences between consecutive members of a list. *)
Definition consecutive_deltas (l : list Z) : list Z :=
  zip_with (λ a b, b - a) l (tail l).

(** The mean of the individual consecutive differences, the computation
    the specification sets apart from the one of [get_stats]: every
    difference is turned into seconds by [total_seconds], the seconds
    are added from left to right, and the sum is divided by the number
    of differences. *)
Definition mean_of_deltas (window : list datetime) : float :=
  let deltas := consecutive_deltas (instant <$> window) in
  float_truediv (foldl float_add (float_of_int 0) (total_seconds <$> deltas))
                (float_of_int (Z.of_nat (length deltas))).

Section StatsNotions.
Context `{Library}.

(** Every stored timestamp is read by [fromisoformat], as a naive
    datetime, once its [Z] is removed. *)
Definition naive_timestamps (t : list row) : Prop :=
  ∀ r s, r ∈ t → created_at r = Some s →
         ∃ tm, fromisoformat (remove_Z s) = Ok tm ∧ utcoffset tm = None.

(** The same, as a test. *)
Definition naive_check (t : list row) : bool :=
  forallb (λ r, match created_at r with
                | Some s => match fromisoformat (remove_Z s) with
                            | Ok tm => bool_decide (utcoffset tm = None)
                            | Raise _ => false
                            end
                | None => true
                end) t.

(** The entry [/stats] owes to a pair. *)
Definition interval_of (t : list row) (now : datetime) (repo : string)
    (event_type : sql_text) : option float :=
  match window_of t now repo event_type with
  | Ok window => match average_interval window with Ok v => v | Raise _ => None end
  | Raise _ => None
  end.
End StatsNotions.

(** ** Notions used to state the polling properties *)

(** The failures of one fetch: [requests.get] raises a request
    exception (a timeout, a connection error, ...), the status is not
    200, or the body is not JSON. *)
Definition fetch_fails (response : feed_response) : Prop :=
  match response with
  | NetworkFailure e => isinstance e RequestException = true
  | HttpResponse status body => status ≠ 200 ∨ body = None
  end.

(** A successful fetch: status 200 and a JSON array of well-formed event
    objects, [rows] being the records they give. *)
Definition fetch_succeeds `{Library} (repo : string) (response : feed_response)
    (rows : list row) : Prop :=
  ∃ items, response = HttpResponse 200 (Some (PList items))
           ∧ Forall2 (λ event r, row_of event repo = Ok r) items rows.

(** The record is in the table, or the table already has a record with
    its id. *)
Definition stored (r : row) (t : list row) : Prop :=
  r ∈ t ∨ ∃ r', r' ∈ t ∧ sql_eq (id r') (id r) = true.

(** The timestamps of the feed: a UTC time to the second,
    [YYYY-MM-DDTHH:MM:SSZ]. *)
Definition feed_text (d : datetime) : string :=
  zfill 4 (year d) +:+ "-" +:+ zfill 2 (month d) +:+ "-" +:+ zfill 2 (day d) +:+ "T" +:+
  zfill 2 (hour d) +:+ ":" +:+ zfill 2 (minute d) +:+ ":" +:+ zfill 2 (second d) +:+ "Z".

(** Calendar fields in their ranges. *)
Definition valid_fields (d : datetime) : Prop :=
  1 ≤ year d ≤ 9999 ∧ 1 ≤ month d ≤ 12 ∧ 1 ≤ day d ≤ 31
  ∧ 0 ≤ hour d < 24 ∧ 0 ≤ minute d < 60 ∧ 0 ≤ second d < 60.

Definition lex (c1 c2 : comparison) : comparison :=
  match c1 with Eq => c2 | _ => c1 end.

(** Order of two datetimes by their calendar second. *)
Definition compare_second (a b : datetime) : comparison :=
  lex (year a ?= year b)
   (lex (month a ?= month b)
     (lex (day a ?= day b)
       (lex (hour a ?= hour b)
         (lex (minute a ?= minute b) (second a ?= second b))))).

(** The first nineteen characters of a timestamp, followed by [tail]. *)
Definition stamp (d : datetime) (tail : string) : string :=
  zfill 4 (year d) +:+ "-" +:+ zfill 2 (month d) +:+ "-" +:+ zfill 2 (day d) +:+ "T" +:+
  zfill 2 (hour d) +:+ ":" +:+ zfill 2 (minute d) +:+ ":" +:+ zfill 2 (second d) +:+ tail.

Definition two_digits (n : Z) : string :=
  String (digit_char (n / 10)) (String (digit_char (n mod 10)) EmptyString).

(** ** An implementation of the library interface

    It covers the timestamp texts of the feed and of the test-suite:
    [YYYY-MM-DDTHH:MM:SS], an optional fraction of up to six digits,
    and, for [fromisoformat], an optional [+HH:MM] offset; for
    [datetime(X)] an optional final [Z]. *)
Module Iso8601.

Definition digit (c : ascii) : option Z :=
  let n := Z.of_N (N_of_ascii c) in
  if (48 <=? n) && (n <=? 57) then Some (n - 48) else None.

(** Exactly [n] decimal digits. *)
Fixpoint digits (n : nat) (acc : Z) (s : list ascii) : option (Z * list ascii) :=
  match n with
  | O => Some (acc, s)
  | S n' =>
      match s with
      | c :: s' => d ← digit c; digits n' (acc * 10 + d) s'
      | [] => None
      end
  end.

Definition expect (c : ascii) (s : list ascii) : option (list ascii) :=
  match s with
  | c' :: s' => if bool_decide (c = c') then Some s' else None
  | [] => None
  end.

(** One to six digits of a fraction, scaled to microseconds. *)
Fixpoint fraction (fuel : nat) (scale acc : Z) (s : list ascii) : Z * list ascii :=
  match fuel, s with
  | S fuel', c :: s' =>
      match digit c with
      | Some d => fraction fuel' (scale / 10) (acc + d * scale) s'
      | None => (acc, s)
      end
  | _, _ => (acc, s)
  end.

(** [YYYY-MM-DDTHH:MM:SS[.ffffff]] and what follows it. *)
Definition date_time (s : list ascii) : option (datetime * list ascii) :=
  '(y, s) ← digits 4 0 s; s ← expect "-" s;
  '(mo, s) ← digits 2 0 s; s ← expect "-" s;
  '(d, s) ← digits 2 0 s; s ← expect "T" s;
  '(h, s) ← digits 2 0 s; s ← expect ":" s;
  '(mi, s) ← digits 2 0 s; s ← expect ":" s;
  '(se, s) ← digits 2 0 s;
  '(us, s) ← match s with
             | "."%char :: (c :: _) as s' =>
                 _ ← digit c; Some (fraction 6 100000 0 s')
             | _ => Some (0, s)
             end;
  if (1 <=? y) && (1 <=? mo) && (mo <=? 12) && (1 <=? d) && (h <? 24)
     && (mi <? 60) && (se <? 60)
  then Some (mk_datetime y mo d h mi se us None, s)
  else None.

Definition offset (s : list ascii) : option (option Z) :=
  match s with
  | [] => Some None
  | c :: s' =>
      sign ← (if bool_decide (c = "+"%char) then Some 1
              else if bool_decide (c = "-"%char) then Some (-1) else None);
      '(hh, s') ← digits 2 0 s'; s' ← expect ":" s';
      '(mm, s') ← digits 2 0 s';
      match s' with
      | [] => if (hh <? 24) && (mm <? 60)
              then Some (Some (sign * (hh * 3600 + mm * 60) * US_PER_SECOND))
              else None
      | _ => None
      end
  end.

Definition parse (s : string) : result datetime :=
  match date_time (list_ascii_of_string s) with
  | Some (dt, rest) =>
      match offset rest with
      | Some off =>
          if day dt <=? days_in_month (year dt) (month dt)
          then Ok (mk_datetime (year dt) (month dt) (day dt) (hour dt) (minute dt)
                               (second dt) (microsecond dt) off)
          else Raise ValueError
      | None => Raise ValueError
      end
  | None => Raise ValueError
  end.

Definition sql_datetime (s : string) : option string :=
  '(dt, rest) ← date_time (list_ascii_of_string s);
  if bool_decide (rest = []) || bool_decide (rest = ["Z"%char])
  then
    if day dt <=? 31
    then Some (zfill 4 (year dt) +:+ "-" +:+ zfill 2 (month dt) +:+ "-" +:+
               zfill 2 (day dt) +:+ " " +:+ zfill 2 (hour dt) +:+ ":" +:+
               zfill 2 (minute dt) +:+ ":" +:+ zfill 2 (second dt))
    else None
  else None.

(** Serialisation of the scalar members of an object. *)
Definition dump_scalar (v : pyval) : string :=
  match v with
  | PNone => "null"
  | PBool b => if b then "true" else "false"
  | PInt z => decimal z
  | PStr s => String.concat "" [String.String (ascii_of_nat 34) ""; s;
                                String.String (ascii_of_nat 34) ""]
  | PList _ => "[...]"
  | PDict _ => "{...}"
  end.

Definition dumps (v : pyval) : string :=
  match v with
  | PDict d =>
      "{" +:+ String.concat ", "
                ((λ kv, dump_scalar (PStr kv.1) +:+ ": " +:+ dump_scalar kv.2)
                   <$> map_to_list d) +:+ "}"
  | _ => dump_scalar v
  end.

#[global] Instance library : Library :=
  {| sqlite_datetime := sql_datetime; fromisoformat := parse; json_dumps := dumps |}.

End Iso8601.

(** ** Worked examples *)

Module Examples.
Import Iso8601.

Definition feed_event (i ty created : string) : pyval :=
  PDict {[ "id" := PStr i; "type" := PStr ty; "created_at" := PStr created ]}.

(** A fresh process: empty table, healthy storage, nothing configured,
    every fetch timing out. *)
Definition fresh (now : datetime) : world :=
  {| config_file := ConfigMissing; REPOSITORIES := []; events := [];
     uncommitted := None; storage_faults := []; utcnow := now;
     github := λ _, NetworkFailure Timeout; log := [] |}.

Definition noon : datetime := mk_datetime 2026 11 3 12 0 0 500000 (Some 0).

(** State after running [m]. *)
Definition exec {A} (m : Py A) (w : world) : world := (m w).2.
Definition eval {A} (m : Py A) (w : world) : result A := (m w).1.

Definition five_pushes : list pyval :=
  [ feed_event "1" "PushEvent" "2026-11-03T11:00:00Z";
    feed_event "2" "PushEvent" "2026-11-03T11:05:00Z";
    feed_event "3" "PushEvent" "2026-11-03T11:10:00Z";
    feed_event "4" "PushEvent" "2026-11-03T11:15:00Z";
    feed_event "5" "PushEvent" "2026-11-03T11:20:00Z" ].

(** The same id offered twice, with different payloads. *)
Definition push_1 : pyval := feed_event "1" "PushEvent" "2026-11-03T11:00:00Z".
Definition fork_1 : pyval := feed_event "1" "ForkEvent" "2026-11-03T11:30:00Z".

Definition push_1_row : row :=
  mk_row (Some "1") "o/r" (Some "PushEvent") (Some "2026-11-03T11:00:00Z")
         (dumps push_1).
Definition fork_1_row : row :=
  mk_row (Some "1") "o/r" (Some "ForkEvent") (Some "2026-11-03T11:30:00Z")
         (dumps fork_1).

Definition after_push_1 : world := exec (insert_event push_1 "o/r") (fresh noon).

(** An event object without an ["id"] member. *)
Definition anonymous : gmap string pyval :=
  {[ "type" := PStr "PushEvent"; "created_at" := PStr "2026-11-03T11:00:00Z" ]}.
Definition anonymous_row : row :=
  mk_row None "o/r" (Some "PushEvent") (Some "2026-11-03T11:00:00Z")
         (dumps (PDict anonymous)).

(** Configuration files with eight and with two repositories. *)
Definition eight_repos : list string :=
  ["o/r1"; "o/r2"; "o/r3"; "o/r4"; "o/r5"; "o/r6"; "o/r7"; "o/r8"].
Definition with_config (repos : list string) : world :=
  {| config_file := ConfigObject {[ "repositories" := repos ]};
     REPOSITORIES := []; events := []; uncommitted := None; storage_faults := [];
     utcnow := noon; github := λ _, NetworkFailure Timeout; log := [] |}.

Definition after_five : world :=
  exec (for_each five_pushes (λ e, insert_event e "o/r")) (fresh noon).

(** A table given as it is, at a given time. *)
Definition with_events (t : list row) (now : datetime) : world :=
  {| config_file := ConfigMissing; REPOSITORIES := []; events := t;
     uncommitted := None; storage_faults := []; utcnow := now;
     github := λ _, NetworkFailure Timeout; log := [] |}.

(** A push exactly seven days and half a second before [noon], and one
    a second earlier. *)
Definition stale_push : row :=
  mk_row (Some "9") "o/r" (Some "PushEvent") (Some "2026-10-27T12:00:00Z") "{}".
Definition staler_push : row :=
  mk_row (Some "8") "o/r" (Some "PushEvent") (Some "2026-10-27T11:59:59Z") "{}".
Definition stale_world : world := with_events [staler_push; stale_push] noon.

(** The timestamps of [five_pushes]. *)
Definition five_times : list datetime :=
  [ mk_datetime 2026 11 3 11 0 0 0 None; mk_datetime 2026 11 3 11 5 0 0 None;
    mk_datetime 2026 11 3 11 10 0 0 None; mk_datetime 2026 11 3 11 15 0 0 None;
    mk_datetime 2026 11 3 11 20 0 0 None ].

(** The cutoff text at [noon]. *)
Definition noon_cutoff : string := "2026-10-27T12:00:00.500000+00:00Z".

(** Four pushes 1.1 seconds apart, stored in the order of their
    times, and their timestamps. *)
Definition paced_pushes : list pyval :=
  [ feed_event "1" "PushEvent" "2026-11-03T11:00:00Z";
    feed_event "2" "PushEvent" "2026-11-03T11:00:01.100000Z";
    feed_event "3" "PushEvent" "2026-11-03T11:00:02.200000Z";
    feed_event "4" "PushEvent" "2026-11-03T11:00:03.300000Z" ].
Definition paced_world : world :=
  exec (for_each paced_pushes (λ e, insert_event e "o/r")) (fresh noon).
Definition paced_times : list datetime :=
  [ mk_datetime 2026 11 3 11 0 0 0 None; mk_datetime 2026 11 3 11 0 1 100000 None;
    mk_datetime 2026 11 3 11 0 2 200000 None; mk_datetime 2026 11 3 11 0 3 300000 None ].

(** The store of [after_five] failing at its fifth operation, the
    SELECT of the first window. *)
Definition failing_store : world :=
  set_storage_faults [None; None; None; None; Some OperationalError] after_five.

(** A feed that answers 200 with a JSON object instead of an array. *)
Definition object_world : world :=
  {| config_file := ConfigMissing; REPOSITORIES := ["a/object"; "b/ok"];
     events := []; uncommitted := None; storage_faults := []; utcnow := noon;
     github := λ repo0,
       if bool_decide (repo0 = "a/object")
       then HttpResponse 200 (Some (PDict {[ "message" := PStr "hello" ]}))
       else HttpResponse 200 (Some (PList five_pushes));
     log := [] |}.

(** Four repositories: a timeout, a successful fetch, a 404, a page of
    HTML. *)
Definition expected_row (repo0 i ty created : string) : row :=
  mk_row (Some i) repo0 (Some ty) (Some created) (dumps (feed_event i ty created)).
Definition five_rows : list row :=
  [ expected_row "b/ok" "1" "PushEvent" "2026-11-03T11:00:00Z";
    expected_row "b/ok" "2" "PushEvent" "2026-11-03T11:05:00Z";
    expected_row "b/ok" "3" "PushEvent" "2026-11-03T11:10:00Z";
    expected_row "b/ok" "4" "PushEvent" "2026-11-03T11:15:00Z";
    expected_row "b/ok" "5" "PushEvent" "2026-11-03T11:20:00Z" ].
Definition remote (repo0 : string) : feed_response :=
  if bool_decide (repo0 = "a/timeout") then NetworkFailure Timeout
  else if bool_decide (repo0 = "b/ok") then HttpResponse 200 (Some (PList five_pushes))
  else if bool_decide (repo0 = "c/gone") then
    HttpResponse 404 (Some (PDict {[ "message" := PStr "Not Found" ]}))
  else HttpResponse 200 None.
Definition poll_world : world :=
  {| config_file := ConfigMissing;
     REPOSITORIES := ["a/timeout"; "b/ok"; "c/gone"; "d/html"];
     events := []; uncommitted := None; storage_faults := []; utcnow := noon;
     github := remote; log := [] |}.

(** 501 pushes within one second: the latest of them stored first, then
    500 that are eight tenths of a second older. *)
Definition late_push : row :=
  mk_row (Some "0") "o/r" (Some "PushEvent") (Some "2026-11-03T11:00:00.900000Z") "{}".
Definition early_push (i : nat) : row :=
  mk_row (Some (decimal (Z.of_nat i))) "o/r" (Some "PushEvent")
         (Some "2026-11-03T11:00:00.100000Z") "{}".
Definition same_second_world : world :=
  with_events (late_push :: (early_push <$> seq 1 500)) noon.

(** 501 pushes, one per minute, the latest of them stored first. *)
Definition minute_of_day (i : nat) : datetime :=
  mk_datetime 2026 11 3 (Z.of_nat i / 60) (Z.of_nat i mod 60) 0 0 None.
Definition burst : list row :=
  (λ i, mk_row (Some (decimal (Z.of_nat i))) "o/r" (Some "PushEvent")
               (Some (feed_text (minute_of_day i))) "{}")
    <$> 500%nat :: seq 0 500.
Definition burst_world : world := with_events burst noon.
End Examples.
Import Examples.

(** ** Notions used to state the invariants of the store and of the reads *)

(** The table [t'] is the table [t] after some run of
    [INSERT OR IGNORE] statements. *)
Definition inserted_into (t t' : list row) : Prop :=
  ∃ rows, t' = foldl (λ t r, insert_or_ignore r t) t rows.

(** What a step that only reads leaves as it is: the table, the clock,
    the configuration, the feeds and the log. *)
Definition unchanged (w w' : world) : Prop :=
  events w' = events w ∧ utcnow w' = utcnow w ∧ config_file w' = config_file w
  ∧ REPOSITORIES w' = REPOSITORIES w ∧ github w' = github w ∧ log w' = log w.

Definition reads {A} (m : Py A) : Prop := ∀ w, unchanged w (m w).2.

(** The time fields of a datetime in their ranges. *)
Definition valid_time (d : datetime) : Prop :=
  0 ≤ hour d < 24 ∧ 0 ≤ minute d < 60 ∧ 0 ≤ second d < 60
  ∧ 0 ≤ microsecond d < US_PER_SECOND.

Section OrderNotions.
Context `{Library}.

(** The order of [datetime(created_at)] agrees with the order of the
    parsed timestamps, on the rows of a table. *)
Definition time_ordered (t : list row) : Prop :=
  ∀ r1 r2 s1 s2 t1 t2,
    r1 ∈ t → r2 ∈ t →
    created_at r1 = Some s1 → created_at r2 = Some s2 →
    fromisoformat (remove_Z s1) = Ok t1 → fromisoformat (remove_Z s2) = Ok t2 →
    order_le r1 r2 → instant t1 ≤ instant t2.

(** The same, as a test. *)
Definition time_ordered_check (t : list row) : bool :=
  forallb (λ r1,
    forallb (λ r2,
      match created_at r1, created_at r2 with
      | Some s1, Some s2 =>
          match fromisoformat (remove_Z s1), fromisoformat (remove_Z s2) with
          | Ok t1, Ok t2 =>
              implb (bool_decide (order_le r1 r2)) (instant t1 <=? instant t2)
          | _, _ => true
          end
      | _, _ => true
      end) t) t.
End OrderNotions.

(** ** Further worked examples *)

Module Scenarios.
Import Iso8601.

Definition push_2 : pyval := feed_event "2" "PushEvent" "2026-11-03T11:05:00Z".
Definition push_2_row : row :=
  mk_row (Some "2") "o/r" (Some "PushEvent") (Some "2026-11-03T11:05:00Z")
         (dumps push_2).

(** The store of [after_push_1] with a [commit] that fails. *)
Definition locked_store : world :=
  set_storage_faults [None; None; Some OperationalError] after_push_1.

(** A configuration file that is not UTF-8 text. *)
Definition latin1_config : world :=
  {| config_file := ConfigUnreadable UnicodeDecodeError; REPOSITORIES := [];
     events := []; uncommitted := None; storage_faults := []; utcnow := noon;
     github := λ _, NetworkFailure Timeout; log := [] |}.

(** A feed whose second element is not an event object. *)
Definition mixed_batch : list pyval := [push_1; PStr "oops"; push_2].
Definition batch_world : world :=
  {| config_file := ConfigMissing; REPOSITORIES := ["o/r"; "b/ok"];
     events := []; uncommitted := None; storage_faults := []; utcnow := noon;
     github := λ repo0,
       if bool_decide (repo0 = "o/r") then HttpResponse 200 (Some (PList mixed_batch))
       else HttpResponse 200 (Some (PList five_pushes));
     log := [] |}.

(** A feed that answers 200 with the JSON value [null]. *)
Definition null_world : world :=
  {| config_file := ConfigMissing; REPOSITORIES := ["o/r"];
     events := []; uncommitted := None; storage_faults := []; utcnow := noon;
     github := λ _, HttpResponse 200 (Some PNone); log := [] |}.

(** The feeds of [poll_world] over a store that cannot be opened. *)
Definition unreachable_store : world :=
  {| config_file := ConfigMissing; REPOSITORIES := ["b/ok"; "a/timeout"];
     events := []; uncommitted := None; storage_faults := [Some OperationalError];
     utcnow := noon; github := remote; log := [] |}.

(** Every configured repository failing: a timeout, a 404, a page of
    HTML. *)
Definition outage_world : world :=
  {| config_file := ConfigMissing; REPOSITORIES := ["a/timeout"; "c/gone"; "d/html"];
     events := five_rows; uncommitted := None; storage_faults := []; utcnow := noon;
     github := remote; log := [] |}.

(** Two events without a ["type"] member. *)
Definition typeless (i created : string) : pyval :=
  PDict {[ "id" := PStr i; "created_at" := PStr created ]}.
Definition typeless_world : world :=
  exec (for_each [typeless "1" "2026-11-03T11:00:00Z"; typeless "2" "2026-11-03T11:05:00Z"]
                 (λ e, insert_event e "o/r"))
       (fresh noon).

(** A stored record whose [created_at] is not a timestamp, beside the
    five pushes. *)
Definition garbled_row : row :=
  mk_row (Some "6") "o/x" (Some "ForkEvent") (Some "yesterday") "{}".
Definition garbled_world : world := with_events (five_rows ++ [garbled_row]) noon.

(** A timestamp with a UTC offset beside one in the format of the
    feed. *)
Definition zulu_row : row :=
  mk_row (Some "1") "o/r" (Some "PushEvent") (Some "2026-11-03T11:00:00Z") "{}".
Definition offset_row : row :=
  mk_row (Some "2") "o/r" (Some "PushEvent") (Some "2026-11-03T11:05:00+00:00Z") "{}".
Definition offset_world : world := with_events [zulu_row; offset_row] noon.

(** Two pushes of one second, the later one stored first. *)
Definition swapped_world : world :=
  with_events [late_push; early_push 1] noon.

(** The calendar second of the cutoff at [noon], and a push within
    it. *)
Definition cutoff_second : datetime := mk_datetime 2026 10 27 12 0 0 0 None.
Definition cutoff_datetime : datetime := mk_datetime 2026 10 27 12 0 0 500000 (Some 0).
End Scenarios.
Import Scenarios.

(** * Properties *)

(** ** Running the primitives *)

Lemma storage_operation_healthy w :
  storage_faults w = [] → storage_operation w = (Ok tt, w).
Proof. unfold storage_operation. by intros ->. Qed.

Lemma committed_storage_faults t w :
  storage_faults (committed t w) = storage_faults w.
Proof. done. Qed.

Lemma committed_events t w : events (committed t w) = t.
Proof. done. Qed.

Lemma filter_none {A} (P : A → Prop) `{∀ x, Decision (P x)} (l : list A) :
  (∀ x, x ∈ l → ¬ P x) → filter P l = [].
Proof.
  induction l as [|x l IH]; intros Hno; [done|].
  rewrite filter_cons_False; [|apply Hno, elem_of_cons; by left].
  apply IH. intros y Hy. apply Hno, elem_of_cons. by right.
Qed.

Lemma isinstance_refl e : isinstance e e = true.
Proof. unfold isinstance. by rewrite bool_decide_eq_true_2. Qed.

(** ** Event Store: [insert_event] *)

Section InsertEvent.
Context `{Library}.

Lemma row_of_inv event repo r :
  row_of event repo = Ok r →
  ∃ d i t c,
    event = PDict d
    ∧ bind_text (default PNone (d !! "id")) = Ok i
    ∧ bind_text (default PNone (d !! "type")) = Ok t
    ∧ bind_text (default PNone (d !! "created_at")) = Ok c
    ∧ r = mk_row i repo t c (json_dumps event).
Proof.
  unfold row_of. destruct event; try discriminate. simpl.
  destruct (bind_text (default PNone (d !! "id"))) as [i|] eqn:Hi; [|discriminate].
  destruct (bind_text (default PNone (d !! "type"))) as [t|] eqn:Ht; [|discriminate].
  destruct (bind_text (default PNone (d !! "created_at"))) as [c|] eqn:Hc;
    [|discriminate].
  simpl. intros [= <-]. by exists d, i, t, c.
Qed.

(** On a healthy store a well-formed event is written with
    [INSERT OR IGNORE] and the call returns normally. *)
Lemma insert_event_healthy w event repo r :
  storage_faults w = [] →
  row_of event repo = Ok r →
  insert_event event repo w
  = (Ok tt, committed (insert_or_ignore r (events w)) w).
Proof.
  intros Hf (d & i & t & c & -> & Hi & Ht & Hc & ->)%row_of_inv.
  unfold insert_event, sqlite3_connect, try_finally, try_except, bind.
  rewrite (storage_operation_healthy w Hf).
  unfold execute_insert_or_ignore, conn_commit, bind, lift. simpl.
  rewrite Hi, Ht, Hc. rewrite (storage_operation_healthy w Hf).
  unfold modify, storage_operation. simpl. rewrite Hf. simpl.
  by destruct w.
Qed.

Lemma sql_eq_true a b : sql_eq a b = true ↔ ∃ k, a = Some k ∧ b = Some k.
Proof.
  destruct a as [x|], b as [y|]; simpl; try (split; [done | by intros (? & ? & ?)]).
  rewrite bool_decide_eq_true. split; [intros ->; eauto | by intros (? & [= ->] & [= ->])].
Qed.

Lemma insert_or_ignore_conflict r t :
  (∃ r', r' ∈ t ∧ sql_eq (id r') (id r) = true) → insert_or_ignore r t = t.
Proof.
  intros (r' & Hin & Heq). unfold insert_or_ignore.
  destruct (existsb _ t) eqn:Hex; [done|].
  assert (existsb (λ r', sql_eq (id r') (id r)) t = true) as Ht; [|congruence].
  apply existsb_exists. exists r'. by rewrite <- list_elem_of_In.
Qed.

Lemma insert_or_ignore_fresh r t :
  (∀ r', r' ∈ t → sql_eq (id r') (id r) = false) → insert_or_ignore r t = t ++ [r].
Proof.
  intros Hno. unfold insert_or_ignore.
  destruct (existsb _ t) eqn:Hex; [|done].
  apply existsb_exists in Hex as (r' & Hin%list_elem_of_In & Heq).
  rewrite (Hno r' Hin) in Heq. discriminate.
Qed.

Lemma insert_or_ignore_null r t : id r = None → insert_or_ignore r t = t ++ [r].
Proof.
  intros Hr. apply insert_or_ignore_fresh. intros r' _. rewrite Hr.
  by destruct (id r').
Qed.

Lemma insert_or_ignore_cases r t :
  (insert_or_ignore r t = t ∧ ∃ r', r' ∈ t ∧ sql_eq (id r') (id r) = true)
  ∨ (insert_or_ignore r t = t ++ [r] ∧ ∀ r', r' ∈ t → sql_eq (id r') (id r) = false).
Proof.
  unfold insert_or_ignore. destruct (existsb _ t) eqn:Hex.
  - left. split; [done|].
    apply existsb_exists in Hex as (r' & Hin%list_elem_of_In & Heq). eauto.
  - right. split; [done|]. intros r' Hin.
    destruct (sql_eq (id r') (id r)) eqn:Heq; [|done].
    assert (existsb (λ r', sql_eq (id r') (id r)) t = true) as Ht; [|congruence].
    apply existsb_exists. exists r'. by rewrite <- list_elem_of_In.
Qed.

(** The key constraint is an invariant of the table. *)
Lemma insert_or_ignore_unique r t :
  unique_ids t → unique_ids (insert_or_ignore r t).
Proof.
  intros Hu. destruct (insert_or_ignore_cases r t) as [[-> _]|[-> Hno]]; [done|].
  unfold unique_ids in *. rewrite omap_app. simpl.
  destruct (id r) as [k|] eqn:Hk; simpl; [|by rewrite app_nil_r].
  apply NoDup_app. split_and!; [done| |apply NoDup_singleton].
  intros k' Hin ->%list_elem_of_singleton.
  apply list_elem_of_omap in Hin as (r' & Hr' & Hid).
  specialize (Hno r' Hr'). rewrite Hid in Hno. simpl in Hno.
  by rewrite bool_decide_eq_true_2 in Hno.
Qed.

Lemma unique_ids_filter t r k :
  unique_ids t → r ∈ t → id r = Some k → filter (λ x, id x = Some k) t = [r].
Proof.
  unfold unique_ids. induction t as [|x t IH]; intros Hu Hin Hk; [by inversion Hin|].
  rewrite filter_cons. simpl in Hu.
  destruct (decide (id x = Some k)) as [Hx|Hx].
  - rewrite Hx in Hu. simpl in Hu. apply NoDup_cons in Hu as [Hnk Hu].
    assert (filter (λ x, id x = Some k) t = []) as ->.
    { apply filter_none. intros y Hy Hyk. apply Hnk.
      apply list_elem_of_omap. eauto. }
    apply elem_of_cons in Hin as [->|Hin]; [done|].
    exfalso. apply Hnk, list_elem_of_omap. eauto.
  - apply elem_of_cons in Hin as [->|Hin]; [done|].
    apply IH; [|done..]. destruct (id x); simpl in Hu; [by apply NoDup_cons in Hu as [_ ?]|done].
Qed.

(** What a run of inserts maintains: [t] is the table, [seen] the rows
    offered so far (the initial table first). *)
Definition first_wins (t seen : list row) : Prop :=
  unique_ids t
  ∧ (∀ x k, x ∈ seen → id x = Some k → ∃ y, y ∈ t ∧ id y = Some k)
  ∧ (∀ r k, r ∈ t → id r = Some k → first_with_id k seen = Some r).

Lemma first_wins_init t : unique_ids t → first_wins t t.
Proof.
  intros Hu. split_and!; [done|eauto|].
  intros r k Hin Hk. unfold first_with_id. by rewrite (unique_ids_filter t r k).
Qed.

Lemma first_wins_step t seen r :
  first_wins t seen → first_wins (insert_or_ignore r t) (seen ++ [r]).
Proof.
  intros (Hu & Hcov & Hfirst). split_and!.
  - by apply insert_or_ignore_unique.
  - intros x k [Hx| ->%list_elem_of_singleton]%elem_of_app Hk.
    + destruct (Hcov x k Hx Hk) as (y & Hy & Hyk). exists y. split; [|done].
      destruct (insert_or_ignore_cases r t) as [[-> _]|[-> _]]; [done|].
      apply elem_of_app. by left.
    + destruct (insert_or_ignore_cases r t) as [[-> (r' & Hr' & Heq)]|[-> _]].
      * apply sql_eq_true in Heq as (k' & Hk1 & Hk2). exists r'. split; [done|congruence].
      * exists r. split; [|done]. apply elem_of_app. right. by apply list_elem_of_singleton.
  - intros x k Hx Hk. unfold first_with_id. rewrite filter_app.
    destruct (insert_or_ignore_cases r t) as [[Heq _]|[Heq Hno]]; rewrite Heq in Hx.
    + specialize (Hfirst x k Hx Hk). unfold first_with_id in Hfirst.
      destruct (filter _ seen); [done|]. done.
    + apply elem_of_app in Hx as [Hx| ->%list_elem_of_singleton].
      * specialize (Hfirst x k Hx Hk). unfold first_with_id in Hfirst.
        destruct (filter _ seen); [done|]. done.
      * assert (filter (λ r, id r = Some k) seen = []) as ->.
        { apply filter_none. intros y Hy Hyk.
          destruct (Hcov y k Hy Hyk) as (z & Hz & Hzk).
          specialize (Hno z Hz). rewrite Hzk, Hk in Hno. simpl in Hno.
          by rewrite bool_decide_eq_true_2 in Hno. }
        simpl. rewrite filter_cons. by rewrite decide_True.
Qed.

(** A run of inserts of well-formed events on a healthy store. *)
Lemma insert_events_healthy inserts rows w :
  storage_faults w = [] →
  Forall2 (λ p r, row_of p.1 p.2 = Ok r) inserts rows →
  ∃ w', for_each inserts (λ p, insert_event p.1 p.2) w = (Ok tt, w')
        ∧ storage_faults w' = []
        ∧ events w' = foldl (λ t r, insert_or_ignore r t) (events w) rows.
Proof.
  intros Hf Hall. revert w Hf. induction Hall as [|p r inserts rows Hr _ IH]; intros w Hf.
  - by exists w.
  - simpl. unfold bind. rewrite (insert_event_healthy w _ _ r Hf Hr).
    destruct (IH (committed (insert_or_ignore r (events w)) w)) as (w' & Hrun & Hf' & Hev);
      [done|].
    exists w'. by rewrite Hrun.
Qed.

Lemma first_wins_foldl rows t seen :
  first_wins t seen →
  first_wins (foldl (λ t r, insert_or_ignore r t) t rows) (seen ++ rows).
Proof.
  revert t seen. induction rows as [|r rows IH]; intros t seen Hinv; simpl.
  - by rewrite app_nil_r.
  - rewrite (cons_middle r seen rows), app_assoc. by apply IH, first_wins_step.
Qed.
End InsertEvent.

Section EventStoreClaims.
Context `{Library}.

(** C2 — Idempotent insert.  On a working store, inserting an event
    whose id equals the id of a stored record leaves the table as it
    is and returns without raising.  Consequently, after any run of
    inserts the table holds at most one record per id, and the record
    of an id is the first one that was offered for it (a record
    already in the table counting as offered first). *)
Theorem insert_event_idempotent :
  (∀ w event repo r,
      storage_faults w = [] →
      row_of event repo = Ok r →
      (∃ r', r' ∈ events w ∧ sql_eq (id r') (id r) = true) →
      ∃ w', insert_event event repo w = (Ok tt, w') ∧ events w' = events w)
  ∧ (∀ w inserts rows,
      storage_faults w = [] →
      unique_ids (events w) →
      Forall2 (λ p r, row_of p.1 p.2 = Ok r) inserts rows →
      ∃ w', for_each inserts (λ p, insert_event p.1 p.2) w = (Ok tt, w')
            ∧ unique_ids (events w')
            ∧ ∀ r k, r ∈ events w' → id r = Some k →
                     first_with_id k (events w ++ rows) = Some r).
Proof.
  split.
  - intros w event repo r Hf Hr Hdup.
    exists (committed (events w) w). split; [|done].
    rewrite (insert_event_healthy w event repo r Hf Hr).
    by rewrite (insert_or_ignore_conflict r (events w) Hdup).
  - intros w inserts rows Hf Hu Hall.
    destruct (insert_events_healthy inserts rows w Hf Hall) as (w' & Hrun & _ & Hev).
    exists w'. split; [done|].
    destruct (first_wins_foldl rows (events w) (events w) (first_wins_init _ Hu))
      as (Hu' & _ & Hfirst).
    rewrite Hev. split; [done|]. intros r k. apply Hfirst.
Qed.

(** C10 — An event object without an ["id"] member is stored with a
    NULL id, and NULL keys never conflict: every such insert appends a
    record, so offering the same event twice leaves two copies of it.
    Deduplication needs the id to be present. *)
Theorem insert_event_missing_id w (d : gmap string pyval) repo r :
  d !! "id" = None →
  row_of (PDict d) repo = Ok r →
  storage_faults w = [] →
  id r = None
  ∧ ∃ w1, insert_event (PDict d) repo w = (Ok tt, w1)
          ∧ events w1 = events w ++ [r]
          ∧ ∃ w2, insert_event (PDict d) repo w1 = (Ok tt, w2)
                  ∧ events w2 = events w ++ [r; r].
Proof.
  intros Hid Hr Hf.
  assert (id r = None) as Hnull.
  { apply row_of_inv in Hr as (d' & i & t & c & [= <-] & Hi & _ & _ & ->).
    rewrite Hid in Hi. simpl in Hi. by injection Hi as <-. }
  split; [done|].
  exists (committed (insert_or_ignore r (events w)) w).
  rewrite (insert_event_healthy w _ repo r Hf Hr).
  rewrite (insert_or_ignore_null r (events w) Hnull).
  split_and!; [done..|].
  eexists. rewrite (insert_event_healthy _ _ repo r); [|done..].
  split; [done|]. rewrite committed_events.
  rewrite (insert_or_ignore_null r _ Hnull), committed_events.
  by rewrite <- app_assoc.
Qed.

(** C8 — Repository cap.  A configured list of more than [MAX_REPOS]
    repositories is cut to its first [MAX_REPOS] entries, in their
    order; a list of at most [MAX_REPOS] entries is returned as it
    is. *)
Theorem load_config_repository_cap w members repos :
  config_file w = ConfigObject members →
  members !! "repositories" = Some repos →
  ((MAX_REPOS < length repos)%nat →
     ∃ w', load_config w = (Ok (take MAX_REPOS repos), w')
           ∧ length (take MAX_REPOS repos) = MAX_REPOS
           ∧ take MAX_REPOS repos `prefix_of` repos)
  ∧ ((length repos ≤ MAX_REPOS)%nat →
     ∃ w', load_config w = (Ok repos, w')).
Proof.
  intros Hc Hm.
  assert (load_config w
          = (Ok (if (MAX_REPOS <? length repos)%nat then take MAX_REPOS repos else repos),
             add_log (INFO "Configured repositories: %s") w)) as Hrun.
  { unfold load_config, try_except, bind, open_and_load. by rewrite Hc, Hm. }
  rewrite Hrun. split; intros Hlen.
  - apply Nat.ltb_lt in Hlen as Hlt. rewrite Hlt.
    eexists. split_and!; [done| |apply prefix_take].
    rewrite length_take. lia.
  - apply Nat.ltb_ge in Hlen as Hge. rewrite Hge. by eexists.
Qed.
End EventStoreClaims.

Lemma insert_event_idempotent_witness :
  (∃ w', insert_event fork_1 "o/r" after_push_1 = (Ok tt, w')
         ∧ events w' = events after_push_1)
  ∧ (∃ w', for_each [(push_1, "o/r"); (fork_1, "o/r")]
                    (λ p, insert_event p.1 p.2) (fresh noon) = (Ok tt, w')
           ∧ unique_ids (events w')
           ∧ ∀ r k, r ∈ events w' → id r = Some k →
                    first_with_id k (events (fresh noon) ++ [push_1_row; fork_1_row])
                    = Some r).
Proof.
  destruct insert_event_idempotent as [Hone Hrun]. split.
  - apply (Hone after_push_1 fork_1 "o/r" fork_1_row).
    + reflexivity.
    + vm_compute. reflexivity.
    + exists push_1_row. split; [|reflexivity].
      apply list_elem_of_In. vm_compute. left. reflexivity.
  - apply (Hrun (fresh noon) [(push_1, "o/r"); (fork_1, "o/r")] [push_1_row; fork_1_row]).
    + reflexivity.
    + apply NoDup_nil_2.
    + repeat constructor.
Defined.

Lemma insert_event_missing_id_witness :
  id anonymous_row = None
  ∧ ∃ w1, insert_event (PDict anonymous) "o/r" (fresh noon) = (Ok tt, w1)
          ∧ events w1 = events (fresh noon) ++ [anonymous_row]
          ∧ ∃ w2, insert_event (PDict anonymous) "o/r" w1 = (Ok tt, w2)
                  ∧ events w2 = events (fresh noon) ++ [anonymous_row; anonymous_row].
Proof.
  apply (insert_event_missing_id (fresh noon) anonymous "o/r" anonymous_row).
  - vm_compute. reflexivity.
  - vm_compute. reflexivity.
  - reflexivity.
Defined.

Lemma load_config_repository_cap_witness :
  (∃ w', load_config (with_config eight_repos)
         = (Ok ["o/r1"; "o/r2"; "o/r3"; "o/r4"; "o/r5"], w'))
  ∧ (∃ w', load_config (with_config ["o/r1"; "o/r2"])
           = (Ok ["o/r1"; "o/r2"], w')).
Proof.
  split.
  - destruct (load_config_repository_cap (with_config eight_repos)
                {[ "repositories" := eight_repos ]} eight_repos) as [Hcut _].
    + reflexivity.
    + vm_compute. reflexivity.
    + destruct Hcut as (w' & Hrun & _); [vm_compute; lia|]. by exists w'.
  - destruct (load_config_repository_cap (with_config ["o/r1"; "o/r2"])
                {[ "repositories" := ["o/r1"; "o/r2"] ]} ["o/r1"; "o/r2"]) as [_ Hkeep].
    + reflexivity.
    + vm_compute. reflexivity.
    + apply Hkeep. vm_compute. lia.
Defined.

(** ** Text order *)

Lemma ascii_compare_lt_trans a b c :
  Ascii.compare a b = Lt → Ascii.compare b c = Lt → Ascii.compare a c = Lt.
Proof.
  unfold Ascii.compare. rewrite !N.compare_lt_iff. lia.
Qed.

Lemma string_compare_lt_trans a b c :
  String.compare a b = Lt → String.compare b c = Lt → String.compare a c = Lt.
Proof.
  revert b c. induction a as [|x a IH]; intros [|y b] [|z c]; simpl; try done.
  destruct (Ascii.compare x y) eqn:Hxy; try done;
    destruct (Ascii.compare y z) eqn:Hyz; try done.
  - apply Ascii.compare_eq_iff in Hxy as ->. rewrite Hyz. apply IH.
  - apply Ascii.compare_eq_iff in Hxy as ->. by rewrite Hyz.
  - apply Ascii.compare_eq_iff in Hyz as <-. by rewrite Hxy.
  - by rewrite (ascii_compare_lt_trans x y z).
Qed.

Lemma text_le_trans a b c : text_le a b = true → text_le b c = true → text_le a c = true.
Proof.
  unfold text_le. intros Hab Hbc.
  destruct (String.compare a b) eqn:H1; try done.
  - by apply String.compare_eq_iff in H1 as ->.
  - destruct (String.compare b c) eqn:H2; try done.
    + apply String.compare_eq_iff in H2 as <-. by rewrite H1.
    + by rewrite (string_compare_lt_trans a b c).
Qed.

Lemma text_le_total a b : text_le a b = true ∨ text_le b a = true.
Proof.
  unfold text_le. rewrite (String.compare_antisym a b).
  destruct (String.compare b a); simpl; auto.
Qed.

Lemma ascii_compare_refl c : Ascii.compare c c = Eq.
Proof. unfold Ascii.compare. apply N.compare_refl. Qed.

Lemma string_compare_refl s : String.compare s s = Eq.
Proof. induction s as [|c s IH]; simpl; [done|]. by rewrite ascii_compare_refl. Qed.

Lemma key_le_refl k : key_le k k.
Proof.
  destruct k as [s|]; simpl; [|done]. unfold text_le. by rewrite string_compare_refl.
Qed.

#[global] Instance key_le_trans : Transitive key_le.
Proof.
  intros [a|] [b|] [c|]; simpl; try done. apply text_le_trans.
Qed.

#[global] Instance key_le_total : Total key_le.
Proof.
  intros [a|] [b|]; simpl; auto. apply text_le_total.
Qed.

(** ** The stable sort *)

Section StableSortProperties.
Context {A : Type} (R : relation A) `{∀ x y, Decision (R x y)}.

Lemma sorted_insert_Permutation x l : sorted_insert R x l ≡ₚ x :: l.
Proof.
  induction l as [|y l IH]; simpl; [done|].
  case_decide; [done|]. rewrite IH. apply Permutation_swap.
Qed.

Lemma stable_sort_Permutation l : stable_sort R l ≡ₚ l.
Proof.
  induction l as [|x l IH]; simpl; [done|].
  by rewrite sorted_insert_Permutation, IH.
Qed.

Lemma Sorted_sorted_insert `{!Total R} x l :
  Sorted R l → Sorted R (sorted_insert R x l).
Proof.
  induction 1 as [|y l Hl IH Hhd]; simpl; [by repeat constructor|].
  case_decide as Hxy; [by repeat constructor|].
  constructor; [done|].
  assert (R y x) as Hyx by (by destruct (total R x y)).
  destruct Hhd as [|z l Hyz]; simpl; [by constructor|].
  case_decide; by constructor.
Qed.

Lemma Sorted_stable_sort `{!Total R} l : Sorted R (stable_sort R l).
Proof.
  induction l as [|x l IH]; simpl; [constructor|]. by apply Sorted_sorted_insert.
Qed.

Lemma StronglySorted_stable_sort `{!Transitive R, !Total R} l :
  StronglySorted R (stable_sort R l).
Proof. apply Sorted_StronglySorted; [done|]. apply Sorted_stable_sort. Qed.

(** Stability: the elements of a class of mutually related elements keep
    their order. *)
Lemma stable_sort_stable (P : A → Prop) `{∀ x, Decision (P x)} l :
  (∀ x y, P x → P y → R x y) →
  filter P (stable_sort R l) = filter P l.
Proof.
  intros Hclass.
  assert (∀ x l, filter P (sorted_insert R x l) = filter P (x :: l)) as Hins.
  { clear l. intros x l. induction l as [|y l IH]; simpl; [done|].
    case_decide as Hxy; [done|].
    rewrite filter_cons, IH, !filter_cons.
    destruct (decide (P x)), (decide (P y)); try done.
    exfalso. by apply Hxy, Hclass. }
  induction l as [|x l IH]; simpl; [done|].
  by rewrite Hins, !filter_cons, IH.
Qed.
End StableSortProperties.

(** ** Window Selector: [get_recent_events] *)

Lemma comprehension_Forall2 {A B} (f : A → result B) xs ys :
  comprehension f xs = Ok ys → Forall2 (λ x y, f x = Ok y) xs ys.
Proof.
  revert ys. induction xs as [|x xs IH]; simpl; intros ys.
  - intros [= <-]. constructor.
  - destruct (f x) as [b|] eqn:Hb; [|done].
    destruct (comprehension f xs) as [bs|]; [|done].
    intros [= <-]. constructor; auto.
Qed.

Lemma Forall2_comprehension {A B} (f : A → result B) xs ys :
  Forall2 (λ x y, f x = Ok y) xs ys → comprehension f xs = Ok ys.
Proof.
  induction 1 as [|x y xs ys Hxy _ IH]; simpl; [done|]. by rewrite Hxy, IH.
Qed.

Lemma Forall2_chain {A B C} (P : A → B → Prop) (Q : B → C → Prop) xs ys zs :
  Forall2 P xs ys → Forall2 Q ys zs → Forall2 (λ x z, ∃ y, P x y ∧ Q y z) xs zs.
Proof.
  intros HP. revert zs. induction HP as [|x y xs ys Hxy _ IH]; intros zs HQ.
  - inversion HQ. constructor.
  - inversion HQ as [|? z ? zs' Hyz Hrest]; subst. constructor; eauto.
Qed.

Section WindowSelector.
Context `{Library}.

#[global] Instance order_le_trans : Transitive order_le.
Proof. intros r1 r2 r3. unfold order_le. apply key_le_trans. Qed.

#[global] Instance order_le_total : Total order_le.
Proof. intros r1 r2. unfold order_le. apply key_le_total. Qed.

Lemma in_window_true repo0 ty cutoff r :
  in_window repo0 ty cutoff r = true ↔
  repo r = repo0
  ∧ sql_eq (event_type r) ty = true
  ∧ ∃ s, created_at r = Some s ∧ text_le cutoff s = true.
Proof.
  unfold in_window. rewrite !andb_true_iff, bool_decide_eq_true.
  split.
  - intros [[? ?] Hge]. split_and!; [done..|].
    destruct (created_at r) as [s|]; [|done]. by exists s.
  - intros (? & ? & s & Hs & Hle). split_and!; [done..|]. by rewrite Hs.
Qed.

Lemma select_window_rows_Permutation t repo0 ty cutoff :
  select_window_rows t repo0 ty cutoff
  ≡ₚ filter (λ r, in_window repo0 ty cutoff r = true) t.
Proof. apply stable_sort_Permutation. Qed.

Lemma select_window_rows_sorted t repo0 ty cutoff :
  StronglySorted order_le (select_window_rows t repo0 ty cutoff).
Proof. apply StronglySorted_stable_sort; apply _. Qed.

(** Selected rows with the same [datetime(created_at)] stay in insertion
    order. *)
Lemma select_window_rows_stable t repo0 ty cutoff k :
  filter (λ r, order_key r = k) (select_window_rows t repo0 ty cutoff)
  = filter (λ r, order_key r = k) (filter (λ r, in_window repo0 ty cutoff r = true) t).
Proof.
  apply stable_sort_stable. intros r1 r2 H1 H2. unfold order_le. rewrite H1, H2.
  apply key_le_refl.
Qed.

Lemma elem_of_select_window_rows t repo0 ty cutoff r :
  r ∈ select_window_rows t repo0 ty cutoff ↔ r ∈ t ∧ in_window repo0 ty cutoff r = true.
Proof.
  rewrite select_window_rows_Permutation, list_elem_of_filter. tauto.
Qed.

Lemma omap_Forall2 {A B} (f : A → option B) (l : list A) :
  Forall (λ x, is_Some (f x)) l → Forall2 (λ x y, f x = Some y) l (omap f l).
Proof.
  induction 1 as [|x l [y Hy] _ IH]; simpl; [constructor|].
  rewrite Hy. by constructor.
Qed.

(** The selected column lists the [created_at] of the selected rows,
    one text per row. *)
Lemma select_created_at_rows t repo0 ty cutoff :
  Forall2 (λ r s, created_at r = Some s)
          (select_window_rows t repo0 ty cutoff)
          (select_created_at t repo0 ty cutoff).
Proof.
  apply omap_Forall2, Forall_forall. intros r Hr.
  apply elem_of_select_window_rows in Hr as [_ Hw].
  apply in_window_true in Hw as (_ & _ & s & -> & _). by exists s.
Qed.

Lemma get_recent_events_healthy w repo0 ty :
  storage_faults w = [] →
  ∃ w', get_recent_events repo0 ty w = (window_of (events w) (utcnow w) repo0 ty, w')
        ∧ storage_faults w' = [] ∧ events w' = events w ∧ utcnow w' = utcnow w.
Proof.
  intros Hf. unfold get_recent_events, window_of, sqlite3_connect, bind.
  rewrite (storage_operation_healthy w Hf). unfold datetime_now_utc, gets, lift.
  destruct (cutoff_text (utcnow w)) as [cutoff|e]; simpl; [|by exists w].
  unfold execute_select, fetchall, bind. rewrite (storage_operation_healthy w Hf).
  unfold gets. rewrite (storage_operation_healthy w Hf).
  unfold ret, conn_close, modify.
  destruct (comprehension _ _) as [times|e]; simpl; by eexists.
Qed.

(** X25 — The window of a crowded pair.  When more than [MAX_EVENTS]
    stored events of a pair pass the time bound, the window is made of
    exactly the [MAX_EVENTS] last rows of the selection in ascending
    order of [datetime(created_at)], the timestamp read to the whole
    second: the rows left out come before every row kept, the rows kept
    stay in that order, and rows of the same second stay in insertion
    order.  On a table where that order agrees with the order of the
    parsed timestamps, the rows kept are the most recent ones: no row
    left out is later than a row kept. *)
Theorem get_recent_events_count_bound w repo0 ty cutoff times :
  storage_faults w = [] →
  cutoff_text (utcnow w) = Ok cutoff →
  comprehension (λ s, fromisoformat (remove_Z s))
                (select_created_at (events w) repo0 ty cutoff) = Ok times →
  (MAX_EVENTS < length (filter (λ r, in_window repo0 ty cutoff r = true) (events w)))%nat →
  ∃ w' older kept window,
    get_recent_events repo0 ty w = (Ok window, w')
    ∧ length window = MAX_EVENTS
    ∧ select_window_rows (events w) repo0 ty cutoff = older ++ kept
    ∧ Forall2 (λ r t, ∃ s, created_at r = Some s ∧ fromisoformat (remove_Z s) = Ok t)
              kept window
    ∧ StronglySorted order_le kept
    ∧ (∀ o k, o ∈ older → k ∈ kept → order_le o k)
    ∧ older ++ kept ≡ₚ filter (λ r, in_window repo0 ty cutoff r = true) (events w)
    ∧ (∀ key, filter (λ r, order_key r = key) (older ++ kept)
              = filter (λ r, order_key r = key)
                       (filter (λ r, in_window repo0 ty cutoff r = true) (events w)))
    ∧ (time_ordered (events w) →
       ∀ o k so sk to tk,
         o ∈ older → k ∈ kept →
         created_at o = Some so → created_at k = Some sk →
         fromisoformat (remove_Z so) = Ok to → fromisoformat (remove_Z sk) = Ok tk →
         instant to ≤ instant tk).
Proof.
  intros Hf Hcut Hparse Hmany.
  destruct (get_recent_events_healthy w repo0 ty Hf) as (w' & Hrun & _).
  unfold window_of in Hrun. rewrite Hcut in Hrun. simpl in Hrun.
  rewrite Hparse in Hrun. simpl in Hrun.
  set (selected := select_window_rows (events w) repo0 ty cutoff) in *.
  pose proof (select_created_at_rows (events w) repo0 ty cutoff) as Hcol.
  apply comprehension_Forall2 in Hparse.
  assert (length selected = length times) as Hlen.
  { unfold selected. rewrite (Forall2_length _ _ _ Hcol).
    apply (Forall2_length _ _ _ Hparse). }
  assert (length selected
          = length (filter (λ r, in_window repo0 ty cutoff r = true) (events w))) as Hsel.
  { apply Permutation_length, select_window_rows_Permutation. }
  assert (MAX_EVENTS < length times)%nat as Hlt by lia.
  apply Nat.ltb_lt in Hlt as Hltb. rewrite Hltb in Hrun.
  exists w', (take (length times - MAX_EVENTS) selected),
    (drop (length times - MAX_EVENTS) selected),
    (drop (length times - MAX_EVENTS) times).
  pose proof (select_window_rows_sorted (events w) repo0 ty cutoff) as Hsorted.
  fold selected in Hsorted. rewrite <- (take_drop (length times - MAX_EVENTS) selected) in Hsorted.
  split_and!.
  - done.
  - rewrite length_drop. lia.
  - by rewrite take_drop.
  - apply Forall2_drop.
    apply (Forall2_chain _ _ _ _ _ Hcol Hparse).
  - by apply StronglySorted_app_1_r in Hsorted.
  - intros o k Ho Hk. by apply (StronglySorted_app_1_elem_of _ _ _ o k Hsorted).
  - rewrite take_drop. apply select_window_rows_Permutation.
  - intros key. rewrite take_drop. apply select_window_rows_stable.
  - intros Hord o k so sk to tk Ho Hk Hso Hsk Hto Htk.
    apply (Hord o k so sk to tk); try done.
    + apply (elem_of_select_window_rows (events w) repo0 ty cutoff).
      fold selected. by apply subseteq_take in Ho.
    + apply (elem_of_select_window_rows (events w) repo0 ty cutoff).
      fold selected. by apply subseteq_drop in Hk.
    + by apply (StronglySorted_app_1_elem_of _ _ _ o k Hsorted).
Qed.
End WindowSelector.

(** ** Fixed-width decimal fields *)

Lemma append_cons c (a b : string) : String c a +:+ b = String c (a +:+ b).
Proof. done. Qed.

Lemma append_nil (b : string) : "" +:+ b = b.
Proof. done. Qed.

Lemma string_compare_app p q x y :
  String.length p = String.length q →
  String.compare (p +:+ x) (q +:+ y) = lex (String.compare p q) (String.compare x y).
Proof.
  revert q. induction p as [|c p IH]; intros [|c' q] Hlen; try done.
  rewrite !append_cons. simpl in *.
  destruct (Ascii.compare c c'); simpl; [|done..]. apply IH. lia.
Qed.

Lemma string_app_assoc (a b c : string) : (a +:+ b) +:+ c = a +:+ (b +:+ c).
Proof. induction a as [|x a IH]; [done|]. rewrite !append_cons. by f_equal. Qed.

Lemma Forall_below (P : Z → Prop) (b : nat) :
  Forall (λ k, P (Z.of_nat k)) (seq 0 b) → ∀ n, 0 ≤ n < Z.of_nat b → P n.
Proof.
  intros HP n Hn. rewrite Forall_forall in HP.
  replace n with (Z.of_nat (Z.to_nat n)) by lia.
  apply HP, list_elem_of_In, in_seq. lia.
Qed.

Lemma decimal_digits_last f n acc :
  0 ≤ n < 10 → decimal_digits (S f) n acc = String (digit_char n) acc.
Proof.
  intros Hn. simpl. rewrite Z.mod_small by done.
  by destruct (Z.ltb_spec n 10); [|lia].
Qed.

Lemma decimal_digits_step f n acc :
  10 ≤ n →
  decimal_digits (S f) n acc = decimal_digits f (n / 10) (String (digit_char (n mod 10)) acc).
Proof. intros Hn. simpl. by destruct (Z.ltb_spec n 10); [lia|]. Qed.

Lemma decimal_fuel n k :
  0 < k → 2 ^ k ≤ n → ∃ f, S (Z.to_nat (Z.log2 n)) = (Z.to_nat k + S f)%nat.
Proof.
  intros Hk Hn. assert (k ≤ Z.log2 n) by (apply Z.log2_le_pow2; lia).
  exists (Z.to_nat (Z.log2 n) - Z.to_nat k)%nat. lia.
Qed.

Lemma decimal_nonneg n :
  0 ≤ n → decimal n = decimal_digits (S (Z.to_nat (Z.log2 n))) n "".
Proof.
  intros Hn. unfold decimal. rewrite Z.abs_eq by done.
  by destruct (Z.ltb_spec n 0); [lia|].
Qed.

Lemma zfill_2 n : 0 ≤ n < 100 → zfill 2 n = two_digits n.
Proof.
  intros Hn. unfold zfill, two_digits. rewrite decimal_nonneg by lia.
  destruct (Z.lt_ge_cases n 10).
  - rewrite decimal_digits_last by lia. rewrite Z.div_small, Z.mod_small by lia. done.
  - destruct (decimal_fuel n 3) as [f ->]; [lia..|].
    change (Z.to_nat 3 + S f)%nat with (S (S (S (S f)))).
    rewrite decimal_digits_step by lia.
    rewrite decimal_digits_last by (split; [apply Z.div_pos|apply Z.div_lt_upper_bound]; lia).
    done.
Qed.

Lemma zfill_4 n :
  0 ≤ n < 10000 → zfill 4 n = two_digits (n / 100) +:+ two_digits (n mod 100).
Proof.
  intros Hn. unfold zfill, two_digits. rewrite decimal_nonneg by lia.
  assert (n / 100 / 10 = n / 1000) as -> by (rewrite Z.div_div by lia; done).
  assert (n mod 100 / 10 = n / 10 mod 10) as ->.
  { pose proof (Z.div_mod n 100 ltac:(lia)). pose proof (Z.mod_pos_bound n 100 ltac:(lia)).
    pose proof (Z.div_mod n 10 ltac:(lia)). pose proof (Z.mod_pos_bound n 10 ltac:(lia)).
    pose proof (Z.div_mod (n / 10) 10 ltac:(lia)).
    pose proof (Z.mod_pos_bound (n / 10) 10 ltac:(lia)).
    pose proof (Z.div_mod (n mod 100) 10 ltac:(lia)).
    pose proof (Z.mod_pos_bound (n mod 100) 10 ltac:(lia)).
    assert (n / 10 / 10 = n / 100) by (rewrite Z.div_div by lia; done). lia. }
  assert (n mod 100 mod 10 = n mod 10) as ->.
  { apply Z.mod_mod_divide. by exists 10. }
  destruct (Z.lt_ge_cases n 10); [|destruct (Z.lt_ge_cases n 100); [|destruct (Z.lt_ge_cases n 1000)]].
  - rewrite decimal_digits_last by lia.
    rewrite !Z.div_small, (Z.mod_small 0), (Z.mod_small n) by lia. done.
  - destruct (decimal_fuel n 3) as [f ->]; [lia..|].
    change (Z.to_nat 3 + S f)%nat with (S (S (S (S f)))).
    rewrite decimal_digits_step by lia.
    rewrite decimal_digits_last by (split; [apply Z.div_pos|apply Z.div_lt_upper_bound]; lia).
    rewrite (Z.div_small n 100), (Z.div_small n 1000), (Z.mod_small 0) by lia.
    rewrite (Z.mod_small (n / 10)) by (split; [apply Z.div_pos|apply Z.div_lt_upper_bound]; lia).
    done.
  - destruct (decimal_fuel n 6) as [f ->]; [lia..|].
    change (Z.to_nat 6 + S f)%nat with (S (S (S (S (S (S (S f))))))).
    rewrite !decimal_digits_step
      by (try apply Z.div_le_lower_bound; lia).
    rewrite decimal_digits_last
      by (rewrite Z.div_div by lia; split; [apply Z.div_pos|apply Z.div_lt_upper_bound]; lia).
    rewrite (Z.div_small n 1000) by lia.
    rewrite (Z.div_div n 10 10) by lia.
    rewrite (Z.mod_small (n / 100))
      by (split; [apply Z.div_pos|apply Z.div_lt_upper_bound]; lia).
    done.
  - destruct (decimal_fuel n 9) as [f ->]; [lia..|].
    change (Z.to_nat 9 + S f)%nat with (S (S (S (S (S (S (S (S (S (S f)))))))))).
    rewrite decimal_digits_step by lia.
    rewrite decimal_digits_step by (apply Z.div_le_lower_bound; lia).
    rewrite decimal_digits_step
      by (rewrite Z.div_div by lia; apply Z.div_le_lower_bound; lia).
    rewrite decimal_digits_last
      by (rewrite !Z.div_div by lia; split; [apply Z.div_pos|apply Z.div_lt_upper_bound]; lia).
    rewrite !Z.div_div by lia. done.
Qed.

Lemma two_digits_compare a b :
  0 ≤ a < 100 → 0 ≤ b < 100 →
  String.compare (two_digits a) (two_digits b) = (a ?= b).
Proof.
  intros Ha Hb.
  assert (Forall (λ i, Forall (λ j, String.compare (two_digits (Z.of_nat i))
                                      (two_digits (Z.of_nat j))
                                    = (Z.of_nat i ?= Z.of_nat j)) (seq 0 100))
                 (seq 0 100)) as Hall.
  { apply (bool_decide_eq_true_1 _). vm_compute. reflexivity. }
  eapply (Forall_below (λ b, String.compare (two_digits a) (two_digits b) = (a ?= b)) 100);
    [|done].
  eapply (Forall_below (λ a, Forall (λ j, String.compare (two_digits a)
                                       (two_digits (Z.of_nat j))
                                     = (a ?= Z.of_nat j)) (seq 0 100)) 100); done.
Qed.

Lemma lex_div_mod a b :
  lex (a / 100 ?= b / 100) (a mod 100 ?= b mod 100) = (a ?= b).
Proof.
  unfold lex.
  pose proof (Z.div_mod a 100 ltac:(lia)). pose proof (Z.mod_pos_bound a 100 ltac:(lia)).
  pose proof (Z.div_mod b 100 ltac:(lia)). pose proof (Z.mod_pos_bound b 100 ltac:(lia)).
  destruct (Z.compare_spec (a / 100) (b / 100)) as [Hq|Hq|Hq].
  - destruct (Z.compare_spec (a mod 100) (b mod 100)); symmetry;
      [apply Z.compare_eq_iff|apply Z.compare_lt_iff|apply Z.compare_gt_iff]; lia.
  - symmetry. apply Z.compare_lt_iff. lia.
  - symmetry. apply Z.compare_gt_iff. lia.
Qed.

Lemma compare_cons c x y : String.compare (String c x) (String c y) = String.compare x y.
Proof. simpl. by rewrite ascii_compare_refl. Qed.

Lemma lex_assoc a b c : lex (lex a b) c = lex a (lex b c).
Proof. by destruct a. Qed.

Ltac field_bound :=
  first [ lia
        | split; [apply Z.div_pos; lia | apply Z.div_lt_upper_bound; lia]
        | apply Z.mod_pos_bound; lia ].

Lemma stamp_compare a b x y :
  valid_fields a → valid_fields b →
  String.compare (stamp a x) (stamp b y) = lex (compare_second a b) (String.compare x y).
Proof.
  intros (Hy & Hm & Hd & Hh & Hi & Hs) (Hy' & Hm' & Hd' & Hh' & Hi' & Hs').
  unfold stamp, compare_second.
  rewrite !zfill_4, !zfill_2 by lia.
  rewrite !string_app_assoc.
  repeat (rewrite string_compare_app by done;
          rewrite two_digits_compare by field_bound;
          rewrite ?append_cons, ?append_nil, ?compare_cons).
  rewrite <- lex_assoc, lex_div_mod. by rewrite !lex_assoc.
Qed.

Lemma feed_text_stamp d : feed_text d = stamp d "Z".
Proof. done. Qed.

Lemma isoformat_stamp d :
  isoformat d +:+ "Z"
  = stamp d ((if microsecond d =? 0 then "" else "." +:+ zfill 6 (microsecond d))
             +:+ format_offset (utcoffset d) +:+ "Z").
Proof. unfold isoformat, stamp. by rewrite !string_app_assoc. Qed.

(** A timestamp text of an earlier calendar second is a smaller text
    than the cutoff, whatever follows its seconds. *)
Lemma stamp_below_cutoff d c tail :
  valid_fields d → valid_fields c →
  compare_second d c = Lt →
  text_le (isoformat c +:+ "Z") (stamp d tail) = false.
Proof.
  intros Hd Hc Hlt. unfold text_le.
  rewrite String.compare_antisym, isoformat_stamp.
  rewrite (stamp_compare d c) by done. by rewrite Hlt.
Qed.

(** ** Calendar fields of a computed datetime *)

Lemma ord2ymd_fields n y m d :
  0 < n ≤ MAXORDINAL → ord2ymd n = (y, m, d) →
  1 ≤ y ≤ 9999 ∧ 1 ≤ m ≤ 12 ∧ 1 ≤ d ≤ 31.
Proof.
  intros Hn. unfold ord2ymd, MAXORDINAL in *.
  change DI400Y with 146097. change DI100Y with 36524. change DI4Y with 1461.
  pose proof (Z.div_mod (n - 1) 146097 ltac:(lia)) as E1.
  pose proof (Z.mod_pos_bound (n - 1) 146097 ltac:(lia)) as B1.
  set (n400 := (n - 1) / 146097) in *. set (r1 := (n - 1) mod 146097) in *.
  pose proof (Z.div_mod r1 36524 ltac:(lia)) as E2.
  pose proof (Z.mod_pos_bound r1 36524 ltac:(lia)) as B2.
  set (n100 := r1 / 36524) in *. set (r2 := r1 mod 36524) in *.
  pose proof (Z.div_mod r2 1461 ltac:(lia)) as E3.
  pose proof (Z.mod_pos_bound r2 1461 ltac:(lia)) as B3.
  set (n4 := r2 / 1461) in *. set (r3 := r2 mod 1461) in *.
  pose proof (Z.div_mod r3 365 ltac:(lia)) as E4.
  pose proof (Z.mod_pos_bound r3 365 ltac:(lia)) as B4.
  set (n1 := r3 / 365) in *. set (r := r3 mod 365) in *.
  rewrite Z.shiftr_div_pow2 by lia. change (2 ^ 5) with 32.
  pose proof (Z.div_mod (r + 50) 32 ltac:(lia)) as E5.
  pose proof (Z.mod_pos_bound (r + 50) 32 ltac:(lia)) as B5.
  set (mm := (r + 50) / 32) in *.
  clearbody n400 r1 n100 r2 n4 r3 n1 r mm.
  destruct (n1 =? 4) eqn:H1; [apply Z.eqb_eq in H1|apply Z.eqb_neq in H1].
  { simpl. intros [= <- <- <-]. lia. }
  destruct (n100 =? 4) eqn:H100; [apply Z.eqb_eq in H100|apply Z.eqb_neq in H100].
  { simpl. intros [= <- <- <-]. lia. }
  simpl orb. cbv iota.
  assert (mm = 1 ∨ mm = 2 ∨ mm = 3 ∨ mm = 4 ∨ mm = 5 ∨ mm = 6 ∨ mm = 7 ∨ mm = 8
          ∨ mm = 9 ∨ mm = 10 ∨ mm = 11 ∨ mm = 12) as Hmm by lia.
  assert (1 ≤ n400 * 400 + 1 + n100 * 100 + n4 * 4 + n1 ≤ 9999) as Hyear by lia.
  destruct ((n1 =? 3) && (negb (n4 =? 24) || (n100 =? 3))) eqn:Hleap;
    repeat (destruct Hmm as [-> | Hmm]); try subst mm; simpl;
      repeat case_match; intros [= <- <- <-];
      repeat match goal with
             | H : (_ <? _) = true |- _ => apply Z.ltb_lt in H
             | H : (_ <? _) = false |- _ => apply Z.ltb_ge in H
             end; lia.
Qed.

Lemma datetime_add_fields dt delta c :
  datetime_add dt delta = Ok c → valid_fields c.
Proof.
  unfold datetime_add.
  set (total := toordinal dt * US_PER_DAY + time_of_day dt + delta).
  destruct ((0 <? total / US_PER_DAY) && (total / US_PER_DAY <=? MAXORDINAL)) eqn:Hr;
    [|done].
  apply andb_true_iff in Hr as [H0%Z.ltb_lt Hmax%Z.leb_le].
  destruct (ord2ymd (total / US_PER_DAY)) as [[y m] d] eqn:Hymd.
  apply ord2ymd_fields in Hymd as (Hy & Hm & Hd); [|done].
  intros [= <-]. unfold valid_fields. simpl.
  change US_PER_DAY with 86400000000 in *. change US_PER_SECOND with 1000000.
  pose proof (Z.mod_pos_bound total 86400000000 ltac:(lia)) as Hrest.
  set (rest := total mod 86400000000) in *.
  pose proof (Z.div_mod rest 1000000 ltac:(lia)).
  pose proof (Z.mod_pos_bound rest 1000000 ltac:(lia)).
  set (secs := rest / 1000000) in *.
  pose proof (Z.div_mod secs 3600 ltac:(lia)).
  pose proof (Z.mod_pos_bound secs 3600 ltac:(lia)).
  pose proof (Z.div_mod (secs mod 3600) 60 ltac:(lia)).
  pose proof (Z.mod_pos_bound (secs mod 3600) 60 ltac:(lia)).
  pose proof (Z.mod_pos_bound secs 60 ltac:(lia)).
  split_and!; lia.
Qed.

Section TimeBound.
Context `{Library}.

Lemma elem_of_window_rows t now repo0 ty r :
  r ∈ window_rows t now repo0 ty →
  ∃ cutoff, cutoff_text now = Ok cutoff
            ∧ r ∈ t ∧ in_window repo0 ty cutoff r = true.
Proof.
  unfold window_rows. destruct (cutoff_text now) as [cutoff|]; [|by intros ?%elem_of_nil].
  intros Hr. exists cutoff. split; [done|].
  apply elem_of_select_window_rows.
  destruct (_ <? _)%nat; [|done]. by apply subseteq_drop in Hr.
Qed.

Lemma window_of_rows t now repo0 ty window :
  window_of t now repo0 ty = Ok window →
  Forall2 (λ r tm, ∃ s, created_at r = Some s ∧ fromisoformat (remove_Z s) = Ok tm)
          (window_rows t now repo0 ty) window.
Proof.
  unfold window_of, window_rows. destruct (cutoff_text now) as [cutoff|]; [|done]. simpl.
  destruct (comprehension _ _) as [times|] eqn:Hparse; [|done]. simpl. intros [= <-].
  pose proof (select_created_at_rows t repo0 ty cutoff) as Hcol.
  apply comprehension_Forall2 in Hparse.
  pose proof (Forall2_chain _ _ _ _ _ Hcol Hparse) as Hall.
  rewrite (Forall2_length _ _ _ Hall).
  destruct (_ <? _)%nat; [|done]. by apply Forall2_drop.
Qed.
(** X26 — Events of an earlier second are left out.  A stored event whose
    [created_at] text starts with a calendar second
    [YYYY-MM-DDTHH:MM:SS] that precedes the calendar second of the
    cutoff [now - MAX_DAYS days] is not among the rows of the window
    [get_recent_events] returns, whatever the number of events of the
    pair.  (An event within the second of the cutoff is not covered.) *)
Theorem get_recent_events_time_bound w repo0 ty r ts tail cutoff_dt :
  storage_faults w = [] →
  datetime_add (utcnow w) (- timedelta_days MAX_DAYS) = Ok cutoff_dt →
  r ∈ events w →
  created_at r = Some (stamp ts tail) →
  valid_fields ts →
  compare_second ts cutoff_dt = Lt →
  ∃ w', get_recent_events repo0 ty w = (window_of (events w) (utcnow w) repo0 ty, w')
        ∧ (r ∉ window_rows (events w) (utcnow w) repo0 ty)
        ∧ ∀ window,
            window_of (events w) (utcnow w) repo0 ty = Ok window →
            Forall2 (λ r' tm, ∃ s, created_at r' = Some s
                                   ∧ fromisoformat (remove_Z s) = Ok tm)
                    (window_rows (events w) (utcnow w) repo0 ty) window.
Proof.
  intros Hf Hcut _ Hr Hts Hlt.
  destruct (get_recent_events_healthy w repo0 ty Hf) as (w' & Hrun & _).
  exists w'. split_and!; [done| |apply window_of_rows].
  intros (cutoff & Hc & _ & Hw)%elem_of_window_rows.
  unfold cutoff_text in Hc. rewrite Hcut in Hc. injection Hc as <-.
  apply in_window_true in Hw as (_ & _ & s & Hs & Hle).
  rewrite Hr in Hs. injection Hs as <-.
  by rewrite (stamp_below_cutoff ts cutoff_dt tail Hts
                (datetime_add_fields _ _ _ Hcut) Hlt) in Hle.
Qed.
End TimeBound.

Lemma get_recent_events_time_bound_witness :
  ∃ w', get_recent_events "o/r" (Some "PushEvent") stale_world
        = (window_of (events stale_world) noon "o/r" (Some "PushEvent"), w')
        ∧ (staler_push ∉ window_rows (events stale_world) noon "o/r" (Some "PushEvent"))
        ∧ ∀ window,
            window_of (events stale_world) noon "o/r" (Some "PushEvent") = Ok window →
            Forall2 (λ r' tm, ∃ s, created_at r' = Some s
                                   ∧ fromisoformat (remove_Z s) = Ok tm)
                    (window_rows (events stale_world) noon "o/r" (Some "PushEvent")) window.
Proof.
  apply (get_recent_events_time_bound stale_world "o/r" (Some "PushEvent") staler_push
           (mk_datetime 2026 10 27 11 59 59 0 None) "Z"
           (mk_datetime 2026 10 27 12 0 0 500000 (Some 0))).
  - reflexivity.
  - vm_compute. reflexivity.
  - apply list_elem_of_In. vm_compute. left. reflexivity.
  - vm_compute. reflexivity.
  - unfold valid_fields. simpl. lia.
  - vm_compute. reflexivity.
Defined.

(** The time bound does not hold to the microsecond: an event seven
    days and half a second old is still in the window. *)
Lemma time_bound_counterexample :
  ¬ (∀ w r s repo0 ty age,
        r ∈ events w →
        created_at r = Some s →
        age_of (utcnow w) s = Ok age →
        timedelta_days MAX_DAYS < age →
        r ∉ window_rows (events w) (utcnow w) repo0 ty).
Proof.
  intros Hclaim.
  apply (Hclaim stale_world stale_push "2026-10-27T12:00:00Z" "o/r" (Some "PushEvent")
                (timedelta_days MAX_DAYS + 500000)).
  - apply list_elem_of_In. vm_compute. right. left. reflexivity.
  - reflexivity.
  - vm_compute. reflexivity.
  - vm_compute. reflexivity.
  - apply list_elem_of_In. vm_compute. left. reflexivity.
Qed.

(** C4 — Window time bound, on an input where it fails.  At
    2026-11-03 12:00:00.5 UTC the table holds a push of
    [2026-10-27T12:00:00Z], seven days and half a second old.  The
    cutoff text is [2026-10-27T12:00:00.500000+00:00Z], the stored text
    is not below it in the comparison of texts, and
    [get_recent_events] returns the event, against its
    documentation "that occurred within the last MAX_DAYS days". *)
Theorem get_recent_events_stale_event :
  events stale_world = [staler_push; stale_push]
  ∧ utcnow stale_world = mk_datetime 2026 11 3 12 0 0 500000 (Some 0)
  ∧ cutoff_text (utcnow stale_world) = Ok "2026-10-27T12:00:00.500000+00:00Z"
  ∧ created_at stale_push = Some "2026-10-27T12:00:00Z"
  ∧ age_of (utcnow stale_world) "2026-10-27T12:00:00Z"
    = Ok (timedelta_days MAX_DAYS + 500000)
  ∧ stale_push ∈ window_rows (events stale_world) (utcnow stale_world)
                             "o/r" (Some "PushEvent")
  ∧ (get_recent_events "o/r" (Some "PushEvent") stale_world).1
    = Ok [mk_datetime 2026 10 27 12 0 0 0 None].
Proof.
  split_and!; try (vm_compute; reflexivity).
  apply list_elem_of_In. vm_compute. left. reflexivity.
Qed.

Lemma get_recent_events_count_bound_witness :
  ∃ w' older kept window,
    get_recent_events "o/r" (Some "PushEvent") burst_world = (Ok window, w')
    ∧ length window = MAX_EVENTS
    ∧ select_window_rows (events burst_world) "o/r" (Some "PushEvent")
        "2026-10-27T12:00:00.500000+00:00Z" = older ++ kept
    ∧ Forall2 (λ r t, ∃ s, created_at r = Some s ∧ fromisoformat (remove_Z s) = Ok t)
              kept window
    ∧ StronglySorted order_le kept
    ∧ (∀ o k, o ∈ older → k ∈ kept → order_le o k)
    ∧ older ++ kept ≡ₚ filter (λ r, in_window "o/r" (Some "PushEvent")
                                  "2026-10-27T12:00:00.500000+00:00Z" r = true)
                              (events burst_world)
    ∧ (∀ key, filter (λ r, order_key r = key) (older ++ kept)
              = filter (λ r, order_key r = key)
                       (filter (λ r, in_window "o/r" (Some "PushEvent")
                                       "2026-10-27T12:00:00.500000+00:00Z" r = true)
                               (events burst_world)))
    ∧ (time_ordered (events burst_world) →
       ∀ o k so sk to tk,
         o ∈ older → k ∈ kept →
         created_at o = Some so → created_at k = Some sk →
         fromisoformat (remove_Z so) = Ok to → fromisoformat (remove_Z sk) = Ok tk →
         instant to ≤ instant tk).
Proof.
  apply (get_recent_events_count_bound burst_world "o/r" (Some "PushEvent")
           "2026-10-27T12:00:00.500000+00:00Z" (minute_of_day <$> seq 0 501)).
  - reflexivity.
  - vm_compute. reflexivity.
  - vm_compute. reflexivity.
  - vm_compute. lia.
Defined.

(** ** Statistics: [get_stats] *)

Lemma consume_add a b fs :
  consume (a + b) fs
  = match consume a fs with inl e => inl e | inr fs' => consume b fs' end.
Proof.
  revert fs. induction a as [|a IH]; intros fs; simpl; [done|].
  destruct fs as [|[e|] fs]; simpl; [|done|apply IH].
  clear. induction b; simpl; done.
Qed.

Lemma storage_operation_run w :
  match consume 1 (storage_faults w) with
  | inl e => ∃ w', storage_operation w = (Raise e, w')
  | inr fs => ∃ w', storage_operation w = (Ok tt, w')
                    ∧ storage_faults w' = fs ∧ events w' = events w
                    ∧ utcnow w' = utcnow w
  end.
Proof.
  unfold storage_operation. destruct (storage_faults w) as [|[e|] fs] eqn:Hfs; simpl.
  - by exists w.
  - by eexists.
  - by eexists.
Qed.

Section Stats.
Context `{Library}.

(** [get_recent_events] under any storage script: it raises the first
    failure of its three operations, and otherwise returns the window of
    the table. *)
Lemma get_recent_events_run w repo0 ty cutoff :
  cutoff_text (utcnow w) = Ok cutoff →
  match consume 3 (storage_faults w) with
  | inl e => ∃ w', get_recent_events repo0 ty w = (Raise e, w')
  | inr fs => ∃ w', get_recent_events repo0 ty w
                    = (window_of (events w) (utcnow w) repo0 ty, w')
                    ∧ storage_faults w' = fs ∧ events w' = events w
                    ∧ utcnow w' = utcnow w
  end.
Proof.
  intros Hcut.
  unfold get_recent_events, window_of, sqlite3_connect, execute_select, fetchall,
    datetime_now_utc, conn_close, storage_operation, bind, gets, lift, ret, modify.
  destruct w as [cfg repos t unc fs now gh lg]. simpl in *. rewrite Hcut. simpl.
  destruct fs as [|[e1|] [|[e2|] [|[e3|] fs]]]; simpl; rewrite ?Hcut; simpl;
    try (by eexists);
    destruct (comprehension _ _) as [times|e]; simpl; by eexists.
Qed.

Lemma stats_lookup_set_interval results repo0 ty v repo1 ty1 :
  stats_lookup (set_interval results repo0 ty v) repo1 ty1
  = if decide (repo1 = repo0 ∧ ty1 = ty) then Some v else stats_lookup results repo1 ty1.
Proof.
  unfold stats_lookup, set_interval.
  destruct (decide (repo1 = repo0)) as [->|Hr].
  - rewrite lookup_insert_eq. simpl.
    destruct (results !! repo0) as [m|] eqn:Hm.
    + rewrite bool_decide_eq_false_2 by done.
      rewrite (lookup_total_correct _ _ _ Hm). simpl.
      destruct (decide (ty1 = ty)) as [->|Ht].
      * rewrite lookup_insert_eq. by rewrite decide_True.
      * rewrite lookup_insert_ne by done. rewrite decide_False by tauto. done.
    + rewrite bool_decide_eq_true_2 by done.
      rewrite lookup_total_insert_eq. simpl.
      destruct (decide (ty1 = ty)) as [->|Ht].
      * rewrite lookup_insert_eq. by rewrite decide_True.
      * rewrite lookup_insert_ne by done. rewrite decide_False by tauto. done.
  - rewrite lookup_insert_ne by done. rewrite decide_False by tauto.
    destruct (bool_decide _); [|done]. by rewrite lookup_insert_ne.
Qed.

(** One turn of the loop, in terms of the window it selects. *)
Lemma stats_step_run results repo0 ty w :
  stats_step results (repo0, ty) w
  = match get_recent_events repo0 ty w with
    | (Ok window, w') =>
        match average_interval window with
        | Ok None => (Ok results, w')
        | Ok (Some v) => (Ok (set_interval results repo0 ty v), w')
        | Raise e => (Raise e, w')
        end
    | (Raise e, w') => (Raise e, w')
    end.
Proof.
  unfold stats_step, bind.
  destruct (get_recent_events repo0 ty w) as [[window|e] w']; [|done].
  unfold average_interval. destruct (_ <? _)%nat; [done|].
  unfold lift. destruct (item_last window) as [tl|]; simpl; [|done].
  destruct (item_first window) as [tf|]; simpl; [|done].
  destruct (datetime_sub tl tf); simpl; done.
Qed.

Lemma comprehension_total {A B} (f : A → result B) (P : B → Prop) xs :
  Forall (λ x, ∃ y, f x = Ok y ∧ P y) xs →
  ∃ ys, comprehension f xs = Ok ys ∧ Forall P ys.
Proof.
  induction 1 as [|x xs (y & Hy & HP) _ (ys & Hys & HPs)]; simpl.
  - by exists [].
  - rewrite Hy, Hys. exists (y :: ys). split; [done|]. by constructor.
Qed.

(** With well-formed timestamps a window is always obtained, and its
    members are naive datetimes. *)
Lemma window_of_naive t now repo0 ty cutoff :
  naive_timestamps t →
  cutoff_text now = Ok cutoff →
  ∃ window, window_of t now repo0 ty = Ok window
            ∧ Forall (λ tm, utcoffset tm = None) window.
Proof.
  intros Hnaive Hcut. unfold window_of. rewrite Hcut. simpl.
  destruct (comprehension_total (λ s, fromisoformat (remove_Z s))
              (λ tm, utcoffset tm = None) (select_created_at t repo0 ty cutoff))
    as (times & -> & Hall).
  { pose proof (select_created_at_rows t repo0 ty cutoff) as Hcol.
    apply Forall_forall. intros s Hs.
    apply (list_elem_of_lookup_1) in Hs as (i & Hi).
    destruct (Forall2_lookup_r _ _ _ _ _ Hcol Hi) as (r & Hr & Hrs).
    apply list_elem_of_lookup_2, elem_of_select_window_rows in Hr as [Hr _].
    apply (Hnaive r s Hr Hrs). }
  simpl. eexists. split; [done|].
  destruct (_ <? _)%nat; [|done]. by apply Forall_drop.
Qed.

Lemma average_interval_naive window :
  Forall (λ tm, utcoffset tm = None) window →
  ∃ v, average_interval window = Ok v
       ∧ ((length window < 2)%nat → v = None)
       ∧ ((2 ≤ length window)%nat →
          ∃ t0 tn delta,
            head window = Some t0 ∧ last window = Some tn
            ∧ datetime_sub tn t0 = Ok delta
            ∧ v = Some (average (total_seconds delta) (length window - 1))).
Proof.
  intros Hall. unfold average_interval.
  destruct (Nat.ltb_spec (length window) 2) as [Hlt|Hge].
  { exists None. split_and!; [done..|lia]. }
  destruct window as [|t0 rest]; [simpl in Hge; lia|].
  assert (∃ tn, last (t0 :: rest) = Some tn) as [tn Htn].
  { destruct (last (t0 :: rest)) eqn:E; [by eexists|]. by apply last_None in E. }
  assert (utcoffset t0 = None) as H0 by (by apply Forall_cons in Hall as [? _]).
  assert (utcoffset tn = None) as Hn.
  { rewrite Forall_forall in Hall. apply Hall.
    rewrite last_lookup in Htn. by apply list_elem_of_lookup_2 in Htn. }
  unfold item_last, item_first. rewrite Htn. simpl.
  unfold datetime_sub. rewrite Hn, H0. simpl.
  eexists. split_and!; [done|simpl in *; lia|].
  intros _. eexists t0, tn, _. split_and!; [done..| |done].
  by rewrite Hn, H0.
Qed.

Lemma NoDup_distinct {A} `{EqDecision A} (l : list A) : NoDup (distinct l).
Proof. unfold distinct. rewrite reverse_Permutation. apply NoDup_remove_dups. Qed.

Lemma elem_of_distinct {A} `{EqDecision A} (l : list A) x : x ∈ distinct l ↔ x ∈ l.
Proof. unfold distinct. by rewrite elem_of_reverse, elem_of_remove_dups, elem_of_reverse. Qed.

(** A pair the discovery query does not list has an empty window. *)
Lemma window_of_undiscovered t now repo0 ty cutoff :
  cutoff_text now = Ok cutoff →
  (repo0, ty) ∉ select_distinct_pairs t cutoff →
  window_of t now repo0 ty = Ok [].
Proof.
  intros Hcut Hnot. unfold window_of. rewrite Hcut. simpl.
  assert (select_window_rows t repo0 ty cutoff = []) as Hsel.
  { apply Permutation_nil_r. rewrite select_window_rows_Permutation.
    rewrite filter_none; [done|]. intros r Hr Hw. apply Hnot.
    unfold select_distinct_pairs. apply elem_of_distinct, list_elem_of_fmap.
    apply in_window_true in Hw as (Hrepo & Hty & s & Hs & Hle).
    apply sql_eq_true in Hty as (k & Hk & ->).
    exists r. split; [by rewrite Hrepo, Hk|].
    apply list_elem_of_filter. split; [|done]. by rewrite Hs. }
  unfold select_created_at. by rewrite Hsel.
Qed.

Lemma interval_of_naive t now repo0 ty cutoff :
  naive_timestamps t →
  cutoff_text now = Ok cutoff →
  ∃ window, window_of t now repo0 ty = Ok window
            ∧ average_interval window = Ok (interval_of t now repo0 ty).
Proof.
  intros Hnaive Hcut.
  destruct (window_of_naive t now repo0 ty cutoff Hnaive Hcut) as (window & Hw & Hall).
  destruct (average_interval_naive window Hall) as (v & Hv & _).
  exists window. split; [done|]. unfold interval_of. by rewrite Hw, Hv.
Qed.

(** The loop of [get_stats] on a healthy store. *)
Lemma stats_loop_healthy ps results w cutoff :
  storage_faults w = [] →
  cutoff_text (utcnow w) = Ok cutoff →
  naive_timestamps (events w) →
  NoDup ps →
  ∃ results' w',
    for_fold ps results stats_step w = (Ok results', w')
    ∧ ∀ repo0 ty,
        stats_lookup results' repo0 ty
        = if decide ((repo0, ty) ∈ ps)
          then match interval_of (events w) (utcnow w) repo0 ty with
               | Some v => Some v
               | None => stats_lookup results repo0 ty
               end
          else stats_lookup results repo0 ty.
Proof.
  intros Hf Hcut Hnaive Hnd. revert results w Hf Hcut Hnaive.
  induction Hnd as [|[r0 t0] ps Hnotin Hnd IH]; intros results w Hf Hcut Hnaive.
  - exists results, w. split; [done|]. intros repo0 ty.
    rewrite decide_False; [done|]. apply not_elem_of_nil.
  - change (for_fold ((r0, t0) :: ps) results stats_step w)
      with (bind (stats_step results (r0, t0)) (λ s', for_fold ps s' stats_step) w).
    unfold bind. rewrite stats_step_run.
    pose proof (get_recent_events_run w r0 t0 cutoff Hcut) as Hrun.
    rewrite Hf in Hrun. simpl in Hrun.
    destruct Hrun as (w1 & -> & Hf1 & He1 & Hn1).
    destruct (interval_of_naive (events w) (utcnow w) r0 t0 cutoff Hnaive Hcut)
      as (window & -> & ->).
    assert (∃ results1,
               (match interval_of (events w) (utcnow w) r0 t0 with
                | Some v => (Ok (set_interval results r0 t0 v), w1)
                | None => (Ok results, w1)
                end) = (Ok results1, w1)
               ∧ ∀ repo0 ty,
                   stats_lookup results1 repo0 ty
                   = if decide (repo0 = r0 ∧ ty = t0)
                     then match interval_of (events w) (utcnow w) r0 t0 with
                          | Some v => Some v
                          | None => stats_lookup results repo0 ty
                          end
                     else stats_lookup results repo0 ty) as (results1 & -> & Hlook1).
    { destruct (interval_of (events w) (utcnow w) r0 t0) as [v|].
      - eexists. split; [done|]. intros. apply stats_lookup_set_interval.
      - eexists. split; [done|]. intros. by case_decide. }
    destruct (IH results1 w1) as (results' & w' & Hloop & Hlook);
      [done|by rewrite Hn1|by rewrite He1|].
    exists results', w'. split; [done|]. intros repo0 ty.
    rewrite Hlook, He1, Hn1, !Hlook1.
    assert ((repo0, ty) ∈ (r0, t0) :: ps ↔ (repo0 = r0 ∧ ty = t0) ∨ (repo0, ty) ∈ ps)
      as Hcons.
    { rewrite elem_of_cons. split; (intros [Heq|?]; [left|by right]).
      - by injection Heq.
      - by destruct Heq as [-> ->]. }
    assert (repo0 = r0 ∧ ty = t0 → (repo0, ty) ∉ ps) as Hexcl by (by intros [-> ->]).
    repeat case_decide; try done; try (exfalso; tauto).
    all: destruct_and!; by subst.
Qed.

(** The discovery query of [get_stats] under any storage script. *)
Lemma get_stats_run w cutoff :
  cutoff_text (utcnow w) = Ok cutoff →
  match consume 3 (storage_faults w) with
  | inl e => ∃ w', get_stats w = (Raise e, w')
  | inr fs => ∃ w1, get_stats w
                    = for_fold (select_distinct_pairs (events w) cutoff) ∅ stats_step w1
                    ∧ storage_faults w1 = fs ∧ events w1 = events w
                    ∧ utcnow w1 = utcnow w
  end.
Proof.
  intros Hcut.
  unfold get_stats, sqlite3_connect, execute_select, fetchall,
    datetime_now_utc, conn_close, storage_operation, bind, gets, lift, ret, modify.
  destruct w as [cfg repos t unc fs now gh lg]. simpl in *.
  destruct fs as [|[e1|] [|[e2|] [|[e3|] fs]]]; simpl; rewrite ?Hcut; simpl;
    by eexists.
Qed.

(** [/stats] on a healthy store with well-formed timestamps: the request
    succeeds and the payload holds, for every pair, the interval of its
    window. *)
Lemma get_stats_healthy w cutoff :
  storage_faults w = [] →
  cutoff_text (utcnow w) = Ok cutoff →
  naive_timestamps (events w) →
  ∃ results w',
    get_stats w = (Ok results, w')
    ∧ ∀ repo0 ty,
        stats_lookup results repo0 ty = interval_of (events w) (utcnow w) repo0 ty.
Proof.
  intros Hf Hcut Hnaive.
  pose proof (get_stats_run w cutoff Hcut) as Hrun. rewrite Hf in Hrun. simpl in Hrun.
  destruct Hrun as (w1 & -> & Hf1 & He1 & Hn1).
  destruct (stats_loop_healthy (select_distinct_pairs (events w) cutoff) ∅ w1 cutoff)
    as (results & w' & Hloop & Hlook);
    [done|by rewrite Hn1|by rewrite He1|apply NoDup_distinct|].
  exists results, w'. split; [done|]. intros repo0 ty.
  rewrite Hlook, He1, Hn1.
  assert (stats_lookup ∅ repo0 ty = None) as -> by done.
  case_decide as Hin; [by destruct (interval_of _ _ _ _)|].
  unfold interval_of. by rewrite (window_of_undiscovered _ _ _ _ cutoff Hcut Hin).
Qed.

(** The loop of [get_stats] when one of its storage operations fails:
    the request does not complete, and with well-formed timestamps the
    exception it raises is the storage failure itself. *)
Lemma stats_loop_fault ps results w cutoff e :
  cutoff_text (utcnow w) = Ok cutoff →
  consume (3 * length ps) (storage_faults w) = inl e →
  (∃ e', (for_fold ps results stats_step w).1 = Raise e')
  ∧ (naive_timestamps (events w) → (for_fold ps results stats_step w).1 = Raise e).
Proof.
  revert results w. induction ps as [|[r0 t0] ps IH]; intros results w Hcut Hfault.
  { simpl in Hfault. discriminate. }
  replace (3 * length ((r0, t0) :: ps))%nat with (3 + 3 * length ps)%nat in Hfault
    by (simpl; lia).
  rewrite consume_add in Hfault.
  change (for_fold ((r0, t0) :: ps) results stats_step w)
    with (bind (stats_step results (r0, t0)) (λ s', for_fold ps s' stats_step) w).
  unfold bind. rewrite stats_step_run.
  pose proof (get_recent_events_run w r0 t0 cutoff Hcut) as Hrun.
  destruct (consume 3 (storage_faults w)) as [e0|fs].
  { injection Hfault as ->. destruct Hrun as (w' & ->). simpl. eauto. }
  destruct Hrun as (w1 & -> & Hf1 & He1 & Hn1).
  destruct (IH results w1) as [IHfail IHsame]; [by rewrite Hn1|by rewrite Hf1|].
  destruct (window_of (events w) (utcnow w) r0 t0) as [window|e1] eqn:Hw.
  - destruct (average_interval window) as [[v|]|e2] eqn:Hv.
    + destruct (IH (set_interval results r0 t0 v) w1) as [IHf IHs];
        [by rewrite Hn1|by rewrite Hf1|].
      split; [done|]. intros Hnaive. apply IHs. by rewrite He1.
    + split; [done|]. intros Hnaive. apply IHsame. by rewrite He1.
    + split; [simpl; eauto|]. intros Hnaive.
      destruct (window_of_naive (events w) (utcnow w) r0 t0 cutoff Hnaive Hcut)
        as (window' & Hw' & Hall).
      rewrite Hw in Hw'. injection Hw' as <-.
      destruct (average_interval_naive window Hall) as (v & Hv' & _). congruence.
  - split; [simpl; eauto|]. intros Hnaive.
    destruct (window_of_naive (events w) (utcnow w) r0 t0 cutoff Hnaive Hcut)
      as (window' & Hw' & _). congruence.
Qed.

(** The mean of the consecutive differences of a list is its span
    divided by its number of gaps: the differences telescope. *)
Lemma sum_consecutive_deltas l x0 xn :
  head l = Some x0 → last l = Some xn →
  foldr Z.add 0 (consecutive_deltas l) = xn - x0.
Proof.
  revert x0. induction l as [|a l IH]; intros x0 Hh Hl; [done|].
  injection Hh as ->. destruct l as [|b l].
  - injection Hl as ->. unfold consecutive_deltas. simpl. lia.
  - change (consecutive_deltas (x0 :: b :: l))
      with ((b - x0) :: consecutive_deltas (b :: l)).
    simpl. rewrite (IH b); [lia|done|done].
Qed.

Lemma datetime_sub_naive a b :
  utcoffset a = None → utcoffset b = None →
  datetime_sub a b = Ok (instant a - instant b).
Proof.
  intros Ha Hb. unfold datetime_sub, instant. rewrite Ha, Hb. f_equal. lia.
Qed.

(** The entry of a pair whose window has at least two timestamps: the
    span between the last and the first, in seconds, divided by the
    number of gaps. *)
Lemma get_stats_entry w cutoff repo0 ty window :
  storage_faults w = [] →
  cutoff_text (utcnow w) = Ok cutoff →
  naive_timestamps (events w) →
  (get_recent_events repo0 ty w).1 = Ok window →
  (2 ≤ length window)%nat →
  ∃ results w' t0 tn,
    get_stats w = (Ok results, w')
    ∧ head window = Some t0 ∧ last window = Some tn
    ∧ stats_lookup results repo0 ty
      = Some (average (total_seconds (instant tn - instant t0)) (length window - 1)).
Proof.
  intros Hf Hcut Hnaive Hwin Hlen.
  destruct (get_recent_events_healthy w repo0 ty Hf) as (w1 & Hrun & _).
  rewrite Hrun in Hwin. simpl in Hwin.
  destruct (get_stats_healthy w cutoff Hf Hcut Hnaive) as (results & w' & Hstats & Hlook).
  destruct (window_of_naive (events w) (utcnow w) repo0 ty cutoff Hnaive Hcut)
    as (window' & Hw' & Hall).
  rewrite Hwin in Hw'. injection Hw' as <-.
  destruct (average_interval_naive window Hall) as (v & Hv & _ & Hlong).
  destruct (Hlong Hlen) as (t0 & tn & delta & H0 & Hn & Hsub & ->).
  exists results, w', t0, tn. split_and!; [done..|].
  rewrite Hlook. unfold interval_of. rewrite Hwin, Hv.
  rewrite Forall_forall in Hall.
  rewrite datetime_sub_naive in Hsub.
  - by injection Hsub as <-.
  - apply Hall. rewrite last_lookup in Hn. by apply list_elem_of_lookup_2 in Hn.
  - apply Hall. rewrite head_lookup in H0. by apply list_elem_of_lookup_2 in H0.
Qed.

(** C5 — Undefined case.  A pair whose window has no or one timestamp
    has no entry in the [/stats] payload. *)
Theorem get_stats_omits_short_windows w cutoff repo0 ty window :
  storage_faults w = [] →
  cutoff_text (utcnow w) = Ok cutoff →
  naive_timestamps (events w) →
  (get_recent_events repo0 ty w).1 = Ok window →
  (length window < 2)%nat →
  ∃ results w',
    get_stats w = (Ok results, w')
    ∧ stats_lookup results repo0 ty = None.
Proof.
  intros Hf Hcut Hnaive Hwin Hlen.
  destruct (get_recent_events_healthy w repo0 ty Hf) as (w1 & Hrun & _).
  rewrite Hrun in Hwin. simpl in Hwin.
  destruct (get_stats_healthy w cutoff Hf Hcut Hnaive) as (results & w' & Hstats & Hlook).
  exists results, w'. split; [done|].
  rewrite Hlook. unfold interval_of, average_interval. rewrite Hwin.
  apply Nat.ltb_lt in Hlen. by rewrite Hlen.
Qed.

(** C7 — Storage read errors.  When one of the storage operations of a
    [/stats] request fails, in the discovery of the pairs or in the
    query of a window, the request raises: it returns no payload, and
    with well-formed timestamps the exception is the storage failure
    itself.  A working store without matching data gives the empty
    payload. *)
Theorem get_stats_storage_errors w cutoff :
  cutoff_text (utcnow w) = Ok cutoff →
  (∀ e,
      consume (3 + 3 * length (select_distinct_pairs (events w) cutoff))
              (storage_faults w) = inl e →
      (∃ e', (get_stats w).1 = Raise e')
      ∧ (naive_timestamps (events w) → (get_stats w).1 = Raise e))
  ∧ (storage_faults w = [] →
     select_distinct_pairs (events w) cutoff = [] →
     (get_stats w).1 = Ok ∅).
Proof.
  intros Hcut. pose proof (get_stats_run w cutoff Hcut) as Hrun. split.
  - intros e Hfault. rewrite consume_add in Hfault.
    destruct (consume 3 (storage_faults w)) as [e0|fs].
    { injection Hfault as ->. destruct Hrun as (w' & ->). simpl. eauto. }
    destruct Hrun as (w1 & -> & Hf1 & He1 & Hn1).
    destruct (stats_loop_fault (select_distinct_pairs (events w) cutoff) ∅ w1 cutoff e)
      as [Hfail Hsame]; [by rewrite Hn1|by rewrite Hf1|].
    split; [done|]. intros Hnaive. apply Hsame. by rewrite He1.
  - intros Hf Hnone. rewrite Hf in Hrun. simpl in Hrun.
    destruct Hrun as (w1 & -> & _). by rewrite Hnone.
Qed.
End Stats.

(** C1 — Aggregation formula.  For the window [t0 .. tn] that
    [get_recent_events] selects for a pair, with at least one gap,
    [/stats] reports for the pair the span [tn - t0] in seconds divided
    by the number of gaps: the double nearest to the microseconds
    between the two instants over [10**6], divided by the number of
    gaps as a double.  That is not the mean of the individual
    consecutive differences: for four pushes 1.1 seconds apart the
    report is [1.0999999999999999], the span of 3.3 seconds over three
    gaps, where the mean of the three differences is [1.1]. *)
Theorem get_stats_average_interval :
  (∀ `{Library} w cutoff repo0 ty window,
      storage_faults w = [] →
      cutoff_text (utcnow w) = Ok cutoff →
      naive_timestamps (events w) →
      (get_recent_events repo0 ty w).1 = Ok window →
      (2 ≤ length window)%nat →
      ∃ results w' t0 tn,
        get_stats w = (Ok results, w')
        ∧ head window = Some t0 ∧ last window = Some tn
        ∧ stats_lookup results repo0 ty
          = Some (SFdiv 53 1024
                    (SFdiv 53 1024 (exact_int (instant tn - instant t0))
                                   (exact_int 1000000))
                    (binary_normalize 53 1024 (Z.of_nat (length window - 1)) 0 false)))
  ∧ ∃ results w',
      get_stats paced_world = (Ok results, w')
      ∧ (get_recent_events "o/r" (Some "PushEvent") paced_world).1 = Ok paced_times
      ∧ stats_lookup results "o/r" (Some "PushEvent")
        = Some (S754_finite false 4953959590107545 (-52))
      ∧ mean_of_deltas paced_times = S754_finite false 4953959590107546 (-52).
Proof.
  split.
  - intros lib w cutoff repo0 ty window Hf Hcut Hnaive Hwin Hlen.
    apply (get_stats_entry w cutoff repo0 ty window Hf Hcut Hnaive Hwin Hlen).
  - destruct (get_stats paced_world) as [[results|e] w'] eqn:Hrun;
      [|by vm_compute in Hrun].
    exists results, w'. split; [done|].
    assert ((get_stats paced_world).1 = Ok results) as Hres by (by rewrite Hrun).
    vm_compute in Hres. injection Hres as <-.
    split_and!; vm_compute; reflexivity.
Qed.

(** ** Feed Fetcher and Poll Scheduler *)

Section Polling.
Context `{Library}.

Lemma stored_insert_or_ignore_mono r r' t :
  stored r t → stored r (insert_or_ignore r' t).
Proof.
  destruct (insert_or_ignore_cases r' t) as [[-> _]|[-> _]]; [done|].
  intros [Hin|(x & Hx & Heq)]; [left|right; exists x; split; [|done]];
    apply elem_of_app; by left.
Qed.

Lemma stored_insert_or_ignore r t : stored r (insert_or_ignore r t).
Proof.
  destruct (insert_or_ignore_cases r t) as [[-> Hdup]|[-> _]]; [by right|].
  left. apply elem_of_app. right. by apply list_elem_of_singleton.
Qed.

Lemma stored_foldl_mono r rows t :
  stored r t → stored r (foldl (λ t r, insert_or_ignore r t) t rows).
Proof.
  revert t. induction rows as [|r' rows IH]; intros t Hs; simpl; [done|].
  by apply IH, stored_insert_or_ignore_mono.
Qed.

Lemma stored_foldl r rows t :
  r ∈ rows → stored r (foldl (λ t r, insert_or_ignore r t) t rows).
Proof.
  revert t. induction rows as [|r' rows IH]; intros t Hin; [by apply elem_of_nil in Hin|].
  simpl. apply elem_of_cons in Hin as [->|Hin]; [|by apply IH].
  apply stored_foldl_mono, stored_insert_or_ignore.
Qed.

(** The events of one response go to the store one by one. *)
Lemma insert_items_healthy items rows repo0 w :
  storage_faults w = [] →
  Forall2 (λ event r, row_of event repo0 = Ok r) items rows →
  ∃ w', for_each items (λ event, insert_event event repo0) w = (Ok tt, w')
        ∧ storage_faults w' = []
        ∧ github w' = github w
        ∧ REPOSITORIES w' = REPOSITORIES w
        ∧ events w' = foldl (λ t r, insert_or_ignore r t) (events w) rows.
Proof.
  intros Hf Hall. revert w Hf. induction Hall as [|ev r items rows Hr _ IH]; intros w Hf.
  - by exists w.
  - simpl. unfold bind. rewrite (insert_event_healthy w ev repo0 r Hf Hr).
    destruct (IH (committed (insert_or_ignore r (events w)) w))
      as (w' & Hrun & Hf' & Hg & Hrs & Hev); [done|].
    exists w'. by rewrite Hrun.
Qed.

(** A failed fetch is logged and leaves the store as it is. *)
Lemma fetch_repo_events_failure repo0 w :
  fetch_fails (github w repo0) →
  ∃ msg, fetch_repo_events repo0 w = (Ok tt, add_log (ERROR msg) w).
Proof.
  unfold fetch_repo_events, try_except, bind, requests_get, fetch_fails.
  destruct (github w repo0) as [e|status body].
  - intros He. destruct e; try discriminate; by eexists.
  - simpl. intros [Hs| ->].
    + apply Z.eqb_neq in Hs. rewrite Hs. by eexists.
    + destruct (status =? 200); by eexists.
Qed.

Lemma fetch_repo_events_success repo0 rows w :
  storage_faults w = [] →
  fetch_succeeds repo0 (github w repo0) rows →
  ∃ w', fetch_repo_events repo0 w = (Ok tt, w')
        ∧ storage_faults w' = []
        ∧ github w' = github w
        ∧ REPOSITORIES w' = REPOSITORIES w
        ∧ events w' = foldl (λ t r, insert_or_ignore r t) (events w) rows.
Proof.
  intros Hf (items & Hresp & Hall).
  unfold fetch_repo_events, try_except, bind, requests_get. rewrite Hresp. simpl.
  unfold logger_info, modify.
  destruct (insert_items_healthy items rows repo0
              (add_log (INFO "Fetched %d events for %s") w) Hf Hall)
    as (w' & -> & ? & ? & ? & ?).
  by exists w'.
Qed.

(** One fetch, failed or successful, returns normally; what was stored
    stays stored. *)
Lemma fetch_repo_events_isolated repo0 w :
  storage_faults w = [] →
  fetch_fails (github w repo0) ∨ (∃ rows, fetch_succeeds repo0 (github w repo0) rows) →
  ∃ w', fetch_repo_events repo0 w = (Ok tt, w')
        ∧ storage_faults w' = []
        ∧ github w' = github w
        ∧ REPOSITORIES w' = REPOSITORIES w
        ∧ (∀ r, stored r (events w) → stored r (events w'))
        ∧ (∀ rows r, fetch_succeeds repo0 (github w repo0) rows → r ∈ rows →
                     stored r (events w')).
Proof.
  intros Hf [Hfail|(rows & Hok)].
  - destruct (fetch_repo_events_failure repo0 w Hfail) as (msg & ->).
    eexists. split_and!; [done..|].
    intros rows r (items & Hresp & _). rewrite Hresp in Hfail.
    destruct Hfail; done.
  - destruct (fetch_repo_events_success repo0 rows w Hf Hok)
      as (w' & -> & Hf' & Hg & Hrs & Hev).
    exists w'. split_and!; [done..| |].
    + intros r. rewrite Hev. apply stored_foldl_mono.
    + intros rows' r (items' & Hresp' & Hall') Hin.
      destruct Hok as (items & Hresp & Hall). rewrite Hresp in Hresp'.
      injection Hresp' as <-.
      assert (rows' = rows) as ->.
      { clear -Hall Hall'. revert rows' Hall'.
        induction Hall as [|ev r0 items rows Hr _ IH]; intros rows' Hall'.
        - by inversion Hall'.
        - inversion Hall' as [|? r1 ? rows1 Hr1 Hrest]; subst.
          f_equal; [congruence|by apply IH]. }
      rewrite Hev. by apply stored_foldl.
Qed.

Lemma poll_loop repos w :
  storage_faults w = [] →
  (∀ repo0, repo0 ∈ repos →
            fetch_fails (github w repo0)
            ∨ ∃ rows, fetch_succeeds repo0 (github w repo0) rows) →
  ∃ w', for_each repos fetch_repo_events w = (Ok tt, w')
        ∧ github w' = github w
        ∧ (∀ r, stored r (events w) → stored r (events w'))
        ∧ (∀ repo0 rows r,
              repo0 ∈ repos → fetch_succeeds repo0 (github w repo0) rows → r ∈ rows →
              stored r (events w')).
Proof.
  revert w. induction repos as [|repo1 repos IH]; intros w Hf Hall.
  - exists w. split_and!; [done..|]. intros ? ? ? []%elem_of_nil.
  - simpl. unfold bind.
    destruct (fetch_repo_events_isolated repo1 w Hf) as (w1 & -> & Hf1 & Hg1 & _ & Hm1 & Hs1).
    { apply Hall, elem_of_cons. by left. }
    destruct (IH w1 Hf1) as (w' & -> & Hg & Hm & Hs).
    { intros repo0 Hin. rewrite Hg1. apply Hall, elem_of_cons. by right. }
    exists w'. split_and!; [done|by rewrite Hg, Hg1|by intros r ?%Hm1%Hm|].
    intros repo0 rows r [->|Hin]%elem_of_cons Hok Hr.
    + by apply Hm, (Hs1 rows).
    + apply (Hs repo0 rows); [done| |done]. by rewrite Hg1.
Qed.

(** C6 — Failure isolation.  On a working store, when every configured
    repository either fails to be fetched (request exception, status
    other than 200, body that is not JSON) or is fetched successfully,
    the poll cycle returns without raising, and the events of every
    successful fetch are stored. *)
Theorem poll_github_events_isolates_failures w :
  storage_faults w = [] →
  (∀ repo0, repo0 ∈ REPOSITORIES w →
            fetch_fails (github w repo0)
            ∨ ∃ rows, fetch_succeeds repo0 (github w repo0) rows) →
  ∃ w', poll_github_events w = (Ok tt, w')
        ∧ ∀ repo0 rows r,
            repo0 ∈ REPOSITORIES w →
            fetch_succeeds repo0 (github w repo0) rows →
            r ∈ rows →
            stored r (events w').
Proof.
  intros Hf Hall. unfold poll_github_events, bind, logger_info, modify, gets.
  destruct (poll_loop (REPOSITORIES w) (add_log (INFO "Polling GitHub events...") w))
    as (w' & Hrun & _ & _ & Hs); [done..|].
  simpl. exists w'. split; [done|]. intros repo0 rows r. apply Hs.
Qed.
End Polling.

(** ** The properties on the worked examples *)

(** The rows kept are not always the most recent ones: of 501 events
    of one second, the window leaves out the most recent one. *)
Lemma count_bound_counterexample :
  ¬ (∀ w repo0 ty cutoff r k sr sk age_r age_k,
        storage_faults w = [] →
        cutoff_text (utcnow w) = Ok cutoff →
        (MAX_EVENTS < length (filter (λ r, in_window repo0 ty cutoff r = true)
                                     (events w)))%nat →
        r ∈ events w → in_window repo0 ty cutoff r = true →
        r ∉ window_rows (events w) (utcnow w) repo0 ty →
        k ∈ window_rows (events w) (utcnow w) repo0 ty →
        created_at r = Some sr → age_of (utcnow w) sr = Ok age_r →
        created_at k = Some sk → age_of (utcnow w) sk = Ok age_k →
        age_k ≤ age_r).
Proof.
  intros Hclaim.
  assert (3600400000 ≤ 3599600000) as Habsurd; [|lia].
  apply (Hclaim same_second_world "o/r" (Some "PushEvent") noon_cutoff
                late_push (early_push 1)
                "2026-11-03T11:00:00.900000Z" "2026-11-03T11:00:00.100000Z").
  - reflexivity.
  - vm_compute. reflexivity.
  - vm_compute. lia.
  - apply elem_of_cons. by left.
  - vm_compute. reflexivity.
  - apply (bool_decide_eq_true_1 _). vm_compute. reflexivity.
  - apply (bool_decide_eq_true_1 _). vm_compute. reflexivity.
  - reflexivity.
  - vm_compute. reflexivity.
  - reflexivity.
  - vm_compute. reflexivity.
Qed.

(** C3 — Window count bound, on an input where it fails.  At
    2026-11-03 12:00:00.5 UTC the table holds 501 pushes of one pair,
    all of the last hour: one of 11:00:00.9, stored first, and 500 of
    11:00:00.1.  All of them pass the time bound.  [ORDER BY
    datetime(created_at)] reads the timestamps to the whole second and
    leaves the 501 rows in the order they were stored, and
    [get_recent_events] returns the 500 timestamps of 11:00:00.1: the
    event left out is the most recent one, against its documentation
    "return only the most recent MAX_EVENTS". *)
Theorem get_recent_events_same_second :
  events same_second_world = late_push :: (early_push <$> seq 1 500)
  ∧ cutoff_text (utcnow same_second_world) = Ok noon_cutoff
  ∧ length (filter (λ r, in_window "o/r" (Some "PushEvent") noon_cutoff r = true)
                   (events same_second_world)) = 501%nat
  ∧ (get_recent_events "o/r" (Some "PushEvent") same_second_world).1
    = Ok (replicate 500 (mk_datetime 2026 11 3 11 0 0 100000 None))
  ∧ (late_push ∉ window_rows (events same_second_world) (utcnow same_second_world)
                             "o/r" (Some "PushEvent"))
  ∧ created_at late_push = Some "2026-11-03T11:00:00.900000Z"
  ∧ fromisoformat (remove_Z "2026-11-03T11:00:00.900000Z")
    = Ok (mk_datetime 2026 11 3 11 0 0 900000 None)
  ∧ age_of (utcnow same_second_world) "2026-11-03T11:00:00.900000Z" = Ok 3599600000
  ∧ age_of (utcnow same_second_world) "2026-11-03T11:00:00.100000Z" = Ok 3600400000.
Proof.
  split_and!; try (vm_compute; reflexivity).
  apply (bool_decide_eq_true_1 _). vm_compute. reflexivity.
Qed.

Lemma naive_check_sound `{Library} t : naive_check t = true → naive_timestamps t.
Proof.
  unfold naive_check. rewrite forallb_forall. intros Hall r s Hr Hs.
  specialize (Hall r). rewrite Hs in Hall.
  destruct (fromisoformat (remove_Z s)) as [tm|].
  - exists tm. split; [done|].
    apply (bool_decide_eq_true_1 _), Hall. by apply list_elem_of_In.
  - discriminate Hall. by apply list_elem_of_In.
Qed.

Lemma get_stats_average_interval_witness :
  ∃ results w',
    get_stats after_five = (Ok results, w')
    ∧ (get_recent_events "o/r" (Some "PushEvent") after_five).1 = Ok five_times
    ∧ stats_lookup results "o/r" (Some "PushEvent")
      = Some (S754_finite false 5277655813324800 (-44))
    ∧ ∃ q, float_value (S754_finite false 5277655813324800 (-44)) = Some q
           ∧ (q == 300)%Q.
Proof.
  destruct get_stats_average_interval as [Hall _].
  destruct (Hall Iso8601.library after_five noon_cutoff "o/r" (Some "PushEvent")
              five_times) as (results & w' & t0 & tn & Hrun & H0 & Hn & Hv).
  - reflexivity.
  - vm_compute. reflexivity.
  - apply naive_check_sound. vm_compute. reflexivity.
  - vm_compute. reflexivity.
  - simpl. lia.
  - injection H0 as <-. injection Hn as <-.
    exists results, w'. split_and!; [done|vm_compute; reflexivity|exact Hv|].
    eexists. split; reflexivity.
Defined.

(** The scenario of the specification: five pushes 300 seconds apart
    give 300.0. *)
Example stats_five_pushes :
  ∃ v, match (get_stats after_five).1 with
       | Ok results => stats_lookup results "o/r" (Some "PushEvent")
       | Raise _ => None
       end = Some v
       ∧ v = S754_finite false 5277655813324800 (-44)
       ∧ ∃ q, float_value v = Some q ∧ (q == 300)%Q.
Proof.
  eexists. split_and!; [vm_compute; reflexivity|reflexivity|].
  eexists. split; reflexivity.
Qed.

Lemma get_stats_omits_short_windows_witness :
  ∃ results w',
    get_stats after_push_1 = (Ok results, w')
    ∧ stats_lookup results "o/r" (Some "PushEvent") = None.
Proof.
  apply (get_stats_omits_short_windows after_push_1 noon_cutoff "o/r" (Some "PushEvent")
           [mk_datetime 2026 11 3 11 0 0 0 None]).
  - reflexivity.
  - vm_compute. reflexivity.
  - apply naive_check_sound. vm_compute. reflexivity.
  - vm_compute. reflexivity.
  - simpl. lia.
Defined.

Lemma get_stats_storage_errors_witness :
  ((∃ e', (get_stats failing_store).1 = Raise e')
   ∧ (naive_timestamps (events failing_store) →
      (get_stats failing_store).1 = Raise OperationalError))
  ∧ (get_stats (fresh noon)).1 = Ok ∅.
Proof.
  split.
  - destruct (get_stats_storage_errors failing_store noon_cutoff) as [Hfail _].
    + vm_compute. reflexivity.
    + apply Hfail. vm_compute. reflexivity.
  - destruct (get_stats_storage_errors (fresh noon) noon_cutoff) as [_ Hempty].
    + vm_compute. reflexivity.
    + apply Hempty; reflexivity.
Defined.

Example get_stats_failing_store :
  (get_stats failing_store).1 = Raise OperationalError.
Proof. vm_compute. reflexivity. Qed.

Lemma poll_github_events_isolates_failures_witness :
  ∃ w', poll_github_events poll_world = (Ok tt, w')
        ∧ ∀ repo0 rows r,
            repo0 ∈ REPOSITORIES poll_world →
            fetch_succeeds repo0 (github poll_world repo0) rows →
            r ∈ rows →
            stored r (events w').
Proof.
  apply (poll_github_events_isolates_failures poll_world).
  - reflexivity.
  - intros repo0 Hin. simpl in Hin.
    repeat (apply elem_of_cons in Hin as [->|Hin]); [| | | |by apply elem_of_nil in Hin].
    + left. reflexivity.
    + right. exists five_rows. exists five_pushes. split; [reflexivity|].
      repeat constructor.
    + left. left. done.
    + left. right. reflexivity.
Defined.

Example poll_world_events :
  events (poll_github_events poll_world).2 = five_rows.
Proof. vm_compute. reflexivity. Qed.

(** A 200 answer whose JSON is an object, not an array of events, is
    not among the failures [fetch_repo_events] contains: the keys of the
    object are handed to [insert_event], whose [event.get] raises, and
    the cycle stops there. *)
Example poll_object_body :
  (poll_github_events object_world).1 = Raise AttributeError
  ∧ events (poll_github_events object_world).2 = [].
Proof. vm_compute. split; reflexivity. Qed.

(** * Further properties *)

(** ** The state-and-exception monad *)

Lemma for_each_app {W A} (xs ys : list A) (body : A → M W unit) w :
  for_each (xs ++ ys) body w = bind (for_each xs body) (λ _, for_each ys body) w.
Proof.
  revert w. induction xs as [|x xs IH]; intros w; simpl.
  - unfold bind, ret. done.
  - unfold bind in *. destruct (body x w) as [[[]|e] w1]; [|done]. apply IH.
Qed.

Lemma for_fold_invariant {W A S} (P : S → Prop) (xs : list A) (body : S → A → M W S) :
  (∀ s x w s' w', P s → body s x w = (Ok s', w') → P s') →
  ∀ s w s' w', P s → for_fold xs s body w = (Ok s', w') → P s'.
Proof.
  intros Hb. induction xs as [|x xs IH]; intros s w s' w' Hs; simpl.
  - unfold ret. by intros [= <- _].
  - unfold bind. destruct (body s x w) as [[s1|e] w1] eqn:Hx; [|done].
    apply IH. by apply (Hb s x w s1 w1).
Qed.

Lemma comprehension_raises {A B} (f : A → result B) xs x e :
  x ∈ xs → f x = Raise e → ∃ e', comprehension f xs = Raise e'.
Proof.
  induction xs as [|y xs IH]; intros Hin Hx; [by apply elem_of_nil in Hin|].
  simpl. destruct (f y) as [b|e1] eqn:Hy; [|by eexists].
  apply elem_of_cons in Hin as [->|Hin]; [congruence|].
  destruct (IH Hin Hx) as [e' ->]. by eexists.
Qed.

Lemma try_except_events {A} (body : Py A) handler w :
  (∀ e m w0, handler e = Some m → events (m w0).2 = events w0) →
  events (try_except body handler w).2 = events (body w).2.
Proof.
  intros Hh. unfold try_except. destruct (body w) as [[a|e] w1]; [done|].
  destruct (handler e) as [m|] eqn:Hm; [|done]. apply (Hh e m w1 Hm).
Qed.

(** ** Steps that only read *)

Lemma unchanged_refl w : unchanged w w.
Proof. by repeat split. Qed.

Lemma unchanged_trans w1 w2 w3 : unchanged w1 w2 → unchanged w2 w3 → unchanged w1 w3.
Proof. unfold unchanged. intros ? ?. destruct_and!. split_and!; congruence. Qed.

Lemma reads_bind {A B} (m : Py A) (k : A → Py B) :
  reads m → (∀ a, reads (k a)) → reads (bind m k).
Proof.
  intros Hm Hk w. unfold bind. specialize (Hm w).
  destruct (m w) as [[a|e] w1]; simpl in *; [|done].
  eapply unchanged_trans; [done|apply Hk].
Qed.

Lemma reads_ret {A} (a : A) : reads (ret a).
Proof. intros w. apply unchanged_refl. Qed.

Lemma reads_lift {A} (r : result A) : reads (lift r).
Proof. intros w. apply unchanged_refl. Qed.

Lemma reads_gets {A} (f : world → A) : reads (gets f).
Proof. intros w. apply unchanged_refl. Qed.

Lemma reads_storage_operation : reads storage_operation.
Proof.
  intros w. unfold storage_operation.
  destruct (storage_faults w) as [|[e|] fs]; by repeat split.
Qed.

Lemma reads_conn_close : reads conn_close.
Proof. intros w. by repeat split. Qed.

Lemma reads_for_fold {A S} (xs : list A) (s : S) (body : S → A → Py S) :
  (∀ s x, reads (body s x)) → reads (for_fold xs s body).
Proof.
  intros Hb. revert s. induction xs as [|x xs IH]; intros s; simpl.
  - apply reads_ret.
  - apply reads_bind; [apply Hb|apply IH].
Qed.

Ltac reads_steps :=
  repeat (first [ apply reads_bind; [|intros ?] | apply reads_storage_operation
                | apply reads_gets | apply reads_lift | apply reads_ret
                | apply reads_conn_close ]).

(** ** Runs of [INSERT OR IGNORE] *)

Lemma inserted_into_refl t : inserted_into t t.
Proof. by exists []. Qed.

Lemma inserted_into_trans t1 t2 t3 :
  inserted_into t1 t2 → inserted_into t2 t3 → inserted_into t1 t3.
Proof. intros [r1 ->] [r2 ->]. exists (r1 ++ r2). by rewrite foldl_app. Qed.

Lemma inserted_into_one r t : inserted_into t (insert_or_ignore r t).
Proof. by exists [r]. Qed.

Lemma insert_or_ignore_prefix r t : t `prefix_of` insert_or_ignore r t.
Proof.
  destruct (insert_or_ignore_cases r t) as [[-> _]|[-> _]]; [done|].
  by apply prefix_app_r.
Qed.

Lemma inserted_into_prefix t t' : inserted_into t t' → t `prefix_of` t'.
Proof.
  intros [rows ->]. revert t. induction rows as [|r rows IH]; intros t; simpl; [done|].
  etrans; [apply (insert_or_ignore_prefix r)|apply IH].
Qed.

Lemma inserted_into_unique t t' : inserted_into t t' → unique_ids t → unique_ids t'.
Proof.
  intros [rows ->]. revert t. induction rows as [|r rows IH]; intros t Hu; simpl; [done|].
  by apply IH, insert_or_ignore_unique.
Qed.

Lemma foldl_insert_or_ignore_conflicts rows t :
  (∀ r, r ∈ rows → ∃ r', r' ∈ t ∧ sql_eq (id r') (id r) = true) →
  foldl (λ t r, insert_or_ignore r t) t rows = t.
Proof.
  induction rows as [|r rows IH]; intros Hall; [done|]. simpl.
  rewrite (insert_or_ignore_conflict r t); [|apply Hall, elem_of_cons; by left].
  apply IH. intros r' Hr'. apply Hall, elem_of_cons. by right.
Qed.

Lemma stored_conflict r t :
  stored r t → is_Some (id r) → ∃ r', r' ∈ t ∧ sql_eq (id r') (id r) = true.
Proof.
  intros [Hin|Hdup] [k Hk]; [|done]. exists r. split; [done|].
  rewrite Hk. simpl. by apply bool_decide_eq_true.
Qed.

(** ** Configuration Loader: [load_config] and the module initialisation *)

Section Configuration.
Context `{Library}.

(** X1 — The configuration file that is missing, malformed or
    unreadable.  When the file is absent, or holds text that is not a
    JSON document, [load_config] does not raise: it logs one error and
    returns the empty list; the module then starts with no repository,
    and a poll cycle returns without fetching anything and leaves the
    table as it is.  When the file cannot be opened or decoded
    ([PermissionError], [IsADirectoryError], another [OSError],
    [UnicodeDecodeError]), no [except] clause matches: [load_config]
    raises that exception without logging, and the module
    initialisation raises it too. *)
Theorem load_config_unreadable w :
  (config_file w = ConfigMissing ∨ config_file w = ConfigInvalid →
   (∃ msg, load_config w = (Ok [], add_log (ERROR msg) w))
   ∧ ∃ w1 w2, module_init w = (Ok tt, w1)
              ∧ REPOSITORIES w1 = []
              ∧ poll_github_events w1 = (Ok tt, w2)
              ∧ events w2 = events w)
  ∧ (∀ e, config_file w = ConfigUnreadable e →
          isinstance e FileNotFoundError = false →
          isinstance e JSONDecodeError = false →
          load_config w = (Raise e, w) ∧ module_init w = (Raise e, w)).
Proof.
  split.
  - intros Hc.
    assert (∃ msg, load_config w = (Ok [], add_log (ERROR msg) w)) as [msg Hload].
    { unfold load_config, try_except, bind, open_and_load.
      destruct Hc as [-> | ->]; simpl; by eexists. }
    split; [by exists msg|].
    unfold module_init, bind. rewrite Hload. unfold modify.
    eexists _, _. split_and!; done.
  - intros e Hc Hmissing Hjson.
    assert (load_config w = (Raise e, w)) as Hload.
    { unfold load_config, try_except, bind, open_and_load. rewrite Hc.
      by rewrite Hmissing, Hjson. }
    split; [done|]. unfold module_init, bind. by rewrite Hload.
Qed.

(** X2 — Module initialisation.  For a configuration file that is
    absent, holds text that is not JSON, or holds a JSON object whose
    members are lists of names, [REPOSITORIES = load_config()] does
    not raise and leaves at most [MAX_REPOS] names: a prefix of the
    configured list (the empty list when the object has no
    ["repositories"] member), and no name at all when the file is
    absent or is not JSON.  The table is not touched.  (A file that
    cannot be opened or decoded makes the initialisation raise.) *)
Theorem module_init_bounds w :
  (∀ e, config_file w ≠ ConfigUnreadable e) →
  ∃ w', module_init w = (Ok tt, w')
        ∧ (length (REPOSITORIES w') ≤ MAX_REPOS)%nat
        ∧ events w' = events w
        ∧ match config_file w with
          | ConfigObject members =>
              REPOSITORIES w' `prefix_of` default [] (members !! "repositories")
          | _ => REPOSITORIES w' = []
          end.
Proof.
  intros Hreadable.
  unfold module_init, load_config, try_except, bind, open_and_load, modify.
  destruct (config_file w) as [|e| |members] eqn:Hc; simpl.
  - eexists. split_and!; [done|simpl; lia|done|done].
  - by destruct (Hreadable e).
  - eexists. split_and!; [done|simpl; lia|done|done].
  - eexists. split_and!; [done| |done|]; simpl.
    + destruct (Nat.ltb_spec MAX_REPOS (length (default [] (members !! "repositories"))));
        [rewrite length_take|]; lia.
    + destruct (_ <? _)%nat; [apply prefix_take|done].
Qed.
End Configuration.

Lemma load_config_unreadable_witness :
  ((∃ msg, load_config (fresh noon) = (Ok [], add_log (ERROR msg) (fresh noon)))
   ∧ ∃ w1 w2, module_init (fresh noon) = (Ok tt, w1)
              ∧ REPOSITORIES w1 = []
              ∧ poll_github_events w1 = (Ok tt, w2)
              ∧ events w2 = events (fresh noon))
  ∧ load_config latin1_config = (Raise UnicodeDecodeError, latin1_config)
  ∧ module_init latin1_config = (Raise UnicodeDecodeError, latin1_config).
Proof.
  destruct (load_config_unreadable (fresh noon)) as [Hcaught _].
  destruct (load_config_unreadable latin1_config) as [_ Hescapes].
  split; [apply Hcaught; left; reflexivity|].
  apply (Hescapes UnicodeDecodeError); reflexivity.
Defined.

Lemma module_init_bounds_witness :
  ∃ w', module_init (with_config eight_repos) = (Ok tt, w')
        ∧ (length (REPOSITORIES w') ≤ MAX_REPOS)%nat
        ∧ events w' = events (with_config eight_repos)
        ∧ REPOSITORIES w' `prefix_of` eight_repos.
Proof.
  apply (module_init_bounds (with_config eight_repos)). intros e. discriminate.
Defined.

(** ** Event Store: [insert_event] in any state of the store *)

Section InsertAnyState.
Context `{Library}.

(** Whatever the event and the state of the store, a call of
    [insert_event] leaves the table as it is or completes the
    [INSERT OR IGNORE] of the record of the event. *)
Lemma insert_event_cases w event repo0 :
  events (insert_event event repo0 w).2 = events w
  ∨ ∃ r, row_of event repo0 = Ok r
         ∧ (insert_event event repo0 w).1 = Ok tt
         ∧ events (insert_event event repo0 w).2 = insert_or_ignore r (events w).
Proof.
  unfold insert_event, sqlite3_connect, try_finally, try_except, bind, lift,
    execute_insert_or_ignore, conn_commit, conn_close, storage_operation, modify,
    logger_error, bind, lift.
  destruct w as [cfg repos t unc fs now gh lg]. simpl.
  destruct fs as [|[e1|] fs]; simpl; [|by left|].
  - destruct event; simpl; try (by left).
    unfold row_of. simpl.
    destruct (bind_text (default PNone (d !! "id"))) as [i|e]; simpl;
      [|destruct e; simpl; by left].
    destruct (bind_text (default PNone (d !! "type"))) as [ty|e]; simpl;
      [|destruct e; simpl; by left].
    destruct (bind_text (default PNone (d !! "created_at"))) as [c|e]; simpl;
      [|destruct e; simpl; by left].
    right. by eexists.
  - destruct event; simpl; try (by left).
    unfold row_of. simpl.
    destruct (bind_text (default PNone (d !! "id"))) as [i|e]; simpl;
      [|destruct e; simpl; by left].
    destruct (bind_text (default PNone (d !! "type"))) as [ty|e]; simpl;
      [|destruct e; simpl; by left].
    destruct (bind_text (default PNone (d !! "created_at"))) as [c|e]; simpl;
      [|destruct e; simpl; by left].
    destruct fs as [|[e2|] fs]; simpl.
    + right. by eexists.
    + destruct e2; simpl; by left.
    + destruct fs as [|[e3|] fs]; simpl.
      * right. by eexists.
      * destruct e3; simpl; by left.
      * right. by eexists.
Qed.

Lemma insert_event_inserted w event repo0 :
  inserted_into (events w) (events (insert_event event repo0 w).2).
Proof.
  destruct (insert_event_cases w event repo0) as [->|(r & _ & _ & ->)].
  - apply inserted_into_refl.
  - apply inserted_into_one.
Qed.

(** An event that is not a JSON object: [event.get] raises inside the
    [try], no handler matches, the connection is closed and the
    exception reaches the caller. *)
Lemma insert_event_not_an_object w event repo0 fs :
  (∀ d, event ≠ PDict d) →
  consume 1 (storage_faults w) = inr fs →
  ∃ w', insert_event event repo0 w = (Raise AttributeError, w')
        ∧ events w' = events w ∧ uncommitted w' = None
        ∧ storage_faults w' = fs ∧ log w' = log w.
Proof.
  intros Hnd Hconnect.
  unfold insert_event, sqlite3_connect, try_finally, try_except, bind, lift,
    conn_close, storage_operation, modify.
  destruct w as [cfg repos tbl unc fs0 now gh lg]. simpl in *.
  destruct fs0 as [|[e1|] fs0]; simpl in *; [|done|]; injection Hconnect as <-;
    (destruct event; [..|by destruct (Hnd d)]); simpl; by eexists.
Qed.

(** X3 — The store is append-only.  Whatever the event and whatever
    the state of the storage layer, [insert_event] never removes or
    alters a stored record: the table before the call is a prefix of
    the table after it, which has at most one record more. *)
Theorem insert_event_append_only w event repo0 :
  events w `prefix_of` events (insert_event event repo0 w).2
  ∧ (length (events (insert_event event repo0 w).2) ≤ S (length (events w)))%nat.
Proof.
  split; [apply inserted_into_prefix, insert_event_inserted|].
  destruct (insert_event_cases w event repo0) as [->|(r & _ & _ & ->)]; [lia|].
  destruct (insert_or_ignore_cases r (events w)) as [[-> _]|[-> _]]; [lia|].
  rewrite length_app. simpl. lia.
Qed.

(** X4 — Database errors are swallowed.  When the connection is
    opened and [execute] or [commit] then raises an exception of the
    [sqlite3.DatabaseError] family, [insert_event] returns normally:
    it logs one error, the event is not stored, and no write is left
    pending. *)
Theorem insert_event_database_error w event repo0 r fs e :
  row_of event repo0 = Ok r →
  consume 1 (storage_faults w) = inr fs →
  consume 2 fs = inl e →
  isinstance e DatabaseError = true →
  ∃ msg w', insert_event event repo0 w = (Ok tt, w')
            ∧ events w' = events w
            ∧ uncommitted w' = None
            ∧ log w' = ERROR msg :: log w.
Proof.
  intros (d & i & t & c & -> & Hi & Ht & Hc & ->)%row_of_inv Hconnect Hfault He.
  unfold insert_event, sqlite3_connect, try_finally, try_except, bind, lift,
    execute_insert_or_ignore, conn_commit, conn_close, storage_operation, modify,
    logger_error, bind, lift.
  destruct w as [cfg repos tbl unc fs0 now gh lg]. simpl in *.
  rewrite Hi, Ht, Hc. simpl.
  destruct fs0 as [|[e1|] fs0]; simpl in *; [by simplify_eq|done|].
  injection Hconnect as <-.
  destruct fs0 as [|[e2|] fs0]; simpl in *; [done| |].
  - injection Hfault as ->. destruct e; try discriminate; simpl; by eexists _, _.
  - destruct fs0 as [|[e3|] fs0]; simpl in *; [done| |done].
    injection Hfault as ->. destruct e; try discriminate; simpl; by eexists _, _.
Qed.

(** X5 — What is written is what the reads find.  After the insert
    of an event with a new id, a type and a [created_at] text that is
    not below the cutoff text, the record is among the rows the window
    query selects for the repository it was inserted for and for its
    type, and the pair is among those the discovery query of
    [get_stats] lists. *)
Theorem insert_event_then_selected w event repo0 r ty s cutoff :
  storage_faults w = [] →
  row_of event repo0 = Ok r →
  (∀ r', r' ∈ events w → sql_eq (id r') (id r) = false) →
  event_type r = Some ty →
  created_at r = Some s →
  text_le cutoff s = true →
  ∃ w', insert_event event repo0 w = (Ok tt, w')
        ∧ r ∈ select_window_rows (events w') repo0 (Some ty) cutoff
        ∧ (repo0, Some ty) ∈ select_distinct_pairs (events w') cutoff.
Proof.
  intros Hf Hrow Hfresh Hty Hs Hle.
  rewrite (insert_event_healthy w event repo0 r Hf Hrow).
  rewrite (insert_or_ignore_fresh r (events w) Hfresh).
  eexists. split; [done|]. rewrite committed_events.
  assert (repo r = repo0) as Hrepo.
  { apply row_of_inv in Hrow as (d & i & t & c & _ & _ & _ & _ & ->). done. }
  assert (r ∈ events w ++ [r]) as Hin.
  { apply elem_of_app. right. by apply list_elem_of_singleton. }
  split.
  - apply elem_of_select_window_rows. split; [done|].
    apply in_window_true. split_and!; [done| |by eexists].
    rewrite Hty. simpl. by apply bool_decide_eq_true.
  - unfold select_distinct_pairs. apply elem_of_distinct, list_elem_of_fmap.
    exists r. split; [by rewrite Hrepo, Hty|].
    apply list_elem_of_filter. split; [|done]. by rewrite Hs.
Qed.
End InsertAnyState.

Lemma insert_event_database_error_witness :
  ∃ msg w', insert_event push_2 "o/r" locked_store = (Ok tt, w')
            ∧ events w' = events locked_store
            ∧ uncommitted w' = None
            ∧ log w' = ERROR msg :: log locked_store.
Proof.
  apply (insert_event_database_error locked_store push_2 "o/r" push_2_row
           [None; Some OperationalError] OperationalError).
  - vm_compute. reflexivity.
  - reflexivity.
  - reflexivity.
  - reflexivity.
Defined.

Lemma insert_event_then_selected_witness :
  ∃ w', insert_event push_2 "o/r" after_push_1 = (Ok tt, w')
        ∧ push_2_row ∈ select_window_rows (events w') "o/r" (Some "PushEvent") noon_cutoff
        ∧ ("o/r", Some "PushEvent") ∈ select_distinct_pairs (events w') noon_cutoff.
Proof.
  apply (insert_event_then_selected after_push_1 push_2 "o/r" push_2_row "PushEvent"
           "2026-11-03T11:05:00Z" noon_cutoff).
  - reflexivity.
  - vm_compute. reflexivity.
  - intros r' Hin. apply list_elem_of_In in Hin. vm_compute in Hin.
    destruct Hin as [<-|[]]. reflexivity.
  - reflexivity.
  - reflexivity.
  - vm_compute. reflexivity.
Defined.

(** ** Feed Fetcher and Poll Scheduler in any state *)

Section FetchAnyState.
Context `{Library}.

Lemma insert_items_inserted items repo0 w :
  inserted_into (events w)
                (events (for_each items (λ event, insert_event event repo0) w).2).
Proof.
  revert w. induction items as [|event items IH]; intros w; [apply inserted_into_refl|].
  simpl. unfold bind.
  pose proof (insert_event_inserted w event repo0) as Hone.
  destruct (insert_event event repo0 w) as [[[]|e] w1]; simpl in *; [|done].
  eapply inserted_into_trans; [done|apply IH].
Qed.

Lemma fetch_repo_events_inserted repo0 w :
  inserted_into (events w) (events (fetch_repo_events repo0 w).2).
Proof.
  unfold fetch_repo_events. rewrite try_except_events.
  2:{ intros e m w0. destruct e; simpl; intros [= <-]; done. }
  unfold bind, requests_get. destruct (github w repo0) as [e|status body]; simpl;
    [apply inserted_into_refl|].
  destruct (status =? 200); [|apply inserted_into_refl].
  unfold lift. destruct (response_json body) as [v|e]; simpl; [|apply inserted_into_refl].
  destruct (py_len v) as [n|e]; simpl; [|apply inserted_into_refl].
  destruct (py_iter v) as [items|e]; simpl; [|apply inserted_into_refl].
  apply (insert_items_inserted items repo0 (add_log _ w)).
Qed.

Lemma poll_loop_inserted repos w :
  inserted_into (events w) (events (for_each repos fetch_repo_events w).2).
Proof.
  revert w. induction repos as [|repo0 repos IH]; intros w; [apply inserted_into_refl|].
  simpl. unfold bind.
  pose proof (fetch_repo_events_inserted repo0 w) as Hone.
  destruct (fetch_repo_events repo0 w) as [[[]|e] w1]; simpl in *; [|done].
  eapply inserted_into_trans; [done|apply IH].
Qed.

Lemma poll_github_events_inserted w :
  inserted_into (events w) (events (poll_github_events w).2).
Proof.
  unfold poll_github_events, bind, logger_info, modify, gets. simpl.
  apply (poll_loop_inserted (REPOSITORIES w) (add_log _ w)).
Qed.

(** X6 — No rollback within a batch.  When the body of a 200 answer
    holds, after some well-formed events, an element that is not an
    object, [fetch_repo_events] raises [AttributeError]; the events
    before that element have been stored, each by its own committed
    insert, and the elements after it are not looked at. *)
Theorem fetch_repo_events_partial_batch w repo0 body good bad rest rows :
  storage_faults w = [] →
  github w repo0 = HttpResponse 200 (Some body) →
  py_iter body = Ok (good ++ bad :: rest) →
  Forall2 (λ event r, row_of event repo0 = Ok r) good rows →
  (∀ d, bad ≠ PDict d) →
  ∃ w', fetch_repo_events repo0 w = (Raise AttributeError, w')
        ∧ events w' = foldl (λ t r, insert_or_ignore r t) (events w) rows.
Proof.
  intros Hf Hresp Hiter Hgood Hbad.
  unfold fetch_repo_events, try_except, bind at 1, requests_get. rewrite Hresp. simpl.
  unfold bind at 1, lift at 1. simpl.
  assert (∃ n, py_len body = Ok n) as [n Hlen] by (destruct body; try done; by eexists).
  unfold bind at 1, lift at 1. rewrite Hlen.
  unfold bind at 1, logger_info, modify.
  unfold bind at 1, lift at 1. rewrite Hiter.
  rewrite for_each_app. unfold bind at 1.
  destruct (insert_items_healthy good rows repo0
              (add_log (INFO "Fetched %d events for %s") w) Hf Hgood)
    as (w1 & -> & Hf1 & _ & _ & Hev).
  simpl. unfold bind at 1.
  destruct (insert_event_not_an_object w1 bad repo0 [] Hbad) as (w2 & -> & Hev2 & _);
    [by rewrite Hf1|].
  simpl. exists w2. split; [done|]. by rewrite Hev2, Hev.
Qed.

(** X7 — A body without a length.  A 200 answer whose JSON body is
    [null], a boolean or a number makes [fetch_repo_events] raise
    [TypeError], from [len(events)]: the exception is none of those
    the function handles, and the state is left as it was. *)
Theorem fetch_repo_events_scalar_body w repo0 body :
  github w repo0 = HttpResponse 200 (Some body) →
  py_len body = Raise TypeError →
  fetch_repo_events repo0 w = (Raise TypeError, w).
Proof.
  intros Hresp Hlen.
  unfold fetch_repo_events, try_except, bind, requests_get, lift. rewrite Hresp. simpl.
  by rewrite Hlen.
Qed.

(** X8 — A store that cannot be opened stops the cycle.  When the
    first configured repository answers 200 with at least one event
    and [sqlite3.connect] raises a database error, the exception
    leaves [insert_event], [fetch_repo_events] and
    [poll_github_events]: the cycle ends there, nothing is stored and
    the other repositories are not fetched. *)
Theorem poll_github_events_connect_failure w repo0 others event items e fs :
  REPOSITORIES w = repo0 :: others →
  github w repo0 = HttpResponse 200 (Some (PList (event :: items))) →
  storage_faults w = Some e :: fs →
  isinstance e DatabaseError = true →
  ∃ w', poll_github_events w = (Raise e, w')
        ∧ events w' = events w
        ∧ log w' = INFO "Fetched %d events for %s" :: INFO "Polling GitHub events..."
                   :: log w.
Proof.
  intros Hrepos Hresp Hfs He.
  unfold poll_github_events, bind at 1, logger_info at 1, modify.
  unfold bind at 1, gets. simpl. rewrite Hrepos. simpl. unfold bind at 1.
  unfold fetch_repo_events, try_except, bind at 1, requests_get. simpl. rewrite Hresp.
  simpl. unfold bind at 1, lift at 1. simpl. unfold bind at 1, lift at 1. simpl.
  unfold bind at 1, logger_info, modify. unfold bind at 1, lift at 1. simpl.
  unfold bind at 1.
  unfold insert_event at 1, sqlite3_connect, bind at 1, storage_operation. simpl.
  rewrite Hfs. destruct e; try discriminate; simpl; by eexists.
Qed.

Lemma poll_loop_all_fail repos w :
  (∀ repo0, repo0 ∈ repos → fetch_fails (github w repo0)) →
  ∃ msgs w',
    for_each repos fetch_repo_events w = (Ok tt, w')
    ∧ length msgs = length repos
    ∧ log w' = (ERROR <$> reverse msgs) ++ log w
    ∧ events w' = events w
    ∧ storage_faults w' = storage_faults w.
Proof.
  revert w. induction repos as [|repo1 repos IH]; intros w Hall.
  - by exists [], w.
  - simpl. unfold bind.
    destruct (fetch_repo_events_failure repo1 w) as (msg & ->);
      [apply Hall, elem_of_cons; by left|].
    destruct (IH (add_log (ERROR msg) w)) as (msgs & w' & -> & Hlen & Hlog & Hev & Hfs).
    { intros repo0 Hin. apply Hall, elem_of_cons. by right. }
    exists (msg :: msgs), w'. split_and!; [done|simpl; lia| |done..].
    rewrite Hlog, reverse_cons, fmap_app. simpl. by rewrite <- app_assoc.
Qed.

(** X9 — An outage.  When every configured repository fails to be
    fetched (request exception, status other than 200, body that is
    not JSON), the poll cycle returns normally whatever the state of
    the store, which it does not use: the table is as before, and the
    log has one error record per repository after the record of the
    start of the cycle. *)
Theorem poll_github_events_outage w :
  (∀ repo0, repo0 ∈ REPOSITORIES w → fetch_fails (github w repo0)) →
  ∃ msgs w',
    poll_github_events w = (Ok tt, w')
    ∧ length msgs = length (REPOSITORIES w)
    ∧ log w' = (ERROR <$> reverse msgs) ++ INFO "Polling GitHub events..." :: log w
    ∧ events w' = events w
    ∧ storage_faults w' = storage_faults w.
Proof.
  intros Hall. unfold poll_github_events, bind, logger_info, modify, gets. simpl.
  destruct (poll_loop_all_fail (REPOSITORIES w)
              (add_log (INFO "Polling GitHub events...") w) Hall)
    as (msgs & w' & -> & Hlen & Hlog & Hev & Hfs).
  by exists msgs, w'.
Qed.

(** The poll loop on a healthy store and well-formed feeds, with the
    state it leaves. *)
Lemma poll_loop_state repos w :
  storage_faults w = [] →
  (∀ repo0, repo0 ∈ repos →
            fetch_fails (github w repo0)
            ∨ ∃ rows, fetch_succeeds repo0 (github w repo0) rows) →
  ∃ w', for_each repos fetch_repo_events w = (Ok tt, w')
        ∧ storage_faults w' = []
        ∧ github w' = github w
        ∧ REPOSITORIES w' = REPOSITORIES w
        ∧ (∀ r, stored r (events w) → stored r (events w'))
        ∧ (∀ repo0 rows r,
              repo0 ∈ repos → fetch_succeeds repo0 (github w repo0) rows → r ∈ rows →
              stored r (events w')).
Proof.
  revert w. induction repos as [|repo1 repos IH]; intros w Hf Hall.
  - exists w. split_and!; [done..|]. intros ? ? ? []%elem_of_nil.
  - simpl. unfold bind.
    destruct (fetch_repo_events_isolated repo1 w Hf)
      as (w1 & -> & Hf1 & Hg1 & Hr1 & Hm1 & Hs1).
    { apply Hall, elem_of_cons. by left. }
    destruct (IH w1 Hf1) as (w' & -> & Hf' & Hg & Hr & Hm & Hs).
    { intros repo0 Hin. rewrite Hg1. apply Hall, elem_of_cons. by right. }
    exists w'. split_and!; [done..|by rewrite Hg, Hg1|by rewrite Hr, Hr1
                           |by intros r ?%Hm1%Hm|].
    intros repo0 rows r [->|Hin]%elem_of_cons Hok Hr0.
    + by apply Hm, (Hs1 rows).
    + apply (Hs repo0 rows); [done| |done]. by rewrite Hg1.
Qed.

(** A poll loop whose events all meet a stored id adds nothing. *)
Lemma poll_loop_fixed repos w :
  storage_faults w = [] →
  (∀ repo0, repo0 ∈ repos →
            fetch_fails (github w repo0)
            ∨ ∃ rows, fetch_succeeds repo0 (github w repo0) rows
                      ∧ ∀ r, r ∈ rows →
                             ∃ r', r' ∈ events w ∧ sql_eq (id r') (id r) = true) →
  ∃ w', for_each repos fetch_repo_events w = (Ok tt, w') ∧ events w' = events w.
Proof.
  revert w. induction repos as [|repo1 repos IH]; intros w Hf Hall.
  - by exists w.
  - simpl. unfold bind.
    destruct (Hall repo1) as [Hfail|(rows & Hok & Hdup)]; [apply elem_of_cons; by left|..].
    + destruct (fetch_repo_events_failure repo1 w Hfail) as (msg & ->).
      destruct (IH (add_log (ERROR msg) w) Hf) as (w' & -> & Hev).
      { intros repo0 Hin. apply Hall, elem_of_cons. by right. }
      by exists w'.
    + destruct (fetch_repo_events_success repo1 rows w Hf Hok)
        as (w1 & -> & Hf1 & Hg1 & _ & Hev1).
      rewrite (foldl_insert_or_ignore_conflicts rows (events w) Hdup) in Hev1.
      destruct (IH w1 Hf1) as (w' & -> & Hev).
      { intros repo0 Hin. rewrite Hg1, Hev1. apply Hall, elem_of_cons. by right. }
      exists w'. split; [done|]. by rewrite Hev.
Qed.

(** X10 — Polling again.  On a working store, with feeds that fail or
    answer with well-formed events that all carry an id, a second
    poll cycle over the same feeds returns normally and stores
    nothing: the table after it is the table after the first
    cycle. *)
Theorem poll_github_events_twice w :
  storage_faults w = [] →
  (∀ repo0, repo0 ∈ REPOSITORIES w →
            fetch_fails (github w repo0)
            ∨ ∃ rows, fetch_succeeds repo0 (github w repo0) rows
                      ∧ Forall (λ r, is_Some (id r)) rows) →
  ∃ w1 w2, poll_github_events w = (Ok tt, w1)
           ∧ poll_github_events w1 = (Ok tt, w2)
           ∧ events w2 = events w1.
Proof.
  intros Hf Hall. unfold poll_github_events, bind, logger_info, modify, gets. simpl.
  destruct (poll_loop_state (REPOSITORIES w) (add_log (INFO "Polling GitHub events...") w))
    as (w1 & -> & Hf1 & Hg1 & Hr1 & _ & Hs1); [done| |].
  { intros repo0 Hin. destruct (Hall repo0 Hin) as [?|(rows & ? & _)]; eauto. }
  simpl in Hg1, Hr1. exists w1. rewrite Hr1.
  destruct (poll_loop_fixed (REPOSITORIES w) (add_log (INFO "Polling GitHub events...") w1))
    as (w2 & -> & Hev); [done| |by exists w2].
  intros repo0 Hin. simpl. rewrite Hg1.
  destruct (Hall repo0 Hin) as [?|(rows & Hok & Hids)]; [by left|right].
  exists rows. split; [done|]. intros r Hr.
  apply stored_conflict; [by apply (Hs1 repo0 rows)|].
  rewrite Forall_forall in Hids. by apply Hids.
Qed.

(** X11 — A poll cycle is append-only.  Whatever the feeds answer and
    whatever the storage layer does, also when the cycle raises, the
    table before [poll_github_events] is a prefix of the table after
    it: no stored record is removed or altered. *)
Theorem poll_github_events_append_only w :
  events w `prefix_of` events (poll_github_events w).2.
Proof. apply inserted_into_prefix, poll_github_events_inserted. Qed.

(** X12 — The key constraint is an invariant of the poll cycle.  A
    table with at most one record per id has at most one record per
    id after [poll_github_events], whatever the feeds answer and
    whatever the storage layer does. *)
Theorem poll_github_events_unique_ids w :
  unique_ids (events w) → unique_ids (events (poll_github_events w).2).
Proof. apply inserted_into_unique, poll_github_events_inserted. Qed.
End FetchAnyState.

Lemma fetch_repo_events_partial_batch_witness :
  ∃ w', fetch_repo_events "o/r" batch_world = (Raise AttributeError, w')
        ∧ events w' = foldl (λ t r, insert_or_ignore r t) (events batch_world) [push_1_row].
Proof.
  apply (fetch_repo_events_partial_batch batch_world "o/r" (PList mixed_batch)
           [push_1] (PStr "oops") [push_2] [push_1_row]).
  - reflexivity.
  - reflexivity.
  - reflexivity.
  - repeat constructor.
  - intros d. discriminate.
Defined.

Lemma fetch_repo_events_scalar_body_witness :
  fetch_repo_events "o/r" null_world = (Raise TypeError, null_world).
Proof.
  apply (fetch_repo_events_scalar_body null_world "o/r" PNone); reflexivity.
Defined.

Lemma poll_github_events_connect_failure_witness :
  ∃ w', poll_github_events unreachable_store = (Raise OperationalError, w')
        ∧ events w' = events unreachable_store
        ∧ log w' = INFO "Fetched %d events for %s" :: INFO "Polling GitHub events..."
                   :: log unreachable_store.
Proof.
  apply (poll_github_events_connect_failure unreachable_store "b/ok" ["a/timeout"]
           push_1 (tail five_pushes) OperationalError []); reflexivity.
Defined.

Lemma poll_github_events_outage_witness :
  ∃ msgs w',
    poll_github_events outage_world = (Ok tt, w')
    ∧ length msgs = length (REPOSITORIES outage_world)
    ∧ log w' = (ERROR <$> reverse msgs) ++ INFO "Polling GitHub events..."
               :: log outage_world
    ∧ events w' = events outage_world
    ∧ storage_faults w' = storage_faults outage_world.
Proof.
  apply (poll_github_events_outage outage_world).
  intros repo0 Hin. simpl in Hin.
  repeat (apply elem_of_cons in Hin as [->|Hin]); [| | |by apply elem_of_nil in Hin].
  - reflexivity.
  - left. done.
  - right. reflexivity.
Defined.

Lemma poll_github_events_twice_witness :
  ∃ w1 w2, poll_github_events poll_world = (Ok tt, w1)
           ∧ poll_github_events w1 = (Ok tt, w2)
           ∧ events w2 = events w1.
Proof.
  apply (poll_github_events_twice poll_world).
  - reflexivity.
  - intros repo0 Hin. simpl in Hin.
    repeat (apply elem_of_cons in Hin as [->|Hin]); [| | | |by apply elem_of_nil in Hin].
    + left. reflexivity.
    + right. exists five_rows. split.
      * exists five_pushes. split; [reflexivity|]. repeat constructor.
      * repeat constructor; by eexists.
    + left. left. done.
    + left. right. reflexivity.
Defined.

Lemma poll_github_events_unique_ids_witness :
  unique_ids (events (poll_github_events outage_world).2).
Proof.
  apply (poll_github_events_unique_ids outage_world).
  unfold unique_ids. apply (bool_decide_eq_true_1 (NoDup (omap id (events outage_world)))).
  vm_compute. reflexivity.
Defined.

(** ** Window Selector: what a returned window is made of *)

Section WindowAnyState.
Context `{Library}.

(** A call of [get_recent_events] that returns has computed its cutoff
    and has read the window of the table. *)
Lemma get_recent_events_ok w repo0 ty window :
  (get_recent_events repo0 ty w).1 = Ok window →
  ∃ cutoff, cutoff_text (utcnow w) = Ok cutoff
            ∧ window_of (events w) (utcnow w) repo0 ty = Ok window.
Proof.
  destruct (cutoff_text (utcnow w)) as [cutoff|e] eqn:Hcut.
  - intros Hrun. exists cutoff. split; [done|].
    pose proof (get_recent_events_run w repo0 ty cutoff Hcut) as Hspec.
    destruct (consume 3 (storage_faults w)) as [e|fs].
    + destruct Hspec as (w' & Hw'). by rewrite Hw' in Hrun.
    + destruct Hspec as (w' & Hw' & _). by rewrite Hw' in Hrun.
  - unfold get_recent_events, sqlite3_connect, datetime_now_utc, storage_operation,
      bind, gets, lift.
    destruct (storage_faults w) as [|[e1|] fs]; simpl; rewrite ?Hcut; done.
Qed.

Lemma window_rows_length t now repo0 ty cutoff :
  cutoff_text now = Ok cutoff →
  length (window_rows t now repo0 ty)
  = (MAX_EVENTS `min` length (filter (λ r, in_window repo0 ty cutoff r = true) t))%nat.
Proof.
  intros Hcut. unfold window_rows. rewrite Hcut.
  rewrite <- (Permutation_length (select_window_rows_Permutation t repo0 ty cutoff)).
  destruct (Nat.ltb_spec MAX_EVENTS (length (select_window_rows t repo0 ty cutoff))).
  - rewrite length_drop. lia.
  - lia.
Qed.

Lemma window_rows_sorted t now repo0 ty :
  StronglySorted order_le (window_rows t now repo0 ty).
Proof.
  unfold window_rows. destruct (cutoff_text now) as [cutoff|]; [|constructor].
  pose proof (select_window_rows_sorted t repo0 ty cutoff) as Hs.
  destruct (_ <? _)%nat; [|done].
  rewrite <- (take_drop (length (select_window_rows t repo0 ty cutoff) - MAX_EVENTS)) in Hs.
  by apply StronglySorted_app_1_r in Hs.
Qed.

(** X13 — Size of a window.  A window that [get_recent_events]
    returns has as many timestamps as there are stored records of the
    pair that pass the text comparison with the cutoff, up to
    [MAX_EVENTS]: never more than [MAX_EVENTS], and none is left out
    below that number. *)
Theorem get_recent_events_window_size w repo0 ty window :
  (get_recent_events repo0 ty w).1 = Ok window →
  ∃ cutoff,
    cutoff_text (utcnow w) = Ok cutoff
    ∧ length window
      = (MAX_EVENTS `min`
         length (filter (λ r, in_window repo0 ty cutoff r = true) (events w)))%nat.
Proof.
  intros (cutoff & Hcut & Hwin)%get_recent_events_ok. exists cutoff. split; [done|].
  rewrite <- (Forall2_length _ _ _ (window_of_rows _ _ _ _ _ Hwin)).
  by apply window_rows_length.
Qed.

(** X14 — A window belongs to its pair.  The timestamps that
    [get_recent_events] returns are, one for one and in this order,
    the parsed [created_at] texts of stored records of the requested
    repository and of the requested event type, in ascending order of
    [datetime(created_at)]: no record of another repository or of
    another type contributes. *)
Theorem get_recent_events_selects_pair w repo0 ty window :
  (get_recent_events repo0 ty w).1 = Ok window →
  ∃ rows,
    Forall2 (λ r tm, ∃ s, created_at r = Some s ∧ fromisoformat (remove_Z s) = Ok tm)
            rows window
    ∧ StronglySorted order_le rows
    ∧ ∀ r, r ∈ rows →
           r ∈ events w ∧ repo r = repo0 ∧ ∃ k, ty = Some k ∧ event_type r = Some k.
Proof.
  intros (cutoff & Hcut & Hwin)%get_recent_events_ok.
  exists (window_rows (events w) (utcnow w) repo0 ty).
  split_and!; [by apply window_of_rows|apply window_rows_sorted|].
  intros r (cutoff' & _ & Hr & Hw)%elem_of_window_rows.
  apply in_window_true in Hw as (Hrepo & (k & Hk & ->)%sql_eq_true & _). eauto.
Qed.
End WindowAnyState.

Lemma compare_cons_Gt a b x y :
  Ascii.compare a b = Gt → String.compare (String a x) (String b y) = Gt.
Proof. intros Hab. cbn [String.compare]. by rewrite Hab. Qed.

(** What follows the seconds in the cutoff text is never above the
    final [Z] of a feed timestamp. *)
Lemma cutoff_tail_below_Z c :
  String.compare "Z"
    ((if microsecond c =? 0 then "" else "." +:+ zfill 6 (microsecond c))
     +:+ format_offset (utcoffset c) +:+ "Z") ≠ Lt.
Proof.
  destruct (microsecond c =? 0).
  - rewrite append_nil. unfold format_offset.
    destruct (utcoffset c) as [o|]; [|rewrite append_nil; by vm_compute].
    destruct (o <? 0); rewrite !append_cons, compare_cons_Gt; done.
  - rewrite !append_cons, compare_cons_Gt; done.
Qed.

Lemma compare_second_antisym a b :
  compare_second a b = CompOpp (compare_second b a).
Proof.
  unfold compare_second.
  rewrite (Z.compare_antisym (year a)), (Z.compare_antisym (month a)),
    (Z.compare_antisym (day a)), (Z.compare_antisym (hour a)),
    (Z.compare_antisym (minute a)), (Z.compare_antisym (second a)).
  by repeat (destruct (_ ?= _); cbn [CompOpp lex]; try done).
Qed.

(** A feed timestamp passes the text comparison with the cutoff exactly
    when its calendar second is not before that of the cutoff. *)
Lemma feed_text_above_cutoff c ts :
  valid_fields c → valid_fields ts →
  text_le (isoformat c +:+ "Z") (feed_text ts) = true ↔ compare_second ts c ≠ Lt.
Proof.
  intros Hvalid Hts.
  unfold text_le. rewrite isoformat_stamp, feed_text_stamp.
  rewrite (stamp_compare c ts) by done.
  pose proof (cutoff_tail_below_Z c) as Htail.
  rewrite (compare_second_antisym c ts).
  rewrite (String.compare_antisym _ "Z").
  destruct (compare_second ts c); cbn [CompOpp lex]; [|done..].
  destruct (String.compare "Z" _); cbn [CompOpp]; done.
Qed.

Section FeedFormat.
Context `{Library}.

(** X15 — The time filter on the timestamps of the feed.  A stored
    record whose [created_at] has the format of the feed,
    [YYYY-MM-DDTHH:MM:SSZ], is selected by the window query of its
    pair exactly when its calendar second is not before the calendar
    second of the cutoff [now - MAX_DAYS days]: the comparison is made
    to the whole second, and a record within the second of the cutoff
    is kept. *)
Theorem feed_timestamp_time_filter w c r ts ty :
  datetime_add (utcnow w) (- timedelta_days MAX_DAYS) = Ok c →
  r ∈ events w →
  event_type r = Some ty →
  created_at r = Some (feed_text ts) →
  valid_fields ts →
  ∃ cutoff, cutoff_text (utcnow w) = Ok cutoff
            ∧ (r ∈ select_window_rows (events w) (repo r) (Some ty) cutoff
               ↔ compare_second ts c ≠ Lt).
Proof.
  intros Hc Hr Hty Hs Hts. unfold cutoff_text. rewrite Hc. eexists. split; [done|].
  rewrite <- (feed_text_above_cutoff c ts (datetime_add_fields _ _ _ Hc) Hts).
  rewrite elem_of_select_window_rows, in_window_true. split.
  - intros (_ & _ & _ & s & Hs' & Hle). rewrite Hs in Hs'. by injection Hs' as <-.
  - intros Hle. split_and!; [done..| |by eexists].
    rewrite Hty. simpl. by apply bool_decide_eq_true.
Qed.
End FeedFormat.

Lemma get_recent_events_window_size_witness :
  ∃ cutoff,
    cutoff_text (utcnow burst_world) = Ok cutoff
    ∧ length (minute_of_day <$> seq 1 500)
      = (MAX_EVENTS `min`
         length (filter (λ r, in_window "o/r" (Some "PushEvent") cutoff r = true)
                        (events burst_world)))%nat.
Proof.
  apply (get_recent_events_window_size burst_world "o/r" (Some "PushEvent")).
  vm_compute. reflexivity.
Defined.

Lemma get_recent_events_selects_pair_witness :
  ∃ rows,
    Forall2 (λ r tm, ∃ s, created_at r = Some s ∧ fromisoformat (remove_Z s) = Ok tm)
            rows five_times
    ∧ StronglySorted order_le rows
    ∧ ∀ r, r ∈ rows →
           r ∈ events after_five ∧ repo r = "o/r"
           ∧ ∃ k, Some "PushEvent" = Some k ∧ event_type r = Some k.
Proof.
  apply (get_recent_events_selects_pair after_five "o/r" (Some "PushEvent")).
  vm_compute. reflexivity.
Defined.

Lemma feed_timestamp_time_filter_witness :
  ∃ cutoff, cutoff_text (utcnow stale_world) = Ok cutoff
            ∧ (stale_push ∈ select_window_rows (events stale_world) (repo stale_push)
                                               (Some "PushEvent") cutoff
               ↔ compare_second cutoff_second cutoff_datetime ≠ Lt).
Proof.
  apply (feed_timestamp_time_filter stale_world cutoff_datetime stale_push cutoff_second
           "PushEvent").
  - vm_compute. reflexivity.
  - apply elem_of_cons. right. apply elem_of_cons. by left.
  - reflexivity.
  - vm_compute. reflexivity.
  - unfold valid_fields. simpl. lia.
Defined.

(** ** Python floats on known values *)

(** [1 / 3 == 0.3333333333333333] *)
Example int_true_divide_third :
  int_true_divide 1 3 = S754_finite false 6004799503160661 (-54).
Proof. reflexivity. Qed.

(** [timedelta(microseconds=1).total_seconds() == 1e-06] *)
Example total_seconds_microsecond :
  total_seconds 1 = S754_finite false 4722366482869645 (-72).
Proof. reflexivity. Qed.

(** The microseconds are divided as an integer, which is not rounded
    to a float first: [timedelta(microseconds=2**53 + 1).total_seconds()]
    is [9007199254.740993], where [float(2**53 + 1) / 1e6] is
    [9007199254.740992]. *)
Example total_seconds_rounds_once :
  total_seconds (2 ^ 53 + 1) = S754_finite false 4722366482869646 (-19)
  ∧ float_truediv (float_of_int (2 ^ 53 + 1)) (float_of_int 1000000)
    = S754_finite false 4722366482869645 (-19).
Proof. split; reflexivity. Qed.

(** [0.1 + 0.2 == 0.30000000000000004] *)
Example float_add_tenths :
  float_add (int_true_divide 1 10) (int_true_divide 2 10)
  = S754_finite false 5404319552844596 (-54).
Proof. reflexivity. Qed.

(** [1.0 / 3 == 0.3333333333333333]: one second over three gaps. *)
Example average_third :
  average (total_seconds 1000000) 3 = S754_finite false 6004799503160661 (-54).
Proof. reflexivity. Qed.

(** ** The sign of a rounded quotient *)

Lemma iter_pos_invariant {A} (P : A → Prop) (f : A → A) :
  (∀ x, P x → P (f x)) → ∀ n x, P x → P (SpecFloat.iter_pos f n x).
Proof.
  intros Hf. induction n as [n IH|n IH|]; intros x Hx; simpl; auto.
Qed.

Lemma shr_1_nonneg mrs : 0 ≤ shr_m mrs → 0 ≤ shr_m (shr_1 mrs).
Proof.
  destruct mrs as [m r s]. simpl. destruct m as [|[p|p|]|[p|p|]]; simpl; lia.
Qed.

Lemma shr_fexp_nonneg m e l :
  0 ≤ m → 0 ≤ shr_m (shr_fexp prec emax m e l).1.
Proof.
  intros Hm. unfold shr_fexp, shr.
  assert (0 ≤ shr_m (shr_record_of_loc m l)) as H0.
  { destruct l as [|[]]; simpl; done. }
  destruct (_ - e); simpl; [done| |done].
  by apply (iter_pos_invariant (λ mrs, 0 ≤ shr_m mrs)); [apply shr_1_nonneg|].
Qed.

Lemma round_nearest_even_nonneg m l : 0 ≤ m → 0 ≤ round_nearest_even m l.
Proof.
  intros Hm. destruct l as [|[]]; simpl; [done| |done|lia].
  destruct (Z.even m); lia.
Qed.

(** Rounding a mantissa that is not negative, with the sign of a
    positive number, gives zero, a positive number or the positive
    infinity. *)
Lemma binary_round_aux_not_negative m e l :
  0 ≤ m → not_negative (binary_round_aux prec emax false m e l) = true.
Proof.
  intros Hm. unfold binary_round_aux.
  pose proof (shr_fexp_nonneg m e l Hm) as H1.
  destruct (shr_fexp prec emax m e l) as [mrs' e']. simpl in H1.
  pose proof (shr_fexp_nonneg (round_nearest_even (shr_m mrs') (loc_of_shr_record mrs'))
                e' loc_Exact (round_nearest_even_nonneg _ _ H1)) as H2.
  destruct (shr_fexp prec emax _ e' loc_Exact) as [mrs'' e'']. simpl in H2.
  destruct (shr_m mrs''); [done| |lia].
  by destruct (_ <=? _).
Qed.

Lemma SFdiv_not_negative x y :
  not_negative x = true → positive_finite y = true →
  not_negative (SFdiv prec emax x y) = true.
Proof.
  intros Hx Hy. destruct y as [| | |[] my ey]; try done.
  destruct x as [sx|[]| |[] mx ex]; try done.
  unfold SFdiv, SFdiv_core_binary. cbn [Zdigits2 xorb].
  set (m' := match _ with Z0 => Z.pos mx | _ => _ end).
  assert (0 ≤ m') as Hm'.
  { unfold m'. destruct (_ - _ - _) eqn:E; [lia| |lia].
    apply Z.shiftl_nonneg. lia. }
  pose proof (Z_div_mod m' (Z.pos my) eq_refl) as Hdiv.
  destruct (Z.div_eucl m' (Z.pos my)) as [q r].
  apply binary_round_aux_not_negative. nia.
Qed.

Lemma total_seconds_not_negative delta :
  0 ≤ delta → not_negative (total_seconds delta) = true.
Proof.
  intros Hd. unfold total_seconds, int_true_divide.
  apply SFdiv_not_negative; [|done]. by destruct delta.
Qed.

Lemma not_negative_SFleb x : not_negative x = true → SFleb (S754_zero false) x = true.
Proof. by destruct x as [|[]| |[]]. Qed.

(** The divisor of [average]: a number of gaps up to [MAX_EVENTS] is a
    positive float. *)
Lemma float_of_int_gaps n :
  (1 ≤ n ≤ MAX_EVENTS)%nat → positive_finite (float_of_int (Z.of_nat n)) = true.
Proof.
  intros Hn.
  assert (forallb (λ k, positive_finite (float_of_int (Z.of_nat k))) (seq 1 MAX_EVENTS)
          = true) as Hall by (vm_compute; reflexivity).
  rewrite forallb_forall in Hall. apply Hall. apply in_seq. lia.
Qed.

Lemma average_not_negative delta n :
  0 ≤ delta → (1 ≤ n ≤ MAX_EVENTS)%nat →
  SFleb (S754_zero false) (average (total_seconds delta) n) = true.
Proof.
  intros Hd Hn. apply not_negative_SFleb. unfold average, float_truediv.
  apply SFdiv_not_negative; [by apply total_seconds_not_negative|by apply float_of_int_gaps].
Qed.

(** ** Statistics: [get_stats] in any state *)

Section StatsAnyState.
Context `{Library}.

Lemma reads_get_recent_events repo0 ty : reads (get_recent_events repo0 ty).
Proof.
  unfold get_recent_events, sqlite3_connect, execute_select, fetchall, datetime_now_utc.
  reads_steps.
Qed.

Lemma reads_stats_step results pair : reads (stats_step results pair).
Proof.
  destruct pair as [repo0 ty]. unfold stats_step.
  apply reads_bind; [apply reads_get_recent_events|]. intros window.
  destruct (_ <? _)%nat; [apply reads_ret|]. reads_steps.
Qed.

Lemma reads_get_stats : reads get_stats.
Proof.
  unfold get_stats, sqlite3_connect, execute_select, fetchall, datetime_now_utc.
  reads_steps. apply reads_for_fold. intros. apply reads_stats_step.
Qed.

(** X16 — The reads do not write.  Whatever the state of the storage
    layer and whatever is stored, also when they raise, [get_stats]
    and [get_recent_events] leave the table, the list of repositories
    and the log as they are. *)
Theorem get_stats_read_only w :
  unchanged w (get_stats w).2
  ∧ ∀ repo0 ty, unchanged w (get_recent_events repo0 ty w).2.
Proof.
  split; [apply reads_get_stats|]. intros. apply reads_get_recent_events.
Qed.

Lemma select_window_rows_null_type t repo0 cutoff :
  select_window_rows t repo0 None cutoff = [].
Proof.
  unfold select_window_rows. rewrite filter_none; [done|].
  intros r _ (_ & (k & _ & Hk)%sql_eq_true & _)%in_window_true. done.
Qed.

Lemma get_recent_events_null_type w repo0 window :
  (get_recent_events repo0 None w).1 = Ok window → window = [].
Proof.
  intros (cutoff & Hcut & Hwin)%get_recent_events_ok.
  unfold window_of, select_created_at in Hwin. rewrite Hcut in Hwin. simpl in Hwin.
  rewrite select_window_rows_null_type in Hwin. simpl in Hwin. by injection Hwin as <-.
Qed.

Lemma stats_loop_null_type ps w results w' :
  for_fold ps ∅ stats_step w = (Ok results, w') →
  ∀ repo0, stats_lookup results repo0 None = None.
Proof.
  apply (for_fold_invariant (λ res : stats, ∀ repo0, stats_lookup res repo0 None = None));
    [|done].
  intros res [r0 t0] wa res' wb Hres. rewrite stats_step_run.
  destruct (get_recent_events r0 t0 wa) as [[win|e] wc] eqn:Hget; [|done].
  destruct (average_interval win) as [[v|]|e] eqn:Hv; [| |done].
  - intros [= <- _] repo0. rewrite stats_lookup_set_interval.
    destruct t0 as [k|].
    + rewrite decide_False; [done|]. by intros [_ ?].
    + assert (win = []) as ->.
      { apply (get_recent_events_null_type wa r0). by rewrite Hget. }
      done.
  - by intros [= <- _].
Qed.

(** X17 — Events without a type are not counted.  A record whose
    [event_type] is NULL (an event without a ["type"] member) never
    matches [event_type = ?]: [get_recent_events] has no timestamp for
    a NULL type, and the payload of [get_stats] has no entry for
    it. *)
Theorem get_stats_null_event_type w results repo0 :
  (get_stats w).1 = Ok results →
  stats_lookup results repo0 None = None
  ∧ match (get_recent_events repo0 None w).1 with
    | Ok window => window = []
    | Raise _ => True
    end.
Proof.
  intros Hrun. split.
  - unfold get_stats in Hrun.
    unfold bind at 1 in Hrun.
    destruct (sqlite3_connect w) as [[[]|e] w1]; [|done].
    unfold bind at 1 in Hrun. destruct (datetime_now_utc w1) as [[now|e] w2]; [|done].
    unfold bind at 1 in Hrun.
    destruct (lift (cutoff_text now) w2) as [[cutoff|e] w3]; [|done].
    unfold bind at 1 in Hrun.
    destruct (execute_select _ w3) as [[cursor|e] w4]; [|done].
    unfold bind at 1 in Hrun. destruct (fetchall cursor w4) as [[pairs|e] w5]; [|done].
    unfold bind at 1 in Hrun. destruct (conn_close w5) as [[[]|e] w6]; [|done].
    destruct (for_fold pairs ∅ stats_step w6) as [[res|e] w7] eqn:Hfold; [|done].
    simpl in Hrun. injection Hrun as <-. by apply (stats_loop_null_type pairs w6 res w7).
  - destruct (get_recent_events repo0 None w).1 as [window|e] eqn:Hget; [|done].
    by apply (get_recent_events_null_type w repo0).
Qed.

(** One turn of the loop of [get_stats] on a healthy store. *)
Lemma stats_step_healthy results repo0 ty w :
  storage_faults w = [] →
  ∃ w', storage_faults w' = [] ∧ events w' = events w ∧ utcnow w' = utcnow w
        ∧ stats_step results (repo0, ty) w
          = (match window_of (events w) (utcnow w) repo0 ty with
             | Ok window =>
                 match average_interval window with
                 | Ok None => Ok results
                 | Ok (Some v) => Ok (set_interval results repo0 ty v)
                 | Raise e => Raise e
                 end
             | Raise e => Raise e
             end, w').
Proof.
  intros Hf. rewrite stats_step_run.
  destruct (get_recent_events_healthy w repo0 ty Hf) as (w' & -> & Hf' & He & Hn).
  exists w'. split_and!; [done..|].
  destruct (window_of _ _ _ _) as [window|e]; [|done].
  by destruct (average_interval window) as [[v|]|e].
Qed.

(** The loop stops at the first pair whose turn raises. *)
Lemma stats_loop_bad_pair ps results w repo0 ty e :
  storage_faults w = [] →
  (repo0, ty) ∈ ps →
  (∀ res, (stats_step res (repo0, ty) w).1 = Raise e) →
  ∃ e', (for_fold ps results stats_step w).1 = Raise e'.
Proof.
  intros Hf Hin Hbad. revert results w Hf Hbad.
  induction ps as [|[r0 t0] ps IH]; intros results w Hf Hbad;
    [by apply elem_of_nil in Hin|].
  change (for_fold ((r0, t0) :: ps) results stats_step w)
    with (bind (stats_step results (r0, t0)) (λ s', for_fold ps s' stats_step) w).
  unfold bind.
  destruct (stats_step_healthy results r0 t0 w Hf) as (w1 & Hf1 & He1 & Hn1 & Hstep).
  apply elem_of_cons in Hin as [[= <- <-]|Hin].
  { specialize (Hbad results). destruct (stats_step results (repo0, ty) w) as [[res|e0] w2];
      [done|]. simpl. by eexists. }
  rewrite Hstep.
  destruct (match window_of (events w) (utcnow w) r0 t0 with
            | Ok window => _ | Raise e0 => Raise e0 end) as [res|e0]; [|simpl; by eexists].
  apply (IH Hin res w1 Hf1). intros res'.
  destruct (stats_step_healthy res' repo0 ty w1 Hf1) as (w2 & _ & _ & _ & Hstep2).
  destruct (stats_step_healthy res' repo0 ty w Hf) as (w3 & _ & _ & _ & Hstep3).
  specialize (Hbad res'). rewrite Hstep3 in Hbad. rewrite Hstep2, He1, Hn1. done.
Qed.

(** On a healthy store, a discovered pair whose turn of the loop raises
    makes the whole request raise. *)
Lemma get_stats_bad_pair w cutoff repo0 ty e :
  storage_faults w = [] →
  cutoff_text (utcnow w) = Ok cutoff →
  (repo0, ty) ∈ select_distinct_pairs (events w) cutoff →
  (∀ res, (stats_step res (repo0, ty) w).1 = Raise e) →
  ∃ e', (get_stats w).1 = Raise e'.
Proof.
  intros Hf Hcut Hin Hbad.
  pose proof (get_stats_run w cutoff Hcut) as Hrun. rewrite Hf in Hrun. simpl in Hrun.
  destruct Hrun as (w1 & -> & Hf1 & He1 & Hn1).
  apply (stats_loop_bad_pair _ ∅ w1 repo0 ty e Hf1 Hin).
  intros res.
  destruct (stats_step_healthy res repo0 ty w1 Hf1) as (w2 & _ & _ & _ & Hstep2).
  destruct (stats_step_healthy res repo0 ty w Hf) as (w3 & _ & _ & _ & Hstep3).
  specialize (Hbad res). rewrite Hstep3 in Hbad. rewrite Hstep2, He1, Hn1. done.
Qed.

Lemma elem_of_select_distinct_pairs t cutoff r ty s :
  r ∈ t → event_type r = ty → created_at r = Some s → text_le cutoff s = true →
  (repo r, ty) ∈ select_distinct_pairs t cutoff.
Proof.
  intros Hr Hty Hs Hle. unfold select_distinct_pairs.
  apply elem_of_distinct, list_elem_of_fmap. exists r. split; [by rewrite Hty|].
  apply list_elem_of_filter. split; [|done]. by rewrite Hs.
Qed.

(** X18 — One unreadable timestamp fails the request.  On a working
    store, a stored record with a type whose [created_at] text passes
    the comparison with the cutoff but is refused by [fromisoformat]
    makes [get_recent_events] raise for its pair, and makes
    [get_stats] raise: no payload is returned, for any pair. *)
Theorem get_stats_unparsable_timestamp w cutoff r ty s e :
  storage_faults w = [] →
  cutoff_text (utcnow w) = Ok cutoff →
  r ∈ events w →
  event_type r = Some ty →
  created_at r = Some s →
  text_le cutoff s = true →
  fromisoformat (remove_Z s) = Raise e →
  (∃ e', (get_recent_events (repo r) (Some ty) w).1 = Raise e')
  ∧ (∃ e', (get_stats w).1 = Raise e').
Proof.
  intros Hf Hcut Hr Hty Hs Hle Hparse.
  assert (∃ e', window_of (events w) (utcnow w) (repo r) (Some ty) = Raise e')
    as [e' Hwin].
  { unfold window_of. rewrite Hcut. simpl.
    destruct (comprehension_raises (λ s, fromisoformat (remove_Z s))
                (select_created_at (events w) (repo r) (Some ty) cutoff) s e)
      as [e' ->]; [|done|by eexists].
    unfold select_created_at. apply list_elem_of_omap. exists r. split; [|done].
    apply elem_of_select_window_rows. split; [done|].
    apply in_window_true. split_and!; [done| |by eexists].
    rewrite Hty. simpl. by apply bool_decide_eq_true. }
  split.
  - destruct (get_recent_events_healthy w (repo r) (Some ty) Hf) as (w' & -> & _).
    rewrite Hwin. by eexists.
  - apply (get_stats_bad_pair w cutoff (repo r) (Some ty) e' Hf Hcut).
    + by apply (elem_of_select_distinct_pairs _ _ r (Some ty) s).
    + intros res.
      destruct (stats_step_healthy res (repo r) (Some ty) w Hf) as (w2 & _ & _ & _ & ->).
      by rewrite Hwin.
Qed.

(** X19 — Timestamps with and without an offset do not mix.  On a
    working store, when the first and the last timestamp of the
    window of a pair are one naive and one with a UTC offset, their
    subtraction raises [TypeError] in the turn of the loop for the
    pair, and [get_stats] raises: no payload is returned. *)
Theorem get_stats_mixed_awareness w cutoff repo0 ty window t0 tn :
  storage_faults w = [] →
  cutoff_text (utcnow w) = Ok cutoff →
  (get_recent_events repo0 ty w).1 = Ok window →
  (2 ≤ length window)%nat →
  head window = Some t0 →
  last window = Some tn →
  (utcoffset t0 = None ∧ is_Some (utcoffset tn))
  ∨ (is_Some (utcoffset t0) ∧ utcoffset tn = None) →
  (∀ res, (stats_step res (repo0, ty) w).1 = Raise TypeError)
  ∧ ∃ e, (get_stats w).1 = Raise e.
Proof.
  intros Hf Hcut Hget Hlen H0 Hn Hmix.
  destruct (get_recent_events_healthy w repo0 ty Hf) as (w1 & Hrun & _).
  rewrite Hrun in Hget. simpl in Hget.
  assert (average_interval window = Raise TypeError) as Havg.
  { unfold average_interval. apply Nat.ltb_ge in Hlen. rewrite Hlen.
    unfold item_last, item_first. rewrite Hn, H0. simpl. unfold datetime_sub.
    destruct Hmix as [[-> [o ->]]|[[o ->] ->]]; done. }
  assert (∀ res, (stats_step res (repo0, ty) w).1 = Raise TypeError) as Hbad.
  { intros res. destruct (stats_step_healthy res repo0 ty w Hf) as (w2 & _ & _ & _ & ->).
    by rewrite Hget, Havg. }
  split; [done|].
  apply (get_stats_bad_pair w cutoff repo0 ty TypeError Hf Hcut); [|done].
  destruct (decide ((repo0, ty) ∈ select_distinct_pairs (events w) cutoff)) as [|Hnot];
    [done|].
  rewrite (window_of_undiscovered _ _ _ _ cutoff Hcut Hnot) in Hget.
  injection Hget as <-. simpl in Hlen. lia.
Qed.

Lemma time_ordered_check_sound t : time_ordered_check t = true → time_ordered t.
Proof.
  unfold time_ordered_check. rewrite forallb_forall.
  intros Hall r1 r2 s1 s2 t1 t2 Hr1 Hr2 Hs1 Hs2 Ht1 Ht2 Hle.
  specialize (Hall r1 ltac:(by apply list_elem_of_In)).
  rewrite forallb_forall in Hall.
  specialize (Hall r2 ltac:(by apply list_elem_of_In)).
  rewrite Hs1, Hs2, Ht1, Ht2 in Hall.
  rewrite bool_decide_eq_true_2 in Hall by done. simpl in Hall. by apply Z.leb_le.
Qed.

Lemma StronglySorted_head_last {A} (R : relation A) `{!Reflexive R} l x y :
  StronglySorted R l → head l = Some x → last l = Some y → R x y.
Proof.
  intros Hs Hh Hl. destruct l as [|a l]; [done|]. injection Hh as ->.
  destruct l as [|b l]; [simpl in Hl; injection Hl as ->; reflexivity|].
  apply StronglySorted_inv in Hs as [_ Hall]. rewrite Forall_forall in Hall.
  apply Hall. change (last (b :: l) = Some y) in Hl.
  rewrite last_lookup in Hl. by apply list_elem_of_lookup_2 in Hl.
Qed.

#[local] Instance order_le_refl : Reflexive order_le.
Proof. intros r. unfold order_le. apply key_le_refl. Qed.

(** X20 — Intervals are not negative when the two orders agree.  On a
    working store whose timestamps are read as naive datetimes, and
    on which the order of [datetime(created_at)] agrees with the order
    of the parsed timestamps (as it does for timestamps given to the
    whole second), [get_stats] returns a payload, and every interval
    in it is at least zero. *)
Theorem get_stats_nonnegative w cutoff :
  storage_faults w = [] →
  cutoff_text (utcnow w) = Ok cutoff →
  naive_timestamps (events w) →
  time_ordered (events w) →
  ∃ results w',
    get_stats w = (Ok results, w')
    ∧ ∀ repo0 ty v, stats_lookup results repo0 ty = Some v →
                    SFleb (S754_zero false) v = true.
Proof.
  intros Hf Hcut Hnaive Hord.
  destruct (get_stats_healthy w cutoff Hf Hcut Hnaive) as (results & w' & Hstats & Hlook).
  exists results, w'. split; [done|]. intros repo0 ty v Hv.
  rewrite Hlook in Hv. unfold interval_of in Hv.
  destruct (window_of_naive (events w) (utcnow w) repo0 ty cutoff Hnaive Hcut)
    as (window & Hwin & Hall).
  rewrite Hwin in Hv.
  destruct (average_interval_naive window Hall) as (v' & Hv' & Hshort & Hlong).
  rewrite Hv' in Hv. subst v'.
  destruct (Nat.lt_ge_cases (length window) 2) as [Hlt|Hge]; [by specialize (Hshort Hlt)|].
  destruct (Hlong Hge) as (t0 & tn & delta & H0 & Hn & Hsub & [= ->]).
  pose proof (window_of_rows _ _ _ _ _ Hwin) as Hrows.
  assert (0 ≤ delta) as Hdelta.
  { rewrite Forall_forall in Hall.
    rewrite datetime_sub_naive in Hsub.
    2:{ apply Hall. rewrite last_lookup in Hn. by apply list_elem_of_lookup_2 in Hn. }
    2:{ apply Hall. rewrite head_lookup in H0. by apply list_elem_of_lookup_2 in H0. }
    injection Hsub as <-.
    rewrite head_lookup in H0. rewrite last_lookup in Hn.
    destruct (Forall2_lookup_r _ _ _ _ _ Hrows H0) as (r0 & Hr0 & s0 & Hs0 & Hp0).
    destruct (Forall2_lookup_r _ _ _ _ _ Hrows Hn) as (rn & Hrn & sn & Hsn & Hpn).
    cut (instant t0 ≤ instant tn); [lia|].
    apply (Hord r0 rn s0 sn t0 tn); try done.
    - apply list_elem_of_lookup_2 in Hr0.
      by apply elem_of_window_rows in Hr0 as (? & _ & ? & _).
    - apply list_elem_of_lookup_2 in Hrn.
      by apply elem_of_window_rows in Hrn as (? & _ & ? & _).
    - apply (StronglySorted_head_last order_le (window_rows (events w) (utcnow w) repo0 ty)).
      + apply window_rows_sorted.
      + by rewrite head_lookup.
      + rewrite last_lookup. rewrite (Forall2_length _ _ _ Hrows). done. }
  apply average_not_negative; [done|].
  pose proof (window_rows_length (events w) (utcnow w) repo0 ty cutoff Hcut) as Hmax.
  rewrite (Forall2_length _ _ _ Hrows) in Hmax. lia.
Qed.

(** X21 — Entries of the payload.  Storing the interval of a pair in
    the results makes it the entry of that pair and leaves the entry
    of every other pair as it was, the entries of the other types of
    the same repository included. *)
Theorem set_interval_lookup (results : stats) repo0 ty v :
  stats_lookup (set_interval results repo0 ty v) repo0 ty = Some v
  ∧ ∀ repo1 ty1, (repo1, ty1) ≠ (repo0, ty) →
       stats_lookup (set_interval results repo0 ty v) repo1 ty1
       = stats_lookup results repo1 ty1.
Proof.
  split.
  - rewrite stats_lookup_set_interval. by rewrite decide_True.
  - intros repo1 ty1 Hne. rewrite stats_lookup_set_interval.
    rewrite decide_False; [done|]. intros [-> ->]. done.
Qed.
End StatsAnyState.

Lemma get_stats_null_event_type_witness :
  stats_lookup ∅ "o/r" None = None
  ∧ match (get_recent_events "o/r" None typeless_world).1 with
    | Ok window => window = []
    | Raise _ => True
    end.
Proof.
  apply (get_stats_null_event_type typeless_world ∅ "o/r").
  vm_compute. reflexivity.
Defined.

Lemma get_stats_unparsable_timestamp_witness :
  (∃ e', (get_recent_events (repo garbled_row) (Some "ForkEvent") garbled_world).1
         = Raise e')
  ∧ (∃ e', (get_stats garbled_world).1 = Raise e').
Proof.
  apply (get_stats_unparsable_timestamp garbled_world noon_cutoff garbled_row "ForkEvent"
           "yesterday" ValueError).
  - reflexivity.
  - vm_compute. reflexivity.
  - apply elem_of_app. right. apply elem_of_cons. by left.
  - reflexivity.
  - reflexivity.
  - vm_compute. reflexivity.
  - vm_compute. reflexivity.
Defined.

Lemma get_stats_mixed_awareness_witness :
  (∀ res, (stats_step res ("o/r", Some "PushEvent") offset_world).1 = Raise TypeError)
  ∧ ∃ e, (get_stats offset_world).1 = Raise e.
Proof.
  apply (get_stats_mixed_awareness offset_world noon_cutoff "o/r" (Some "PushEvent")
           [mk_datetime 2026 11 3 11 5 0 0 (Some 0); mk_datetime 2026 11 3 11 0 0 0 None]
           (mk_datetime 2026 11 3 11 5 0 0 (Some 0)) (mk_datetime 2026 11 3 11 0 0 0 None)).
  - reflexivity.
  - vm_compute. reflexivity.
  - vm_compute. reflexivity.
  - simpl. lia.
  - reflexivity.
  - reflexivity.
  - right. split; [by eexists|reflexivity].
Defined.

Lemma get_stats_nonnegative_witness :
  ∃ results w',
    get_stats after_five = (Ok results, w')
    ∧ ∀ repo0 ty v, stats_lookup results repo0 ty = Some v →
                    SFleb (S754_zero false) v = true.
Proof.
  apply (get_stats_nonnegative after_five noon_cutoff).
  - reflexivity.
  - vm_compute. reflexivity.
  - apply naive_check_sound. vm_compute. reflexivity.
  - apply time_ordered_check_sound. vm_compute. reflexivity.
Defined.

Lemma set_interval_lookup_witness :
  stats_lookup (set_interval (set_interval ∅ "o/r" (Some "PushEvent") (float_of_int 300))
                             "o/r" (Some "ForkEvent") (float_of_int 60))
               "o/r" (Some "PushEvent")
  = stats_lookup (set_interval ∅ "o/r" (Some "PushEvent") (float_of_int 300))
                 "o/r" (Some "PushEvent").
Proof.
  destruct (set_interval_lookup (set_interval ∅ "o/r" (Some "PushEvent") (float_of_int 300))
              "o/r" (Some "ForkEvent") (float_of_int 60)) as [_ Hother].
  apply Hother. discriminate.
Defined.

(** Without that agreement an interval can be negative: two pushes of
    one second, the later one stored first, are reported eight tenths
    of a second apart, backwards. *)
Example get_stats_swapped_second :
  ∃ v, match (get_stats swapped_world).1 with
       | Ok results => stats_lookup results "o/r" (Some "PushEvent")
       | Raise _ => None
       end = Some v
       ∧ v = S754_finite true 7205759403792794 (-53)
       ∧ SFleb (S754_zero false) v = false.
Proof. eexists. split_and!; [vm_compute; reflexivity|reflexivity|reflexivity]. Qed.

(** ** The calendar: from an ordinal to a date and back *)

Lemma days_before_year_cycles a b c d :
  0 ≤ a → 0 ≤ b ≤ 3 → 0 ≤ c ≤ 24 → 0 ≤ d ≤ 3 →
  days_before_year (400 * a + 100 * b + 4 * c + d + 1)
  = 146097 * a + 36524 * b + 1461 * c + 365 * d.
Proof.
  intros Ha Hb Hc Hd. unfold days_before_year.
  replace (400 * a + 100 * b + 4 * c + d + 1 - 1) with (400 * a + 100 * b + 4 * c + d)
    by lia.
  assert ((400 * a + 100 * b + 4 * c + d) / 4 = 100 * a + 25 * b + c) as ->.
  { symmetry. apply (Z.div_unique _ _ _ d); lia. }
  assert ((400 * a + 100 * b + 4 * c + d) / 100 = 4 * a + b) as ->.
  { symmetry. apply (Z.div_unique _ _ _ (4 * c + d)); lia. }
  assert ((400 * a + 100 * b + 4 * c + d) / 400 = a) as ->.
  { symmetry. apply (Z.div_unique _ _ _ (100 * b + 4 * c + d)); lia. }
  lia.
Qed.

Lemma is_leap_cycles a b c d :
  0 ≤ a → 0 ≤ b ≤ 3 → 0 ≤ c ≤ 24 → 0 ≤ d ≤ 3 →
  is_leap (400 * a + 100 * b + 4 * c + d + 1)
  = (d =? 3) && (negb (c =? 24) || (b =? 3)).
Proof.
  intros Ha Hb Hc Hd. unfold is_leap.
  assert ((400 * a + 100 * b + 4 * c + d + 1) mod 4 = (d + 1) mod 4) as ->.
  { replace (400 * a + 100 * b + 4 * c + d + 1)
      with (d + 1 + (100 * a + 25 * b + c) * 4) by lia.
    apply Z.mod_add. lia. }
  assert ((400 * a + 100 * b + 4 * c + d + 1) mod 100 = (4 * c + d + 1) mod 100) as ->.
  { replace (400 * a + 100 * b + 4 * c + d + 1)
      with (4 * c + d + 1 + (4 * a + b) * 100) by lia.
    apply Z.mod_add. lia. }
  assert ((400 * a + 100 * b + 4 * c + d + 1) mod 400
          = (100 * b + 4 * c + d + 1) mod 400) as ->.
  { replace (400 * a + 100 * b + 4 * c + d + 1)
      with (100 * b + 4 * c + d + 1 + a * 400) by lia.
    apply Z.mod_add. lia. }
  destruct (Z.eqb_spec d 3) as [->|Hd3].
  - change ((3 + 1) mod 4) with 0. simpl andb.
    destruct (Z.eqb_spec c 24) as [->|Hc24].
    + change ((4 * 24 + 3 + 1) mod 100) with 0. simpl.
      destruct (Z.eqb_spec b 3) as [->|Hb3]; [done|].
      apply Z.eqb_neq. intros Hm.
      apply Z.mod_divide in Hm; [|lia]. destruct Hm as [k Hk]. lia.
    + simpl.
      assert ((4 * c + 3 + 1) mod 100 ≠ 0) as Hne.
      { rewrite Z.mod_small by lia. lia. }
      apply Z.eqb_neq in Hne. by rewrite Hne.
  - assert ((d + 1) mod 4 ≠ 0) as Hne by (rewrite Z.mod_small by lia; lia).
    apply Z.eqb_neq in Hne. by rewrite Hne.
Qed.

Lemma ymd2ord_ord2ymd n y m d :
  0 < n ≤ MAXORDINAL → ord2ymd n = (y, m, d) → ymd2ord y m d = n.
Proof.
  intros Hn. unfold ord2ymd, MAXORDINAL in *.
  change DI400Y with 146097. change DI100Y with 36524. change DI4Y with 1461.
  pose proof (Z.div_mod (n - 1) 146097 ltac:(lia)) as E1.
  pose proof (Z.mod_pos_bound (n - 1) 146097 ltac:(lia)) as B1.
  set (n400 := (n - 1) / 146097) in *. set (r1 := (n - 1) mod 146097) in *.
  pose proof (Z.div_mod r1 36524 ltac:(lia)) as E2.
  pose proof (Z.mod_pos_bound r1 36524 ltac:(lia)) as B2.
  set (n100 := r1 / 36524) in *. set (r2 := r1 mod 36524) in *.
  pose proof (Z.div_mod r2 1461 ltac:(lia)) as E3.
  pose proof (Z.mod_pos_bound r2 1461 ltac:(lia)) as B3.
  set (n4 := r2 / 1461) in *. set (r3 := r2 mod 1461) in *.
  pose proof (Z.div_mod r3 365 ltac:(lia)) as E4.
  pose proof (Z.mod_pos_bound r3 365 ltac:(lia)) as B4.
  set (n1 := r3 / 365) in *. set (r := r3 mod 365) in *.
  rewrite Z.shiftr_div_pow2 by lia. change (2 ^ 5) with 32.
  pose proof (Z.div_mod (r + 50) 32 ltac:(lia)) as E5.
  pose proof (Z.mod_pos_bound (r + 50) 32 ltac:(lia)) as B5.
  set (mm := (r + 50) / 32) in *.
  clearbody n400 r1 n100 r2 n4 r3 n1 r mm.
  assert (0 ≤ n400 ∧ 0 ≤ n100 ≤ 4 ∧ 0 ≤ n4 ≤ 24 ∧ 0 ≤ n1 ≤ 4) as (H400 & H100 & H4 & H1)
    by lia.
  unfold ymd2ord, days_before_month.
  destruct (n1 =? 4) eqn:Hn1; [apply Z.eqb_eq in Hn1|apply Z.eqb_neq in Hn1].
  { cbn [orb]. intros [= <- <- <-].
    replace (n400 * 400 + 1 + n100 * 100 + n4 * 4 + n1 - 1)
      with (400 * n400 + 100 * n100 + 4 * n4 + 3 + 1) by lia.
    rewrite days_before_year_cycles, is_leap_cycles by lia.
    assert ((n4 =? 24) = false) as -> by (apply Z.eqb_neq; lia).
    change (nth (Z.to_nat 12) DAYS_BEFORE_MONTH 0) with 334.
    change ((2 <? 12) && ((3 =? 3) && (negb false || (n100 =? 3)))) with true.
    cbv iota. lia. }
  destruct (n100 =? 4) eqn:Hn100; [apply Z.eqb_eq in Hn100|apply Z.eqb_neq in Hn100].
  { cbn [orb]. intros [= <- <- <-].
    replace (n400 * 400 + 1 + n100 * 100 + n4 * 4 + n1 - 1)
      with (400 * n400 + 100 * 3 + 4 * 24 + 3 + 1) by lia.
    rewrite days_before_year_cycles, is_leap_cycles by lia.
    change (nth (Z.to_nat 12) DAYS_BEFORE_MONTH 0) with 334.
    change ((2 <? 12) && ((3 =? 3) && (negb (24 =? 24) || (3 =? 3)))) with true.
    cbv iota. lia. }
  cbn [orb]. cbv iota.
  assert (days_before_year (n400 * 400 + 1 + n100 * 100 + n4 * 4 + n1) = n - 1 - r) as Hdby.
  { replace (n400 * 400 + 1 + n100 * 100 + n4 * 4 + n1)
      with (400 * n400 + 100 * n100 + 4 * n4 + n1 + 1) by lia.
    rewrite days_before_year_cycles by lia. lia. }
  assert (is_leap (n400 * 400 + 1 + n100 * 100 + n4 * 4 + n1)
          = (n1 =? 3) && (negb (n4 =? 24) || (n100 =? 3))) as Hleap.
  { replace (n400 * 400 + 1 + n100 * 100 + n4 * 4 + n1)
      with (400 * n400 + 100 * n100 + 4 * n4 + n1 + 1) by lia.
    apply is_leap_cycles; lia. }
  assert (mm = 1 ∨ mm = 2 ∨ mm = 3 ∨ mm = 4 ∨ mm = 5 ∨ mm = 6 ∨ mm = 7 ∨ mm = 8
          ∨ mm = 9 ∨ mm = 10 ∨ mm = 11 ∨ mm = 12) as Hmm by lia.
  set (yy := n400 * 400 + 1 + n100 * 100 + n4 * 4 + n1) in *.
  destruct ((n1 =? 3) && (negb (n4 =? 24) || (n100 =? 3))) eqn:Hflag;
    repeat (destruct Hmm as [-> | Hmm]); try subst mm; simpl;
      match goal with
      | |- (if ?c then _ else _) = _ → _ =>
          destruct c eqn:Hlt; [apply Z.ltb_lt in Hlt|apply Z.ltb_ge in Hlt]
      end;
      intros [= <- <- <-]; rewrite Hdby, Hleap; simpl; lia.
Qed.

Lemma time_of_day_bounds d : valid_time d → 0 ≤ time_of_day d < US_PER_DAY.
Proof.
  intros (Hh & Hm & Hs & Hu). unfold time_of_day, US_PER_DAY, US_PER_SECOND in *. lia.
Qed.

Lemma datetime_add_days now k :
  valid_time now →
  0 < toordinal now - k ≤ MAXORDINAL →
  ∃ c, datetime_add now (- timedelta_days k) = Ok c
       ∧ toordinal c = toordinal now - k
       ∧ time_of_day c = time_of_day now
       ∧ utcoffset c = utcoffset now.
Proof.
  intros Hvalid Hrange. pose proof (time_of_day_bounds now Hvalid) as Htod.
  unfold datetime_add, timedelta_days.
  set (total := toordinal now * US_PER_DAY + time_of_day now + - (k * US_PER_DAY)).
  assert (total / US_PER_DAY = toordinal now - k) as Hdays.
  { symmetry. apply (Z.div_unique _ _ _ (time_of_day now)); [lia|]. unfold total. lia. }
  assert (total mod US_PER_DAY = time_of_day now) as Hrest.
  { symmetry. apply (Z.mod_unique _ _ (toordinal now - k)); [lia|]. unfold total. lia. }
  rewrite Hdays, Hrest.
  assert ((0 <? toordinal now - k) && (toordinal now - k <=? MAXORDINAL) = true) as ->.
  { apply andb_true_iff. split; [apply Z.ltb_lt|apply Z.leb_le]; lia. }
  destruct (ord2ymd (toordinal now - k)) as [[y m] d] eqn:Hymd.
  apply ymd2ord_ord2ymd in Hymd; [|done].
  eexists. split; [done|]. split_and!; [done| |done].
  unfold time_of_day at 1. simpl.
  set (rest := time_of_day now) in *.
  unfold US_PER_DAY, US_PER_SECOND in *.
  pose proof (Z.div_mod rest 1000000 ltac:(lia)).
  pose proof (Z.mod_pos_bound rest 1000000 ltac:(lia)).
  set (secs := rest / 1000000) in *.
  pose proof (Z.div_mod secs 3600 ltac:(lia)).
  pose proof (Z.mod_pos_bound secs 3600 ltac:(lia)).
  pose proof (Z.div_mod (secs mod 3600) 60 ltac:(lia)).
  assert ((secs mod 3600) mod 60 = secs mod 60) as Hmm.
  { apply Z.mod_mod_divide. by exists 60. }
  lia.
Qed.

(** X22 — The cutoff lies [MAX_DAYS] days back.  For a clock with
    time fields in their ranges and a date from the eighth day of year
    1 on, the cutoff of the two queries is the ISO text, followed by
    [Z], of a datetime with the offset of the clock that lies exactly
    [MAX_DAYS] days before it. *)
Theorem cutoff_text_max_days w :
  valid_time (utcnow w) →
  0 < toordinal (utcnow w) - MAX_DAYS ≤ MAXORDINAL →
  ∃ c, cutoff_text (utcnow w) = Ok (isoformat c +:+ "Z")
       ∧ datetime_sub (utcnow w) c = Ok (timedelta_days MAX_DAYS)
       ∧ valid_fields c.
Proof.
  intros Hvalid Hrange.
  destruct (datetime_add_days (utcnow w) MAX_DAYS Hvalid Hrange)
    as (c & Hadd & Hord & Htod & Hoff).
  exists c. unfold cutoff_text. rewrite Hadd. split_and!; [done| |].
  - unfold datetime_sub. rewrite Hord, Htod, Hoff. unfold timedelta_days.
    destruct (utcoffset (utcnow w)); f_equal; lia.
  - by apply (datetime_add_fields _ _ _ Hadd).
Qed.

Lemma cutoff_text_max_days_witness :
  ∃ c, cutoff_text (utcnow (fresh noon)) = Ok (isoformat c +:+ "Z")
       ∧ datetime_sub (utcnow (fresh noon)) c = Ok (timedelta_days MAX_DAYS)
       ∧ valid_fields c.
Proof.
  apply (cutoff_text_max_days (fresh noon)).
  - unfold valid_time. simpl. unfold US_PER_SECOND. lia.
  - vm_compute. split; [reflexivity|discriminate].
Defined.

(** ** Start-up: [init_db] *)

(** X23 — Creating the table keeps the rows.  [init_db] consults the
    storage layer three times (connect, [CREATE TABLE IF NOT EXISTS],
    commit) and catches nothing: the first of these operations that
    fails raises to the caller.  On a working store it returns
    normally and leaves the process state, the stored rows included,
    exactly as it was, so that it can be run at every start. *)
Theorem init_db_keeps_rows w :
  uncommitted w = None →
  events (init_db w).2 = events w
  ∧ (storage_faults w = [] → init_db w = (Ok tt, w))
  ∧ ∀ e, consume 3 (storage_faults w) = inl e → (init_db w).1 = Raise e.
Proof.
  intros Hunc.
  unfold init_db, sqlite3_connect, conn_commit, conn_close, storage_operation, bind, modify.
  destruct w as [cfg repos t unc fs now gh lg]. simpl in *. subst unc.
  destruct fs as [|[e1|] [|[e2|] [|[e3|] fs]]]; simpl; split_and!; try done;
    intros e [= <-]; done.
Qed.

Lemma init_db_keeps_rows_witness :
  events (init_db after_five).2 = events after_five
  ∧ init_db after_five = (Ok tt, after_five)
  ∧ (init_db unreachable_store).1 = Raise OperationalError.
Proof.
  destruct (init_db_keeps_rows after_five) as (Hev & Hok & _); [reflexivity|].
  destruct (init_db_keeps_rows unreachable_store) as (_ & _ & Hfail); [reflexivity|].
  split_and!; [exact Hev|apply Hok; reflexivity|apply Hfail; reflexivity].
Defined.

(** ** Statistics: the interval as a mean *)

Lemma length_consecutive_deltas l : length (consecutive_deltas l) = (length l - 1)%nat.
Proof.
  unfold consecutive_deltas. rewrite length_zip_with. destruct l as [|a l]; cbn [length tail]; lia.
Qed.

Section MeanOfDeltas.
Context `{Library}.

(** X24 — The consecutive differences telescope.  On a working store
    whose timestamps are read as naive datetimes, for a window of at
    least two timestamps the entry of the pair in the payload is what
    the exact sum of the differences between consecutive timestamps of
    the window gives: the sum in microseconds, an integer, turned into
    seconds and divided by the number of differences.  The timestamps
    between the first and the last of the window do not change the
    entry. *)
Theorem get_stats_sum_of_deltas w cutoff repo0 ty window :
  storage_faults w = [] →
  cutoff_text (utcnow w) = Ok cutoff →
  naive_timestamps (events w) →
  (get_recent_events repo0 ty w).1 = Ok window →
  (2 ≤ length window)%nat →
  ∃ results w',
    get_stats w = (Ok results, w')
    ∧ stats_lookup results repo0 ty
      = Some (SFdiv 53 1024
                (SFdiv 53 1024
                   (exact_int (foldr Z.add 0 (consecutive_deltas (instant <$> window))))
                   (exact_int 1000000))
                (binary_normalize 53 1024
                   (Z.of_nat (length (consecutive_deltas (instant <$> window)))) 0 false)).
Proof.
  intros Hf Hcut Hnaive Hwin Hlen.
  destruct (get_stats_entry w cutoff repo0 ty window Hf Hcut Hnaive Hwin Hlen)
    as (results & w' & t0 & tn & Hrun & H0 & Hn & Hv).
  exists results, w'. split; [done|]. rewrite Hv.
  rewrite (sum_consecutive_deltas (instant <$> window) (instant t0) (instant tn)).
  - by rewrite length_consecutive_deltas, length_fmap.
  - destruct window; [done|]. by injection H0 as ->.
  - by rewrite fmap_last, Hn.
Qed.
End MeanOfDeltas.

Lemma get_stats_sum_of_deltas_witness :
  ∃ results w',
    get_stats paced_world = (Ok results, w')
    ∧ consecutive_deltas (instant <$> paced_times) = [1100000; 1100000; 1100000]
    ∧ stats_lookup results "o/r" (Some "PushEvent")
      = Some (S754_finite false 4953959590107545 (-52)).
Proof.
  destruct (get_stats_sum_of_deltas paced_world noon_cutoff "o/r" (Some "PushEvent")
              paced_times) as (results & w' & Hrun & Hv).
  - reflexivity.
  - vm_compute. reflexivity.
  - apply naive_check_sound. vm_compute. reflexivity.
  - vm_compute. reflexivity.
  - simpl. lia.
  - exists results, w'. split_and!; [done|vm_compute; reflexivity|exact Hv].
Defined.
